(** * SimiluBot music subsystem: a shallow embedding and its properties

    The development follows the Python sources under [similubot/music]:
    - [seek_manager.py]   : [SeekManager] (time parsing, formatting, validation)
    - [youtube_client.py] : [YouTubeClient] (URL test, filename sanitising,
                            object creation with fallback, download)
    - [catbox_client.py]  : [CatboxClient] (URL test, HEAD probe with retry,
                            validation)
    - [music_player.py]   : [MusicPlayer] (per-guild maps, timing, timers,
                            public operations)

    Conventions.
    - A Python [str] is a [string]; a character is a code point below 256.
    - A Python [float] is a rational [Q]: rounding is not modelled, the range
      check of [float(int)] is.
    - A Python [dict] keyed by guild id is a [gmap Z _].
    - An [asyncio.Task] is an index into the table of tasks created so far.
    - Code that can raise returns a [result]; collaborators that are not part
      of these files are section variables. *)

From Stdlib Require Import ZArith QArith Qround Qminmax Strings.String Strings.Ascii.
From Stdlib Require Import List Lia Bool DecimalString Lqa.
From stdpp Require Import gmap strings list fin_maps.

Local Open Scope Z_scope.

(** ** Python values shared by all modules *)

(** The exception classes the sources name, plus one for everything else
    that is an instance of [Exception]. *)
Inductive exc_class : Type :=
| ValueError
| OverflowError
| ClientError        (* aiohttp.ClientError *)
| PytubeFixError     (* pytubefix.exceptions.PytubeFixError *)
| OtherException.

Record exn : Type := mkExn { e_class : exc_class; e_msg : string }.

(** The outcome of running a piece of code: a value, or a raised exception. *)
Inductive result (A : Type) : Type :=
| Ret (a : A)
| Raise (e : exn).
Arguments Ret {A} a.
Arguments Raise {A} e.

Definition exc_class_eqb (a b : exc_class) : bool :=
  match a, b with
  | ValueError, ValueError | OverflowError, OverflowError
  | ClientError, ClientError | PytubeFixError, PytubeFixError
  | OtherException, OtherException => true
  | _, _ => false
  end.

(** ** Python string operations *)
Module PyStr.

Definition code (c : ascii) : nat := nat_of_ascii c.

(** [str.isspace] on one character (code points below 256). *)
Definition isspace (c : ascii) : bool :=
  let n := code c in
  ((9 <=? n) && (n <=? 13) || (28 <=? n) && (n <=? 32)
   || (n =? 133) || (n =? 160))%nat.

(** ASCII decimal digit, the only [\d] below code point 256. *)
Definition isdigit (c : ascii) : bool :=
  let n := code c in ((48 <=? n) && (n <=? 57))%nat.

(** [\w]: alphanumeric or underscore (code points below 256). *)
Definition isword (c : ascii) : bool :=
  let n := code c in
  (isdigit c
   || (65 <=? n) && (n <=? 90) || (97 <=? n) && (n <=? 122) || (n =? 95)
   || (n =? 170) || (n =? 178) || (n =? 179) || (n =? 181) || (n =? 185)
   || (n =? 186) || (188 <=? n) && (n <=? 190)
   || (192 <=? n) && (n <=? 214) || (216 <=? n) && (n <=? 246)
   || (248 <=? n))%nat.

Definition is_empty (s : string) : bool :=
  match s with EmptyString => true | String _ _ => false end.

Fixpoint lstrip (s : string) : string :=
  match s with
  | EmptyString => EmptyString
  | String c s' => if isspace c then lstrip s' else s
  end.

Fixpoint rstrip (s : string) : string :=
  match s with
  | EmptyString => EmptyString
  | String c s' =>
      let r := rstrip s' in
      if is_empty r && isspace c then EmptyString else String c r
  end.

(** [s.strip()] *)
Definition strip (s : string) : string := rstrip (lstrip s).

(** [s.replace(old, new)] for one-character [old] and [new]. *)
Fixpoint replace (old new : ascii) (s : string) : string :=
  match s with
  | EmptyString => EmptyString
  | String c s' =>
      String (if Ascii.eqb c old then new else c) (replace old new s')
  end.

(** [s[:n]] *)
Fixpoint take (n : nat) (s : string) : string :=
  match n, s with
  | S n', String c s' => String c (take n' s')
  | _, _ => EmptyString
  end.

(** [s.startswith(p)] *)
Fixpoint startswith (p s : string) : bool :=
  match p, s with
  | EmptyString, _ => true
  | String a p', String b s' => Ascii.eqb a b && startswith p' s'
  | String _ _, EmptyString => false
  end.

(** [c in s] for a character [c]. *)
Fixpoint contains (c : ascii) (s : string) : bool :=
  match s with
  | EmptyString => false
  | String a s' => Ascii.eqb a c || contains c s'
  end.

(** [p in s] for a string [p]. *)
Fixpoint has_substring (p s : string) : bool :=
  startswith p s ||
  match s with
  | EmptyString => false
  | String _ s' => has_substring p s'
  end.

(** [c.lower()] (code points below 256). *)
Definition lower_char (c : ascii) : ascii :=
  let n := code c in
  if ((65 <=? n) && (n <=? 90)
      || (192 <=? n) && (n <=? 222) && negb (n =? 215))%nat
  then ascii_of_nat (n + 32) else c.

Fixpoint lower (s : string) : string :=
  match s with
  | EmptyString => EmptyString
  | String c s' => String (lower_char c) (lower s')
  end.

(** [str(n)] for an [int]. *)
Definition of_Z (n : Z) : string := NilZero.string_of_int (Z.to_int n).

(** The character of a decimal digit. *)
Definition digit_char (d : Z) : ascii := ascii_of_nat (48 + Z.to_nat d).

(** [f"{n:02d}"] for [n >= 0]: at least two digits, zero padded. *)
Definition pad2 (n : Z) : string :=
  if n <? 10 then String "0"%char (String (digit_char n) EmptyString)
  else of_Z n.

Definition digit_value (c : ascii) : Z := Z.of_nat (code c) - 48.

(** Default of [sys.set_int_max_str_digits]. *)
Definition int_max_str_digits : nat := 4300.

(** Digits of an [int] literal: decimal digits, single underscores allowed
    between digits. Returns the value and the number of digits. *)
Fixpoint int_digits (after_digit : bool) (acc : Z) (n : nat) (s : string)
  : option (Z * nat) :=
  match s with
  | EmptyString => if after_digit then Some (acc, n) else None
  | String c s' =>
      if isdigit c then int_digits true (10 * acc + digit_value c) (S n) s'
      else if Ascii.eqb c "_"%char && after_digit then int_digits false acc n s'
      else None
  end.

(** [int(s)] in base 10: surrounding whitespace and one sign are accepted;
    more digits than the interpreter's limit, or any other spelling, is a
    [ValueError]. *)
Definition int (s : string) : result Z :=
  let bad := Raise (mkExn ValueError ("invalid literal for int() with base 10: " +:+ s)) in
  let body (neg : bool) (t : string) :=
    match int_digits false 0 0 t with
    | Some (v, n) =>
        if (n <=? int_max_str_digits)%nat then Ret (if neg then - v else v)
        else Raise (mkExn ValueError "Exceeds the limit for integer string conversion")
    | None => bad
    end in
  match strip s with
  | String c t =>
      if Ascii.eqb c "-"%char then body true t
      else if Ascii.eqb c "+"%char then body false t
      else body false (String c t)
  | EmptyString => bad
  end.

(** [float(n)] for an [int]: the value, or [OverflowError] when [n] does
    not round to a finite double. *)
Definition float_of_int (n : Z) : result Q :=
  if Z.abs n <? 2 ^ 1024 - 2 ^ 970 then Ret (inject_Z n)
  else Raise (mkExn OverflowError "int too large to convert to float").

(** [f"{n:02d}"] for any integer, as in [format_duration]. *)
Definition format_02d (n : Z) : string :=
  if n <? 0 then PyStr.of_Z n else PyStr.pad2 n.

End PyStr.

(** ** A backtracking matcher for the regular expressions of the sources *)
Module Re.

Inductive regex : Type :=
| Eps
| Cls (p : ascii -> bool)                      (* a character class *)
| Seq (r1 r2 : regex)
| Rep (lo : nat) (hi : option nat) (r : regex) (* greedy r{lo,hi}; hi = None: unbounded *)
| Grp (i : nat) (r : regex)                    (* capturing group number i+1 *)
| Eol.                                         (* $ *)

Definition Lit (c : ascii) : regex := Cls (Ascii.eqb c).
Definition Opt (r : regex) : regex := Rep 0 (Some 1%nat) r.
Definition Plus (r : regex) : regex := Rep 1 None r.

Fixpoint Str (s : string) : regex :=
  match s with
  | EmptyString => Eps
  | String c s' => Seq (Lit c) (Str s')
  end.

(** [match.groups()]: one entry per group, [None] where it took no part. *)
Definition groups := list (option string).

(** [$] holds at the end, and just before a newline that ends the string. *)
Definition at_eol (s : string) : bool :=
  match s with
  | EmptyString => true
  | String c EmptyString => Ascii.eqb c "010"%char
  | _ => false
  end.

(** The part of [s] consumed when [s'] is what remains. *)
Definition consumed (s s' : string) : string :=
  PyStr.take (String.length s - String.length s') s.

(** Continuation-passing matcher: [rmatch r s g k] matches [r] at the
    front of [s] and hands the rest to [k]; alternatives are tried in
    the order of the backtracking engine (greedy repetition first). *)
Fixpoint rmatch (r : regex) (s : string) (g : groups)
         (k : string -> groups -> option groups) {struct r} : option groups :=
  match r with
  | Eps => k s g
  | Cls p =>
      match s with
      | String a s' => if p a then k s' g else None
      | EmptyString => None
      end
  | Seq r1 r2 => rmatch r1 s g (fun s' g' => rmatch r2 s' g' k)
  | Rep lo hi r1 =>
      (fix rep (lo n : nat) (s : string) (g : groups) {struct n} : option groups :=
         match n with
         | O => match lo with O => k s g | S _ => None end
         | S n' =>
             match rmatch r1 s g (fun s' g' => rep (Nat.pred lo) n' s' g') with
             | Some res => Some res
             | None => match lo with O => k s g | S _ => None end
             end
         end)
        lo (match hi with Some h => h | None => String.length s end) s g
  | Grp i r1 =>
      rmatch r1 s g (fun s' g' => k s' (<[i := Some (consumed s s')]> g'))
  | Eol => if at_eol s then k s g else None
  end.

(** [pattern.match(s)] for a pattern with [n] groups: a match at the start
    of [s] (so a leading [^] adds nothing), or [None]. *)
Definition pmatch (n : nat) (r : regex) (s : string) : option groups :=
  rmatch r s (replicate n None) (fun _ g => Some g).

End Re.


(** ** seek_manager.py *)
Module SeekManager.
Import PyStr Re.

(** [SeekResult]: the dataclass returned by every seek helper. *)
Record SeekResult : Type := mkSeekResult {
  success : bool;
  target_position : option Q;
  error_message : option string
}.

Definition digit : regex := Cls isdigit.
Definition sign_class : regex :=
  Cls (fun c => Ascii.eqb c "+"%char || Ascii.eqb c "-"%char).

(** [TIME_ABSOLUTE_PATTERN = ^(?:(\d{1,2}):)?(\d{1,2}):(\d{2})$] *)
Definition TIME_ABSOLUTE_PATTERN : regex :=
  Seq (Opt (Seq (Grp 0 (Rep 1 (Some 2%nat) digit)) (Lit ":")))
      (Seq (Grp 1 (Rep 1 (Some 2%nat) digit))
           (Seq (Lit ":") (Seq (Grp 2 (Rep 2 (Some 2%nat) digit)) Eol))).

(** [TIME_RELATIVE_PATTERN = ^([+-])(?:(\d{1,2}):)?(\d{1,2}):(\d{2})$] *)
Definition TIME_RELATIVE_PATTERN : regex :=
  Seq (Grp 0 sign_class)
      (Seq (Opt (Seq (Grp 1 (Rep 1 (Some 2%nat) digit)) (Lit ":")))
           (Seq (Grp 2 (Rep 1 (Some 2%nat) digit))
                (Seq (Lit ":") (Seq (Grp 3 (Rep 2 (Some 2%nat) digit)) Eol)))).

(** [TIME_SECONDS_ONLY_PATTERN = ^([+-])?(\d+)$] *)
Definition TIME_SECONDS_ONLY_PATTERN : regex :=
  Seq (Opt (Grp 0 sign_class)) (Seq (Grp 1 (Plus digit)) Eol).

(** Truth value of an [Optional[str]]: [None] and the empty string are false. *)
Definition truthy (o : option string) : bool :=
  match o with Some s => negb (is_empty s) | None => false end.

Definition str_or_empty (o : option string) : string := default EmptyString o.

(** [try: ... except ValueError as e: handler(e)] *)
Definition catch_ValueError {A} (body : result A) (handler : exn -> A) : result A :=
  match body with
  | Ret a => Ret a
  | Raise e => if exc_class_eqb (e_class e) ValueError then Ret (handler e) else Raise e
  end.

Definition bind {A B} (m : result A) (f : A -> result B) : result B :=
  match m with Ret a => f a | Raise e => Raise e end.

(** [_parse_time_components(sign, hours, minutes, seconds, is_relative)] *)
Definition _parse_time_components
    (sign hours : option string) (minutes seconds : string) (is_relative : bool)
  : result SeekResult :=
  catch_ValueError
    (bind (if truthy hours then int (str_or_empty hours) else Ret 0) (fun h =>
     bind (int minutes) (fun m =>
     bind (int seconds) (fun s =>
     if 60 <=? m then
       Ret (mkSeekResult false None (Some ("Minutes must be less than 60: " +:+ of_Z m)))
     else if 60 <=? s then
       Ret (mkSeekResult false None (Some ("Seconds must be less than 60: " +:+ of_Z s)))
     else if (h <? 0) || (m <? 0) || (s <? 0) then
       Ret (mkSeekResult false None (Some "Time components cannot be negative"))
     else
       let total_seconds := h * 3600 + m * 60 + s in
       let total_seconds :=
         if is_relative && bool_decide (sign = Some "-")
         then - total_seconds else total_seconds in
       bind (float_of_int total_seconds) (fun p =>
       Ret (mkSeekResult true (Some p) None))))))
    (fun e => mkSeekResult false None (Some ("Invalid time components: " +:+ e_msg e))).

(** The group at index [i] of a match. *)
Definition group (g : groups) (i : nat) : option string := mjoin (g !! i).

(** [parse_seek_time(time_str)] *)
Definition parse_seek_time (time_str : string) : result SeekResult :=
  let time_str := strip time_str in
  if is_empty time_str then
    Ret (mkSeekResult false None (Some "Empty time string"))
  else
    match pmatch 4 TIME_RELATIVE_PATTERN time_str with
    | Some g =>
        _parse_time_components (group g 0) (group g 1)
          (str_or_empty (group g 2)) (str_or_empty (group g 3)) true
    | None =>
    match pmatch 3 TIME_ABSOLUTE_PATTERN time_str with
    | Some g =>
        _parse_time_components None (group g 0)
          (str_or_empty (group g 1)) (str_or_empty (group g 2)) false
    | None =>
    match pmatch 2 TIME_SECONDS_ONLY_PATTERN time_str with
    | Some g =>
        let sign := group g 0 in
        let seconds_str := str_or_empty (group g 1) in
        catch_ValueError
          (bind (int seconds_str) (fun seconds =>
           let seconds :=
             if bool_decide (sign = Some "-") then - seconds else seconds in
           bind (float_of_int seconds) (fun p =>
           Ret (mkSeekResult true (Some p) None))))
          (fun _ => mkSeekResult false None
                      (Some ("Invalid seconds value: " +:+ seconds_str)))
    | None =>
        Ret (mkSeekResult false None (Some ("Invalid time format: " +:+ time_str)))
    end end end.

(** [format_time] on a non-negative argument. *)
Definition format_time_nonneg (seconds : Q) : string :=
  let hours := Qfloor (seconds / 3600) in
  let minutes := Qfloor ((seconds - 3600 * inject_Z hours) / 60) in
  let secs := Qfloor (seconds - 60 * inject_Z (Qfloor (seconds / 60))) in
  if 0 <? hours
  then pad2 hours +:+ ":" +:+ pad2 minutes +:+ ":" +:+ pad2 secs
  else pad2 minutes +:+ ":" +:+ pad2 secs.

(** [format_time(seconds)]: a negative argument is formatted as ["-"]
    followed by the format of its opposite. *)
Definition format_time (seconds : Q) : string :=
  if Qlt_le_dec seconds 0 then "-" +:+ format_time_nonneg (- seconds)
  else format_time_nonneg seconds.

(** [validate_seek_position(target_seconds, current_position, song_duration,
    is_relative)] *)
Definition validate_seek_position
    (target_seconds current_position song_duration : Q) (is_relative : bool)
  : SeekResult :=
  let absolute_position :=
    if is_relative then (current_position + target_seconds)%Q else target_seconds in
  if Qlt_le_dec absolute_position 0 then
    mkSeekResult false None
      (Some ("Cannot seek to negative position: " +:+ format_time absolute_position))
  else if Qlt_le_dec song_duration absolute_position then
    mkSeekResult false None
      (Some ("Cannot seek beyond song duration: " +:+ format_time absolute_position
             +:+ " > " +:+ format_time song_duration))
  else mkSeekResult true (Some absolute_position) None.

(** [is_relative_seek(time_str)] *)
Definition is_relative_seek (time_str : string) : bool :=
  let time_str := strip time_str in
  bool_decide (is_Some (pmatch 4 TIME_RELATIVE_PATTERN time_str))
  || (bool_decide (is_Some (pmatch 2 TIME_SECONDS_ONLY_PATTERN time_str))
      && (startswith "+" time_str || startswith "-" time_str)).

End SeekManager.

(** ** Values exchanged between the modules *)

(** [youtube_client.AudioInfo] *)
Record AudioInfo : Type := mkAudioInfo {
  ai_title : string;
  ai_duration : Z;
  ai_file_path : string;
  ai_url : string;
  ai_uploader : string;
  ai_thumbnail_url : option string
}.

(** [catbox_client.CatboxAudioInfo] *)
Record CatboxAudioInfo : Type := mkCatboxAudioInfo {
  cb_title : string;
  cb_duration : Z;
  cb_file_path : string;
  cb_url : string;
  cb_uploader : string;
  cb_file_size : option Z;
  cb_file_format : option string;
  cb_thumbnail_url : option string
}.

(** Modelled from the spec: [audio_source.py] is not among the sources; the
    source type and the unified song metadata are the two-case values that
    [music_player.py] builds and tests. *)
Inductive AudioSourceType : Type := YOUTUBE | CATBOX.

(** Modelled from the spec: [UnifiedAudioInfo] (song metadata), built by
    [from_youtube_info] or [from_catbox_info]. *)
Inductive UnifiedAudioInfo : Type :=
| from_youtube_info (i : AudioInfo)
| from_catbox_info (i : CatboxAudioInfo).

Definition is_youtube (u : UnifiedAudioInfo) : bool :=
  match u with from_youtube_info _ => true | from_catbox_info _ => false end.
Definition is_catbox (u : UnifiedAudioInfo) : bool :=
  match u with from_youtube_info _ => false | from_catbox_info _ => true end.

(** Modelled from the spec: [queue_manager.Song] (song metadata); its
    [audio_info] is a unified record or a legacy [AudioInfo]. *)
Record Song : Type := mkSong {
  song_title : string;
  song_duration : Z;
  song_url : string;
  song_audio_info : UnifiedAudioInfo + AudioInfo
}.

(** A [discord.Member], as far as the player reads it: the guild id and the
    channel of [member.voice], with whether it is a [discord.VoiceChannel]. *)
Record Member : Type := mkMember {
  member_guild_id : Z;
  member_voice_channel : option (Z * bool)
}.

(** The answers of [ConfigManager], which is not among the sources. *)
Record Config : Type := mkConfig {
  is_potoken_enabled : bool;
  is_potoken_auto_generate_enabled : bool;
  get_potoken_client : string;
  get_manual_visitor_data : option string;
  get_manual_po_token : option string;
  is_youtube_auto_fallback_enabled : bool;
  is_fallback_web_client_enabled : bool;
  get_music_auto_disconnect_timeout : Z
}.

(** Keyword arguments passed to the [YouTube] constructor. *)
Record kwargs : Type := mkKwargs {
  kw_client : option string;
  kw_use_po_token : bool;
  kw_on_progress_callback : bool
}.

(** What a HEAD response is read for: its status and [content-length]. *)
Record HeadResponse : Type := mkHeadResponse {
  status : Z;
  content_length : option string
}.

(** [urlparse(url)]: the two components the sources read. *)
Record ParseResult : Type := mkParseResult { netloc : string; path : string }.

(** Handles of objects owned by the libraries. *)
Record YT : Type := mkYT { yt_handle : Z }.
Record Stream : Type := mkStream { stream_handle : Z; subtype : string }.
Record AudioSource : Type := mkAudioSource { source_handle : Z }.

(** ** Calls into the collaborators

    Every call that leaves the four modelled files: the clock, the event
    loop, the HTTP session, pytubefix, the file system, FFmpeg, the voice
    manager and the per-guild queue managers. *)
Inductive call : Type :=
| Time                                          (* time.time() *)
| Sleep (seconds : Z)                           (* await asyncio.sleep(seconds) *)
| GetSession                                    (* CatboxClient._get_session() *)
| SessionHead (url : string)                    (* session.head(url, headers=...) *)
| YouTubeCtor (url : string) (kw : kwargs)      (* asyncio.to_thread(YouTube, url, **kw) *)
| StreamsFilterM4aFirst (yt : YT)               (* yt.streams.filter(only_audio, m4a).first() *)
| StreamsGetAudioOnly (yt : YT)                 (* yt.streams.get_audio_only() *)
| YtTitle (yt : YT)
| YtLength (yt : YT)
| YtAuthor (yt : YT)
| YtThumbnailUrl (yt : YT)
| StreamDownload (st : Stream) (output_path filename : string)
| OsPathExists (p : string)
| OsRemove (p : string)
| FFmpegPCMAudio (p : string) (seek : option Q) (* options '-vn' or '-ss <seek> -vn' *)
| VmIsPlaying (guild_id : Z)
| VmIsConnected (guild_id : Z)
| VmStopAudio (guild_id : Z)
| VmDisconnectFromGuild (guild_id : Z)
| VmPlayAudio (guild_id : Z) (src : AudioSource)
| VmConnectToVoiceChannel (channel : Z)
| QmAddSong (guild_id : Z) (info : UnifiedAudioInfo) (requester : Member)
| QmGetCurrentSong (guild_id : Z)
| QmClearQueue (guild_id : Z)
| QmJumpToPosition (guild_id : Z) (position : Z)
| QmGetNextSong (guild_id : Z)
| PlaybackFinishedWait (guild_id : Z).          (* await playback_finished.wait() *)

(** The type of the value each call returns. *)
Definition resp (c : call) : Type :=
  match c with
  | Time => Q
  | Sleep _ | GetSession | OsRemove _ | VmStopAudio _
  | VmDisconnectFromGuild _ | PlaybackFinishedWait _ => unit
  | SessionHead _ => HeadResponse
  | YouTubeCtor _ _ => option YT
  | StreamsFilterM4aFirst _ | StreamsGetAudioOnly _ => option Stream
  | YtTitle _ | YtAuthor _ | YtThumbnailUrl _ => option string
  | YtLength _ => option Z
  | StreamDownload _ _ _ => option string
  | OsPathExists _ | VmIsPlaying _ | VmIsConnected _ | VmPlayAudio _ _
  | VmConnectToVoiceChannel _ => bool
  | FFmpegPCMAudio _ _ => AudioSource
  | QmAddSong _ _ _ | QmClearQueue _ => Z
  | QmGetCurrentSong _ | QmJumpToPosition _ _ | QmGetNextSong _ => option Song
  end.

(** Messages sent to a [ProgressTracker] (start, update, complete, fail). *)
Inductive progress : Type :=
| ProgressStart
| ProgressUpdate (percentage : Q) (message : string)
| ProgressComplete (message : string)
| ProgressFail (message : string).

(** The environment a run takes place in: the state of everything outside
    the modelled files, how each call answers in it (a value or a raised
    exception, and the state after), [urlparse], and the progress tracker,
    whose notifications only update the outside state. *)
Class Environment : Type := {
  World : Type;
  oracle : forall c : call, World -> result (resp c) * World;
  urlparse : string -> result ParseResult;
  notify : progress -> World -> World
}.

(** ** The event loop's tasks and the fields of a [MusicPlayer] *)

Inductive task_kind : Type :=
| PlaybackLoop                             (* _playback_loop(guild_id, ...) *)
| InactivityTimer (timeout_seconds : Z).   (* _inactivity_timer_task(guild_id, timeout) *)

(** A task is pending until it finishes; [cancel()] on a pending task
    requests its cancellation. *)
Inductive task_state : Type := Pending | CancelRequested | Done.

Record task : Type := mkTask {
  t_guild : Z;
  t_kind : task_kind;
  t_state : task_state
}.

(** The attributes set by [MusicPlayer.__init__], and the table of the
    tasks made by [asyncio.create_task]; an [asyncio.Task] held in a map is
    its index in the table. *)
Record PlayerState : Type := mkPlayerState {
  config : option Config;
  temp_dir : string;
  _queue_managers : gset Z;
  _playback_tasks : gmap Z nat;
  _current_audio_files : gmap Z string;
  _playback_start_times : gmap Z Q;
  _playback_paused_times : gmap Z Q;
  _total_paused_duration : gmap Z Q;
  _inactivity_timers : gmap Z nat;
  _last_activity_times : gmap Z Q;
  tasks : list task
}.

Definition set_queue_managers (f : gset Z -> gset Z) (p : PlayerState) :=
  mkPlayerState (config p) (temp_dir p) (f (_queue_managers p)) (_playback_tasks p)
    (_current_audio_files p) (_playback_start_times p) (_playback_paused_times p)
    (_total_paused_duration p) (_inactivity_timers p) (_last_activity_times p) (tasks p).
Definition set_playback_tasks (f : gmap Z nat -> gmap Z nat) (p : PlayerState) :=
  mkPlayerState (config p) (temp_dir p) (_queue_managers p) (f (_playback_tasks p))
    (_current_audio_files p) (_playback_start_times p) (_playback_paused_times p)
    (_total_paused_duration p) (_inactivity_timers p) (_last_activity_times p) (tasks p).
Definition set_current_audio_files (f : gmap Z string -> gmap Z string) (p : PlayerState) :=
  mkPlayerState (config p) (temp_dir p) (_queue_managers p) (_playback_tasks p)
    (f (_current_audio_files p)) (_playback_start_times p) (_playback_paused_times p)
    (_total_paused_duration p) (_inactivity_timers p) (_last_activity_times p) (tasks p).
Definition set_playback_start_times (f : gmap Z Q -> gmap Z Q) (p : PlayerState) :=
  mkPlayerState (config p) (temp_dir p) (_queue_managers p) (_playback_tasks p)
    (_current_audio_files p) (f (_playback_start_times p)) (_playback_paused_times p)
    (_total_paused_duration p) (_inactivity_timers p) (_last_activity_times p) (tasks p).
Definition set_playback_paused_times (f : gmap Z Q -> gmap Z Q) (p : PlayerState) :=
  mkPlayerState (config p) (temp_dir p) (_queue_managers p) (_playback_tasks p)
    (_current_audio_files p) (_playback_start_times p) (f (_playback_paused_times p))
    (_total_paused_duration p) (_inactivity_timers p) (_last_activity_times p) (tasks p).
Definition set_total_paused_duration (f : gmap Z Q -> gmap Z Q) (p : PlayerState) :=
  mkPlayerState (config p) (temp_dir p) (_queue_managers p) (_playback_tasks p)
    (_current_audio_files p) (_playback_start_times p) (_playback_paused_times p)
    (f (_total_paused_duration p)) (_inactivity_timers p) (_last_activity_times p) (tasks p).
Definition set_inactivity_timers (f : gmap Z nat -> gmap Z nat) (p : PlayerState) :=
  mkPlayerState (config p) (temp_dir p) (_queue_managers p) (_playback_tasks p)
    (_current_audio_files p) (_playback_start_times p) (_playback_paused_times p)
    (_total_paused_duration p) (f (_inactivity_timers p)) (_last_activity_times p) (tasks p).
Definition set_last_activity_times (f : gmap Z Q -> gmap Z Q) (p : PlayerState) :=
  mkPlayerState (config p) (temp_dir p) (_queue_managers p) (_playback_tasks p)
    (_current_audio_files p) (_playback_start_times p) (_playback_paused_times p)
    (_total_paused_duration p) (_inactivity_timers p) (f (_last_activity_times p)) (tasks p).
Definition set_tasks (f : list task -> list task) (p : PlayerState) :=
  mkPlayerState (config p) (temp_dir p) (_queue_managers p) (_playback_tasks p)
    (_current_audio_files p) (_playback_start_times p) (_playback_paused_times p)
    (_total_paused_duration p) (_inactivity_timers p) (_last_activity_times p) (f (tasks p)).

(** [MusicPlayer(bot, temp_dir, config)] *)
Definition new_player (temp : string) (cfg : option Config) : PlayerState :=
  mkPlayerState cfg temp ∅ ∅ ∅ ∅ ∅ ∅ ∅ ∅ [].

(** [task.cancel()]: a pending task gets a cancellation request. *)
Definition cancel_task (t : task) : task :=
  match t_state t with
  | Pending => mkTask (t_guild t) (t_kind t) CancelRequested
  | _ => t
  end.
Definition cancel (tid : nat) (ts : list task) : list task :=
  alter cancel_task tid ts.

(** [asyncio.create_task(...)]: the new task and the table with it added. *)
Definition create_task (g : Z) (k : task_kind) (ts : list task) : nat * list task :=
  (length ts, ts ++ [mkTask g k Pending]).

(** The task returns: it is done. *)
Definition finish_task (t : task) : task := mkTask (t_guild t) (t_kind t) Done.

(** A logged call: what was called, and the exception it raised, if any. *)
Record event : Type := mkEvent { ev_call : call; ev_raised : option exn }.

Definition raised {A} (r : result A) : option exn :=
  match r with Ret _ => None | Raise e => Some e end.

(** ** Running code against the environment *)
Section Run.
Context `{Environment}.

(** The state a run threads: the outside world, the player's fields, and
    the calls made so far, oldest first. *)
Record state : Type := mkState {
  world : World;
  player : PlayerState;
  log : list event
}.

Definition M (A : Type) : Type := state -> result A * state.

Definition ret {A} (a : A) : M A := fun s => (Ret a, s).
Definition raise {A} (e : exn) : M A := fun s => (Raise e, s).
Definition bind {A B} (m : M A) (f : A -> M B) : M B :=
  fun s => match m s with
           | (Ret a, s') => f a s'
           | (Raise e, s') => (Raise e, s')
           end.

(** Make a call: the environment answers, the call is logged with the
    exception it raised, if any. *)
Definition do (c : call) : M (resp c) :=
  fun s => let '(r, w) := oracle c (world s) in
           (r, mkState w (player s) (log s ++ [mkEvent c (raised r)])).

(** Tell a progress tracker. *)
Definition tell (m : progress) : M unit :=
  fun s => (Ret tt, mkState (notify m (world s)) (player s) (log s)).

Definition get_player : M PlayerState := fun s => (Ret (player s), s).
Definition modify_player (f : PlayerState -> PlayerState) : M unit :=
  fun s => (Ret tt, mkState (world s) (f (player s)) (log s)).

(** A pure computation that may raise. *)
Definition lift {A} (r : result A) : M A := fun s => (r, s).

(** [try: body  except Exception as e: handler(e)] *)
Definition try_except {A} (body : M A) (handler : exn -> M A) : M A :=
  fun s => match body s with
           | (Ret a, s') => (Ret a, s')
           | (Raise e, s') => handler e s'
           end.

(** [try: body  except cls as e: handler(e)]: other classes propagate. *)
Definition try_except_class {A} (cls : exc_class) (body : M A) (handler : exn -> M A) : M A :=
  fun s => match body s with
           | (Ret a, s') => (Ret a, s')
           | (Raise e, s') =>
               if exc_class_eqb (e_class e) cls then handler e s' else (Raise e, s')
           end.

(** [try: body  finally: final] *)
Definition try_finally {A} (body : M A) (final : M unit) : M A :=
  fun s => match body s with
           | (r, s') =>
               match final s' with
               | (Ret _, s'') => (r, s'')
               | (Raise e, s'') => (Raise e, s'')
               end
           end.

End Run.

Declare Scope run_scope.
Delimit Scope run_scope with run.
Notation "'let*' x ':=' m 'in' k" := (bind m (fun x => k))
  (at level 10, x name, m at level 100, k at level 200) : run_scope.
Notation "m ;; k" := (bind m (fun _ => k))
  (at level 100, k at level 200, right associativity) : run_scope.

(** ** Helpers on strings used by the clients *)

(** [s.split(c)[-1]]: the field after the last [c]. *)
Fixpoint last_field (c : ascii) (cur s : string) : string :=
  match s with
  | EmptyString => cur
  | String a s' =>
      if Ascii.eqb a c then last_field c EmptyString s'
      else last_field c (cur +:+ String a EmptyString) s'
  end.

(** [s.rsplit(c, 1)[0]]: what precedes the last [c] ([s] when there is none). *)
Fixpoint before_last (c : ascii) (s : string) : string :=
  match s with
  | EmptyString => EmptyString
  | String a s' =>
      if Ascii.eqb a c && negb (PyStr.contains c s') then EmptyString
      else String a (before_last c s')
  end.

(** [f"{q:.1f}"] for [q >= 0]: one decimal, ties to even. *)
Definition format_1f (q : Q) : string :=
  let t := (q * 10)%Q in
  let n := Qfloor t in
  let frac := (t - inject_Z n)%Q in
  let n := if Qlt_le_dec (1 # 2) frac then n + 1
           else if Qeq_bool frac (1 # 2) && Z.odd n then n + 1 else n in
  PyStr.of_Z (n / 10) +:+ "." +:+ PyStr.of_Z (n mod 10).

(** ** catbox_client.py *)
Module CatboxClient.
Section Catbox.
Context `{Environment}.
Local Open Scope run_scope.

Definition SUPPORTED_FORMATS : list string :=
  ["mp3"; "wav"; "ogg"; "m4a"; "flac"; "aac"; "opus"; "wma"].

(** One pass of [for attempt in range(max_retries + 1)]: the request, and on
    [aiohttp.ClientError] the wait before the next attempt. [Some response]
    is the [return response]; [None] lets the loop go on. *)
Definition head_attempt (url : string) (max_retries attempt : Z)
  : M (option HeadResponse) :=
  try_except_class ClientError
    (let* response := do (SessionHead url) in ret (Some response))
    (fun _ =>
       (if attempt <? max_retries then do (Sleep (2 ^ attempt)) else ret tt) ;;
       ret None).

Fixpoint head_attempts (url : string) (max_retries : Z) (attempts : list Z)
  : M (option HeadResponse) :=
  match attempts with
  | [] => ret None
  | attempt :: rest =>
      let* r := head_attempt url max_retries attempt in
      match r with
      | Some response => ret (Some response)
      | None => head_attempts url max_retries rest
      end
  end.

(** [range(n)] *)
Definition range (n : Z) : list Z := map Z.of_nat (seq 0 (Z.to_nat n)).

(** [_make_head_request_with_retry(url, max_retries)] *)
Definition _make_head_request_with_retry (url : string) (max_retries : Z)
  : M (option HeadResponse) :=
  do GetSession ;;
  head_attempts url max_retries (range (max_retries + 1)).

(** The default of [max_retries]. *)
Definition default_max_retries : Z := 2.

(** [is_catbox_url(url)] *)
Definition is_catbox_url (url : string) : bool :=
  match urlparse url with
  | Raise _ => false
  | Ret parsed =>
      if negb (String.eqb (PyStr.lower (netloc parsed)) "files.catbox.moe") then false
      else
        let path := PyStr.lower (path parsed) in
        if PyStr.is_empty path || negb (PyStr.contains "." path) then false
        else
          let file_extension := last_field "." EmptyString path in
          bool_decide (file_extension ∈ SUPPORTED_FORMATS)
  end.

(** [_extract_filename_from_url(url)] *)
Definition _extract_filename_from_url (url : string) : string :=
  match urlparse url with
  | Raise _ => "Unknown Audio File"
  | Ret parsed =>
      let filename := last_field "/" EmptyString (path parsed) in
      if PyStr.contains "." filename
      then "Catbox - " +:+ before_last "." filename
      else "Catbox - " +:+ filename
  end.

(** [_get_file_format_from_url(url)] *)
Definition _get_file_format_from_url (url : string) : option string :=
  match urlparse url with
  | Raise _ => None
  | Ret parsed =>
      let path := PyStr.lower (path parsed) in
      if PyStr.contains "." path then Some (last_field "." EmptyString path) else None
  end.

(** [extract_audio_info(url)] *)
Definition extract_audio_info (url : string) : M (option CatboxAudioInfo) :=
  if negb (is_catbox_url url) then ret None
  else
    try_except
      (let* response := _make_head_request_with_retry url default_max_retries in
       match response with
       | None => ret None
       | Some response =>
           if negb (status response =? 200) then ret None
           else
             let* file_size :=
               match content_length response with
               | Some cl =>
                   if PyStr.is_empty cl then ret None
                   else let* n := lift (PyStr.int cl) in ret (Some n)
               | None => ret None
               end in
             let filename := _extract_filename_from_url url in
             let file_format := _get_file_format_from_url url in
             ret (Some (mkCatboxAudioInfo filename 0 url url "Catbox"
                          file_size file_format None))
       end)
      (fun _ => ret None).

(** The body of the [try] of [validate_audio_file]. *)
Definition validate_audio_file_body (url : string)
  : M (bool * option CatboxAudioInfo * option string) :=
  tell ProgressStart ;;
  tell (ProgressUpdate 25 "Validating Catbox URL...") ;;
  let* audio_info := extract_audio_info url in
  match audio_info with
  | None =>
      tell (ProgressFail "Failed to extract audio information") ;;
      ret (false, None, Some "Failed to extract audio information from Catbox URL")
  | Some audio_info =>
      tell (ProgressUpdate 75 "Checking file accessibility...") ;;
      let* response := _make_head_request_with_retry url default_max_retries in
      match response with
      | None =>
          let error_msg := "Failed to connect to Catbox server after retries" in
          tell (ProgressFail error_msg) ;;
          ret (false, None, Some error_msg)
      | Some response =>
          if negb (status response =? 200) then
            let error_msg :=
              "Catbox file not accessible (HTTP " +:+ PyStr.of_Z (status response) +:+ ")" in
            let error_msg :=
              if status response =? 403 then error_msg +:+ " - Possible anti-bot detection"
              else if status response =? 429 then error_msg +:+ " - Rate limited"
              else if status response =? 404 then error_msg +:+ " - File not found"
              else error_msg in
            tell (ProgressFail error_msg) ;;
            ret (false, None, Some error_msg)
          else
            let file_size_mb :=
              match cb_file_size audio_info with
              | Some n => if n =? 0 then 0%Q else (inject_Z n / inject_Z (1024 * 1024))%Q
              | None => 0%Q
              end in
            tell (ProgressComplete
                    ("Catbox audio file validated: " +:+ cb_title audio_info
                     +:+ " (" +:+ format_1f file_size_mb +:+ " MB)")) ;;
            ret (true, Some audio_info, None)
      end
  end.

(** [validate_audio_file(url, progress_callback)] *)
Definition validate_audio_file (url : string)
  : M (bool * option CatboxAudioInfo * option string) :=
  if negb (is_catbox_url url) then
    ret (false, None, Some ("Invalid Catbox URL: " +:+ url))
  else
    try_except (validate_audio_file_body url)
      (fun e =>
         let error_msg :=
           "Error validating Catbox URL " +:+ url +:+ ": " +:+ e_msg e in
         tell (ProgressFail error_msg) ;;
         ret (false, None, Some error_msg)).

End Catbox.

(** [format_file_size(size_bytes)]. The quotients are exact in a [float]
    for sizes below [2 ** 53]. *)
Definition format_file_size (size_bytes : option Z) : string :=
  match size_bytes with
  | None => "Unknown size"
  | Some n =>
      if n =? 0 then "Unknown size"
      else if n <? 1024 then PyStr.of_Z n +:+ " B"
      else if n <? 1024 * 1024 then
        format_1f (inject_Z n / inject_Z 1024) +:+ " KB"
      else if n <? 1024 * 1024 * 1024 then
        format_1f (inject_Z n / inject_Z (1024 * 1024)) +:+ " MB"
      else format_1f (inject_Z n / inject_Z (1024 * 1024 * 1024)) +:+ " GB"
  end.

End CatboxClient.

(** ** youtube_client.py *)
Module YouTubeClient.
Import Re.

(** [[\w-]] *)
Definition word_or_dash : regex :=
  Cls (fun c => PyStr.isword c || Ascii.eqb c "-"%char).

(** [(?:https?://)?(?:www\.)?] *)
Definition url_prefix (rest : regex) : regex :=
  Seq (Opt (Seq (Str "http") (Seq (Opt (Lit "s")) (Str "://"))))
      (Seq (Opt (Str "www.")) rest).

(** The four [youtube_patterns], each ending in [[\w-]+]. *)
Definition youtube_patterns : list regex :=
  [ url_prefix (Seq (Str "youtube.com/watch?v=") (Plus word_or_dash));
    url_prefix (Seq (Str "youtu.be/") (Plus word_or_dash));
    url_prefix (Seq (Str "youtube.com/embed/") (Plus word_or_dash));
    url_prefix (Seq (Str "youtube.com/v/") (Plus word_or_dash)) ].

(** [is_youtube_url(url)] *)
Definition is_youtube_url (url : string) : bool :=
  existsb (fun pattern => bool_decide (is_Some (pmatch 0 pattern url)))
          youtube_patterns.

Definition bot_detection_indicators : list string :=
  [ "detected as a bot"; "Use `use_po_token=True`"; "switch to WEB client";
    "bot detection"; "HTTP Error 403" ].

(** [_is_bot_detection_error(error_message)] *)
Definition _is_bot_detection_error (error_message : string) : bool :=
  let error_lower := PyStr.lower error_message in
  existsb (fun indicator => PyStr.has_substring (PyStr.lower indicator) error_lower)
          bot_detection_indicators.

Definition invalid_chars : list ascii :=
  [ "<"; ">"; ":"; "034"; "/"; "\"; "|"; "?"; "*" ]%char.

(** [for char in invalid_chars: filename = filename.replace(char, '_')] *)
Definition replace_invalid_chars (filename : string) : string :=
  fold_left (fun name char => PyStr.replace char "_"%char name)
            invalid_chars filename.

(** [_sanitize_filename(filename)] *)
Definition _sanitize_filename (filename : string) : string :=
  let filename := replace_invalid_chars filename in
  let filename := PyStr.take 100 (PyStr.strip filename) in
  if PyStr.is_empty filename then "audio" else filename.

(** [_get_youtube_kwargs(url, attempt)], before the progress callback is
    added. *)
Definition _get_youtube_kwargs (cfg : option Config) (attempt : Z) : kwargs :=
  let empty := mkKwargs None false false in
  match cfg with
  | None => empty
  | Some c =>
      if attempt =? 0 then
        if is_potoken_enabled c && is_potoken_auto_generate_enabled c
        then mkKwargs (Some (get_potoken_client c)) false false
        else if is_potoken_enabled c then mkKwargs None true false
        else empty
      else if is_youtube_auto_fallback_enabled c then
        if (attempt =? 1) && is_fallback_web_client_enabled c
        then mkKwargs (Some "WEB") false false
        else if attempt =? 2 then mkKwargs None true false
        else empty
      else empty
  end.

Definition with_callback (cb : bool) (k : kwargs) : kwargs :=
  mkKwargs (kw_client k) (kw_use_po_token k) cb.

Definition fallback_enabled (cfg : option Config) : bool :=
  match cfg with Some c => is_youtube_auto_fallback_enabled c | None => false end.

(** Truth value and default of an optional string: [x or d]. *)
Definition str_or (x : option string) (d : string) : string :=
  match x with
  | Some s => if PyStr.is_empty s then d else s
  | None => d
  end.
Definition int_or (x : option Z) (d : Z) : Z :=
  match x with Some n => if n =? 0 then d else n | None => d end.

Section YouTube.
Context `{Environment}.
Local Open Scope run_scope.

(** [_create_youtube_object(url, on_progress_callback, attempt)]. The
    recursive call is made only while [attempt < 2]; [fuel] counts the
    attempts left up to 2. *)
Fixpoint create_youtube_object_from (fuel : nat) (cfg : option Config)
    (url : string) (on_progress_callback : bool) (attempt : Z) : M (option YT) :=
  try_except_class PytubeFixError
    (do (YouTubeCtor url
           (with_callback on_progress_callback (_get_youtube_kwargs cfg attempt))))
    (fun e =>
       if _is_bot_detection_error (e_msg e) && fallback_enabled cfg then
         if attempt <? 2 then
           match fuel with
           | S fuel' =>
               create_youtube_object_from fuel' cfg url on_progress_callback (attempt + 1)
           | O => raise e
           end
         else raise e
       else raise e).

Definition _create_youtube_object (url : string) (on_progress_callback : bool)
    (attempt : Z) : M (option YT) :=
  let* p := get_player in
  create_youtube_object_from (Z.to_nat (2 - attempt)) (config p) url
    on_progress_callback attempt.

(** [extract_audio_info(url)] *)
Definition extract_audio_info (url : string) : M (option AudioInfo) :=
  if negb (is_youtube_url url) then ret None
  else
    try_except
      (let* yt := _create_youtube_object url false 0 in
       match yt with
       | None => ret None
       | Some yt =>
           let* audio_stream := do (StreamsGetAudioOnly yt) in
           match audio_stream with
           | None => ret None
           | Some _ =>
               let* title := do (YtTitle yt) in
               let* length := do (YtLength yt) in
               let* author := do (YtAuthor yt) in
               let* thumbnail_url := do (YtThumbnailUrl yt) in
               ret (Some (mkAudioInfo (str_or title "Unknown Title") (int_or length 0)
                            EmptyString url (str_or author "Unknown") thumbnail_url))
           end
       end)
      (fun _ => ret None).

(** The body of the [try] of [download_audio]. *)
Definition download_audio_body (url : string)
  : M (bool * option AudioInfo * option string) :=
  tell ProgressStart ;;
  let* yt := _create_youtube_object url true 0 in
  match yt with
  | None =>
      tell (ProgressFail "Failed to create YouTube object") ;;
      ret (false, None, Some "Failed to create YouTube object")
  | Some yt =>
      let* m4a := do (StreamsFilterM4aFirst yt) in
      let* audio_stream :=
        match m4a with
        | Some st => ret (Some st)
        | None => do (StreamsGetAudioOnly yt)
        end in
      match audio_stream with
      | None =>
          tell (ProgressFail "No audio stream available") ;;
          ret (false, None, Some "No audio stream available")
      | Some audio_stream =>
          let* title := do (YtTitle yt) in
          let safe_title := _sanitize_filename (str_or title "audio") in
          let filename := safe_title +:+ "." +:+ subtype audio_stream in
          let* p := get_player in
          let* file_path := do (StreamDownload audio_stream (temp_dir p) filename) in
          tell (ProgressComplete ("Download completed: " +:+ filename)) ;;
          match file_path with
          | None => ret (false, None, Some "Download failed: No file path returned")
          | Some file_path =>
              if PyStr.is_empty file_path then
                ret (false, None, Some "Download failed: No file path returned")
              else
                let* title := do (YtTitle yt) in
                let* length := do (YtLength yt) in
                let* author := do (YtAuthor yt) in
                let* thumbnail_url := do (YtThumbnailUrl yt) in
                ret (true,
                     Some (mkAudioInfo (str_or title "Unknown Title") (int_or length 0)
                             file_path url (str_or author "Unknown") thumbnail_url),
                     None)
          end
      end
  end.

(** [download_audio(url, progress_callback)] *)
Definition download_audio (url : string)
  : M (bool * option AudioInfo * option string) :=
  if negb (is_youtube_url url) then
    ret (false, None, Some ("Invalid YouTube URL: " +:+ url))
  else
    try_except (download_audio_body url)
      (fun e =>
         if exc_class_eqb (e_class e) PytubeFixError then
           if _is_bot_detection_error (e_msg e) then
             tell (ProgressFail "Bot detection error - consider enabling PoToken") ;;
             ret (false, None,
                  Some "Bot detection error - PoToken configuration may be required")
           else
             let full_error_msg :=
               "PytubeFixError downloading " +:+ url +:+ ": " +:+ e_msg e in
             tell (ProgressFail full_error_msg) ;;
             ret (false, None, Some full_error_msg)
         else
           let error_msg :=
             "Unexpected error downloading " +:+ url +:+ ": " +:+ e_msg e in
           tell (ProgressFail error_msg) ;;
           ret (false, None, Some error_msg)).

(** [cleanup_file(file_path)] *)
Definition cleanup_file (file_path : string) : M bool :=
  try_except
    (let* present := do (OsPathExists file_path) in
     if present then do (OsRemove file_path) ;; ret true else ret false)
    (fun _ => ret false).

End YouTube.

(** [format_duration(seconds)]: [divmod] is floor division and its remainder. *)
Definition format_duration (seconds : Z) : string :=
  if seconds <? 3600 then
    let minutes := seconds / 60 in
    let secs := seconds mod 60 in
    PyStr.format_02d minutes +:+ ":" +:+ PyStr.format_02d secs
  else
    let hours := seconds / 3600 in
    let remainder := seconds mod 3600 in
    let minutes := remainder / 60 in
    let secs := remainder mod 60 in
    PyStr.format_02d hours +:+ ":" +:+ PyStr.format_02d minutes +:+ ":" +:+ PyStr.format_02d secs.

End YouTubeClient.

(** ** music_player.py *)
Module MusicPlayer.

(** *** Playback timing *)

(** [max(0.0, x)] *)
Definition max0 (x : Q) : Q := if Qlt_le_dec 0 x then x else 0%Q.

(** [get_current_playback_position(guild_id)], with [now] the value of
    [time.time()] read in it. *)
Definition get_current_playback_position (guild_id : Z) (now : Q) (p : PlayerState)
  : option Q :=
  match _playback_start_times p !! guild_id with
  | None => None
  | Some start_time =>
      let elapsed := (now - start_time)%Q in
      let total_paused := default 0%Q (_total_paused_duration p !! guild_id) in
      let total_paused :=
        match _playback_paused_times p !! guild_id with
        | Some paused_at => (total_paused + (now - paused_at))%Q
        | None => total_paused
        end in
      Some (max0 (elapsed - total_paused))
  end.

(** [_start_playback_timing(guild_id)] *)
Definition _start_playback_timing (guild_id : Z) (now : Q) (p : PlayerState) : PlayerState :=
  set_playback_paused_times (delete guild_id)
    (set_total_paused_duration (<[guild_id := 0%Q]>)
       (set_playback_start_times (<[guild_id := now]>) p)).

(** [_pause_playback_timing(guild_id)] *)
Definition _pause_playback_timing (guild_id : Z) (now : Q) (p : PlayerState) : PlayerState :=
  match _playback_start_times p !! guild_id, _playback_paused_times p !! guild_id with
  | Some _, None => set_playback_paused_times (<[guild_id := now]>) p
  | _, _ => p
  end.

(** [_resume_playback_timing(guild_id)] *)
Definition _resume_playback_timing (guild_id : Z) (now : Q) (p : PlayerState) : PlayerState :=
  match _playback_paused_times p !! guild_id with
  | Some pause_start =>
      let pause_duration := (now - pause_start)%Q in
      let before := default 0%Q (_total_paused_duration p !! guild_id) in
      set_playback_paused_times (delete guild_id)
        (set_total_paused_duration (<[guild_id := (before + pause_duration)%Q]>) p)
  | None => p
  end.

(** [_stop_playback_timing(guild_id)] *)
Definition _stop_playback_timing (guild_id : Z) (p : PlayerState) : PlayerState :=
  set_total_paused_duration (delete guild_id)
    (set_playback_paused_times (delete guild_id)
       (set_playback_start_times (delete guild_id) p)).

(** [_update_timing_after_seek(guild_id, target_seconds)], with [now] the
    value of [time.time()] read in it. *)
Definition _update_timing_after_seek (guild_id : Z) (target_seconds now : Q)
    (p : PlayerState) : PlayerState :=
  set_playback_paused_times (delete guild_id)
    (set_total_paused_duration (<[guild_id := 0%Q]>)
       (set_playback_start_times (<[guild_id := (now - target_seconds)%Q]>) p)).

(** *** Inactivity timers and playback tasks *)

(** [_get_auto_disconnect_timeout()] *)
Definition _get_auto_disconnect_timeout (p : PlayerState) : Z :=
  match config p with
  | Some c => get_music_auto_disconnect_timeout c
  | None => 300
  end.

(** [if guild_id in timers: timers[guild_id].cancel(); del timers[guild_id]] *)
Definition cancel_and_remove_timer (guild_id : Z) (p : PlayerState) : PlayerState :=
  match _inactivity_timers p !! guild_id with
  | Some timer =>
      set_inactivity_timers (delete guild_id) (set_tasks (cancel timer) p)
  | None => p
  end.

(** [_reset_inactivity_timer(guild_id)] *)
Definition _reset_inactivity_timer (guild_id : Z) (now : Q) (p : PlayerState) : PlayerState :=
  set_last_activity_times (<[guild_id := now]>) (cancel_and_remove_timer guild_id p).

(** [_start_inactivity_timer(guild_id)] *)
Definition _start_inactivity_timer (guild_id : Z) (p : PlayerState) : PlayerState :=
  let p :=
    match _inactivity_timers p !! guild_id with
    | Some timer => set_tasks (cancel timer) p
    | None => p
    end in
  let timeout_seconds := _get_auto_disconnect_timeout p in
  let '(timer_task, ts) :=
    create_task guild_id (InactivityTimer timeout_seconds) (tasks p) in
  set_inactivity_timers (<[guild_id := timer_task]>) (set_tasks (fun _ => ts) p).

(** [_stop_inactivity_timer(guild_id)] *)
Definition _stop_inactivity_timer (guild_id : Z) (p : PlayerState) : PlayerState :=
  cancel_and_remove_timer guild_id p.

(** [task = asyncio.create_task(self._playback_loop(...));
    self._playback_tasks[guild_id] = task] *)
Definition register_playback (guild_id : Z) (p : PlayerState) : PlayerState :=
  let '(task, ts) := create_task guild_id PlaybackLoop (tasks p) in
  set_playback_tasks (<[guild_id := task]>) (set_tasks (fun _ => ts) p).

(** [_start_playback(guild_id, progress_callback)], with [now] the value of
    [time.time()] read by [_reset_inactivity_timer]. *)
Definition _start_playback (guild_id : Z) (now : Q) (p : PlayerState) : PlayerState :=
  match _playback_tasks p !! guild_id with
  | Some _ => p
  | None => register_playback guild_id (_reset_inactivity_timer guild_id now p)
  end.

(** The first statement of [_cleanup_guild_state]: cancel and forget the
    playback task. *)
Definition cancel_and_remove_playback (guild_id : Z) (p : PlayerState) : PlayerState :=
  match _playback_tasks p !! guild_id with
  | Some t => set_playback_tasks (delete guild_id) (set_tasks (cancel t) p)
  | None => p
  end.

(** [file_path and not file_path.startswith('http')] *)
Definition is_local_file (file_path : string) : bool :=
  negb (PyStr.is_empty file_path) && negb (PyStr.startswith "http" file_path).

(** Whether [cancel()] was called on the task while it was pending. *)
Definition cancel_requested (timer : nat) (p : PlayerState) : bool :=
  match tasks p !! timer with
  | Some t => match t_state t with CancelRequested => true | _ => false end
  | None => false
  end.

Section Player.
Context `{Environment}.
Local Open Scope run_scope.

(** [get_queue_manager(guild_id)]: the manager is made on first use; its
    methods are calls on the guild's queue. *)
Definition get_queue_manager (guild_id : Z) : M unit :=
  modify_player (set_queue_managers (fun m => {[guild_id]} ∪ m)).

(** [detect_audio_source_type(url)] *)
Definition detect_audio_source_type (url : string) : option AudioSourceType :=
  if YouTubeClient.is_youtube_url url then Some YOUTUBE
  else if CatboxClient.is_catbox_url url then Some CATBOX
  else None.

(** [is_supported_url(url)] *)
Definition is_supported_url (url : string) : bool :=
  bool_decide (is_Some (detect_audio_source_type url)).

(** [_cleanup_current_audio(guild_id)] *)
Definition _cleanup_current_audio (guild_id : Z) : M unit :=
  let* p := get_player in
  match _current_audio_files p !! guild_id with
  | Some file_path =>
      (if is_local_file file_path
       then YouTubeClient.cleanup_file file_path ;; ret tt
       else ret tt) ;;
      modify_player (set_current_audio_files (delete guild_id))
  | None => ret tt
  end.

(** [_cleanup_guild_state(guild_id)] *)
Definition _cleanup_guild_state (guild_id : Z) : M unit :=
  modify_player (cancel_and_remove_playback guild_id) ;;
  _cleanup_current_audio guild_id ;;
  modify_player (_stop_playback_timing guild_id) ;;
  modify_player (_stop_inactivity_timer guild_id) ;;
  modify_player (set_last_activity_times (delete guild_id)).

(** [_reset_inactivity_timer] and [_start_playback] with the clock read. *)
Definition reset_inactivity_timer (guild_id : Z) : M unit :=
  modify_player (cancel_and_remove_timer guild_id) ;;
  let* now := do Time in
  modify_player (set_last_activity_times (<[guild_id := now]>)).

Definition start_playback (guild_id : Z) : M unit :=
  let* p := get_player in
  match _playback_tasks p !! guild_id with
  | Some _ => ret tt
  | None =>
      reset_inactivity_timer guild_id ;;
      modify_player (register_playback guild_id)
  end.

(** What [add_song_to_queue] does once the source type is known: extract
    the audio info, add the song, reset the timer, start playback. *)
Definition add_song_of_source (source_type : AudioSourceType) (url : string)
    (requester : Member) : M (bool * option Z * option string) :=
  let guild_id := member_guild_id requester in
  let* unified_audio_info :=
    match source_type with
    | YOUTUBE =>
        let* youtube_info := YouTubeClient.extract_audio_info url in
        ret (from_youtube_info <$> youtube_info)
    | CATBOX =>
        let* catbox_info := CatboxClient.extract_audio_info url in
        ret (from_catbox_info <$> catbox_info)
    end in
  match unified_audio_info : option UnifiedAudioInfo with
  | None => ret (false, None, Some "Failed to extract audio information from URL")
  | Some unified_audio_info =>
      get_queue_manager guild_id ;;
      let* position := (do (QmAddSong guild_id unified_audio_info requester) : M Z) in
      reset_inactivity_timer guild_id ;;
      let* playing := (do (VmIsPlaying guild_id) : M bool) in
      (if negb playing then start_playback guild_id else ret tt) ;;
      ret (true, Some position, None)
  end.

Definition unsupported_url_message : string :=
  "Unsupported URL format. Please provide a YouTube or Catbox audio file URL.".

(** The body of the [try] of [add_song_to_queue], after [guild_id] is read. *)
Definition add_song_to_queue_body (url : string) (requester : Member)
  : M (bool * option Z * option string) :=
  match detect_audio_source_type url with
  | None => ret (false, None, Some unsupported_url_message)
  | Some source_type => add_song_of_source source_type url requester
  end.

(** [add_song_to_queue(url, requester, progress_callback)] *)
Definition add_song_to_queue (url : string) (requester : Member)
  : M (bool * option Z * option string) :=
  try_except (add_song_to_queue_body url requester)
    (fun e => ret (false, None, Some ("Error adding song to queue: " +:+ e_msg e))).

(** [connect_to_user_channel(member)] *)
Definition connect_to_user_channel (member : Member) : M (bool * option string) :=
  match member_voice_channel member with
  | None => ret (false, Some "You must be in a voice channel to use music commands")
  | Some (channel, is_voice_channel) =>
      if negb is_voice_channel then
        ret (false, Some "Bot can only connect to voice channels, not stage channels")
      else
        let* voice_client := do (VmConnectToVoiceChannel channel) in
        if negb voice_client then ret (false, Some "Failed to connect to voice channel")
        else
          reset_inactivity_timer (member_guild_id member) ;;
          ret (true, None)
  end.

(** The body of the [try] of [skip_current_song]. *)
Definition skip_current_song_body (guild_id : Z)
  : M (bool * option string * option string) :=
  get_queue_manager guild_id ;;
  let* current_song := do (QmGetCurrentSong guild_id) in
  match current_song with
  | None => ret (false, None, Some "No song is currently playing")
  | Some current_song =>
      do (VmStopAudio guild_id) ;;
      _cleanup_current_audio guild_id ;;
      ret (true, Some (song_title current_song), None)
  end.

(** [skip_current_song(guild_id)] *)
Definition skip_current_song (guild_id : Z) : M (bool * option string * option string) :=
  try_except (skip_current_song_body guild_id)
    (fun e => ret (false, None, Some ("Error skipping song: " +:+ e_msg e))).

(** The body of the [try] of [stop_playback]. *)
Definition stop_playback_body (guild_id : Z) : M (bool * option string) :=
  do (VmStopAudio guild_id) ;;
  get_queue_manager guild_id ;;
  do (QmClearQueue guild_id) ;;
  _cleanup_guild_state guild_id ;;
  do (VmDisconnectFromGuild guild_id) ;;
  ret (true, None).

(** [stop_playback(guild_id)] *)
Definition stop_playback (guild_id : Z) : M (bool * option string) :=
  try_except (stop_playback_body guild_id)
    (fun e => ret (false, Some ("Error stopping playback: " +:+ e_msg e))).

(** The body of the [try] of [jump_to_position]. *)
Definition jump_to_position_body (guild_id position : Z)
  : M (bool * option string * option string) :=
  get_queue_manager guild_id ;;
  do (VmStopAudio guild_id) ;;
  _cleanup_current_audio guild_id ;;
  let* song := do (QmJumpToPosition guild_id position) in
  match song with
  | None => ret (false, None, Some ("Invalid queue position: " +:+ PyStr.of_Z position))
  | Some song => ret (true, Some (song_title song), None)
  end.

(** [jump_to_position(guild_id, position)] *)
Definition jump_to_position (guild_id position : Z)
  : M (bool * option string * option string) :=
  try_except (jump_to_position_body guild_id position)
    (fun e => ret (false, None,
                   Some ("Error jumping to position " +:+ PyStr.of_Z position
                         +:+ ": " +:+ e_msg e))).

(** [get_current_playback_position(guild_id)] with the clock read, which
    happens only when a start time is recorded. *)
Definition current_playback_position (guild_id : Z) : M (option Q) :=
  let* p := get_player in
  match _playback_start_times p !! guild_id with
  | None => ret None
  | Some _ =>
      let* now := (do Time : M Q) in
      ret (get_current_playback_position guild_id now p)
  end.

(** [_perform_seek(guild_id, target_seconds, song)] *)
Definition _perform_seek (guild_id : Z) (target_seconds : Q) (song : Song) : M bool :=
  try_except
    (let* p := get_player in
     match _current_audio_files p !! guild_id with
     | None => ret false
     | Some audio_file_path =>
         if PyStr.is_empty audio_file_path then ret false
         else
           do (VmStopAudio guild_id) ;;
           let* audio_source :=
             (do (FFmpegPCMAudio audio_file_path (Some target_seconds)) : M AudioSource) in
           let* now := (do Time : M Q) in
           modify_player (_update_timing_after_seek guild_id target_seconds now) ;;
           (do (VmPlayAudio guild_id audio_source) : M bool)
     end)
    (fun _ => ret false).

(** [x or d] for an optional message. *)
Definition msg_or (x : option string) (d : string) : string :=
  YouTubeClient.str_or x d.

(** The body of the [try] of [seek_to_position]. *)
Definition seek_to_position_body (guild_id : Z) (time_str : string)
  : M (bool * option string) :=
  let* connected := (do (VmIsConnected guild_id) : M bool) in
  if negb connected then ret (false, Some "No active music playback")
  else
    get_queue_manager guild_id ;;
    let* current_song := (do (QmGetCurrentSong guild_id) : M (option Song)) in
    match current_song with
    | None => ret (false, Some "No song currently playing")
    | Some current_song =>
        let* seek_result := lift (SeekManager.parse_seek_time time_str) in
        match SeekManager.success seek_result, SeekManager.target_position seek_result with
        | true, Some target =>
            let* current_position := current_playback_position guild_id in
            let current_position := default 0%Q current_position in
            let* song_duration := lift (PyStr.float_of_int (song_duration current_song)) in
            let is_relative := SeekManager.is_relative_seek time_str in
            let validation_result :=
              SeekManager.validate_seek_position target current_position
                song_duration is_relative in
            match SeekManager.success validation_result,
                  SeekManager.target_position validation_result with
            | true, Some target_position =>
                let* ok := _perform_seek guild_id target_position current_song in
                if negb ok then ret (false, Some "Failed to seek to position")
                else ret (true, None)
            | _, _ =>
                ret (false,
                     Some (msg_or (SeekManager.error_message validation_result)
                             "Invalid seek position"))
            end
        | _, _ =>
            ret (false,
                 Some (msg_or (SeekManager.error_message seek_result)
                         "Failed to parse seek time"))
        end
    end.

(** [seek_to_position(guild_id, time_str)] *)
Definition seek_to_position (guild_id : Z) (time_str : string) : M (bool * option string) :=
  try_except (seek_to_position_body guild_id time_str)
    (fun e => ret (false, Some ("Error seeking to position: " +:+ e_msg e))).

(** [_inactivity_timer_task(guild_id, timeout_seconds)], run as the task
    [timer]. A cancellation requested while the task sleeps is delivered at
    the [await asyncio.sleep]: the task goes to [except CancelledError] and
    then to [finally]. When the coroutine returns the task is done. *)
Definition _inactivity_timer_task (guild_id timeout_seconds : Z) (timer : nat) : M unit :=
  try_finally
    (try_except
       (do (Sleep timeout_seconds) ;;
        let* p := get_player in
        if cancel_requested timer p then ret tt
        else
          let* connected := (do (VmIsConnected guild_id) : M bool) in
          if connected then
            let* playing := (do (VmIsPlaying guild_id) : M bool) in
            if negb playing then
              _cleanup_guild_state guild_id ;;
              do (VmDisconnectFromGuild guild_id)
            else ret tt
          else ret tt)
       (fun _ => ret tt))
    (modify_player (set_inactivity_timers (delete guild_id)) ;;
     modify_player (set_tasks (alter finish_task timer))).

(** How one pass of [while True] in [_playback_loop] ends. *)
Inductive loop_step : Type := Continue | Break.

(** The audio file of a song: downloaded from YouTube, or the validated
    Catbox URL; [None] where the loop logs an error and goes on. *)
Definition song_audio_file (song : Song) : M (option string) :=
  match song_audio_info song with
  | inl unified =>
      if is_youtube unified then
        let* r := YouTubeClient.download_audio (song_url song) in
        match r with
        | (true, Some youtube_audio_info, _) => ret (Some (ai_file_path youtube_audio_info))
        | _ => ret None
        end
      else if is_catbox unified then
        let* r := CatboxClient.validate_audio_file (song_url song) in
        match r with
        | (true, Some catbox_audio_info, _) => ret (Some (cb_file_path catbox_audio_info))
        | _ => ret None
        end
      else ret None
  | inr _ =>
      let* r := YouTubeClient.download_audio (song_url song) in
      match r with
      | (true, Some youtube_audio_info, _) => ret (Some (ai_file_path youtube_audio_info))
      | _ => ret None
      end
  end.

(** One pass of the [while True] of [_playback_loop]. *)
Definition playback_loop_pass (guild_id : Z) : M loop_step :=
  let* song := (do (QmGetNextSong guild_id) : M (option Song)) in
  match song with
  | None => modify_player (_start_inactivity_timer guild_id) ;; ret Break
  | Some song =>
      let* audio_file_path := song_audio_file song in
      match audio_file_path with
      | None => ret Continue
      | Some audio_file_path =>
          if PyStr.is_empty audio_file_path then ret Continue
          else
            modify_player (set_current_audio_files (<[guild_id := audio_file_path]>)) ;;
            let* audio_source :=
              (do (FFmpegPCMAudio audio_file_path None) : M AudioSource) in
            let* ok := (do (VmPlayAudio guild_id audio_source) : M bool) in
            if negb ok then _cleanup_current_audio guild_id ;; ret Continue
            else
              let* now := (do Time : M Q) in
              modify_player (_start_playback_timing guild_id now) ;;
              do (PlaybackFinishedWait guild_id) ;;
              modify_player (_stop_playback_timing guild_id) ;;
              _cleanup_current_audio guild_id ;;
              ret Continue
      end
  end.

(** [while True: ...], for at most [fuel] passes; [false] when the passes
    ran out before a [break]. *)
Fixpoint playback_loop_while (fuel : nat) (guild_id : Z) : M bool :=
  match fuel with
  | O => ret false
  | S fuel' =>
      let* step := playback_loop_pass guild_id in
      match step with
      | Break => ret true
      | Continue => playback_loop_while fuel' guild_id
      end
  end.

(** [_playback_loop(guild_id, progress_callback)]: the loop, its two
    handlers, which only log, and the [finally]. *)
Definition _playback_loop (fuel : nat) (guild_id : Z) : M bool :=
  get_queue_manager guild_id ;;
  try_finally
    (try_except (playback_loop_while fuel guild_id) (fun _ => ret true))
    (modify_player (set_playback_tasks (delete guild_id)) ;;
     _cleanup_current_audio guild_id).

End Player.
End MusicPlayer.

(** ** Reading the log *)

Definition calls (l : list event) : list call := map ev_call l.

Definition is_head_request (c : call) : bool :=
  match c with SessionHead _ => true | _ => false end.
Definition is_youtube_ctor (c : call) : bool :=
  match c with YouTubeCtor _ _ => true | _ => false end.

(** The number of HEAD requests and of [YouTube] constructions in a log. *)
Definition head_requests (l : list event) : nat :=
  length (filter (fun c => is_head_request c = true) (calls l)).
Definition youtube_ctors (l : list event) : nat :=
  length (filter (fun c => is_youtube_ctor c = true) (calls l)).

(** ** Environments for the examples *)

(** An answer of the expected type for each call. *)
Definition default_resp (c : call) : resp c :=
  match c return resp c with
  | Time => 0%Q
  | Sleep _ => tt
  | GetSession => tt
  | SessionHead _ => mkHeadResponse 200 None
  | YouTubeCtor _ _ => Some (mkYT 0)
  | StreamsFilterM4aFirst _ => None
  | StreamsGetAudioOnly _ => None
  | YtTitle _ => None
  | YtLength _ => None
  | YtAuthor _ => None
  | YtThumbnailUrl _ => None
  | StreamDownload _ _ _ => None
  | OsPathExists _ => true
  | OsRemove _ => tt
  | FFmpegPCMAudio _ _ => mkAudioSource 0
  | VmIsPlaying _ => false
  | VmIsConnected _ => true
  | VmStopAudio _ => tt
  | VmDisconnectFromGuild _ => tt
  | VmPlayAudio _ _ => true
  | VmConnectToVoiceChannel _ => true
  | QmAddSong _ _ _ => 1
  | QmGetCurrentSong _ => None
  | QmClearQueue _ => 0
  | QmJumpToPosition _ _ => None
  | QmGetNextSong _ => None
  | PlaybackFinishedWait _ => tt
  end.

Fixpoint drop (n : nat) (s : string) : string :=
  match n, s with
  | S n', String _ s' => drop n' s'
  | _, _ => s
  end.

(** A stand-in for [urlparse] that knows the Catbox file host. *)
Definition example_urlparse (url : string) : result ParseResult :=
  if PyStr.startswith "https://files.catbox.moe" url
  then Ret (mkParseResult "files.catbox.moe" (drop 24 url))
  else Ret (mkParseResult EmptyString url).

(** An environment whose answers do not depend on its state, which counts
    the calls made. *)
Definition scripted (answer : forall c : call, result (resp c)) : Environment :=
  {| World := nat;
     oracle := fun c w => (answer c, S w);
     urlparse := example_urlparse;
     notify := fun _ w => w |}.

(** Everything answers. *)
Definition online : Environment := scripted (fun c => Ret (default_resp c)).

(** The network is down: HEAD requests fail with [aiohttp.ClientError], and
    YouTube refuses the client as a bot. *)
Definition offline : Environment :=
  scripted (fun c =>
    match c return result (resp c) with
    | SessionHead _ => Raise (mkExn ClientError "Server disconnected")
    | YouTubeCtor _ _ => Raise (mkExn PytubeFixError "This request was detected as a bot")
    | c => Ret (default_resp c)
    end).

(** The queue manager is broken. *)
Definition broken_queue : Environment :=
  scripted (fun c =>
    match c return result (resp c) with
    | QmGetCurrentSong _ => Raise (mkExn OtherException "queue is gone")
    | c => Ret (default_resp c)
    end).

(** A song is playing. *)
Definition playing : Environment :=
  scripted (fun c =>
    match c return result (resp c) with
    | VmIsPlaying _ => Ret true
    | c => Ret (default_resp c)
    end).

(** A guild, a member of it who sits in a voice channel, a new player, and
    a player with a pending inactivity timer for the guild. *)
Definition guild : Z := 7.
Definition listener : Member := mkMember guild (Some (1, true)).
Definition fresh_player : PlayerState := new_player "./temp" None.
Definition idle_player : PlayerState :=
  MusicPlayer._start_inactivity_timer guild fresh_player.

(** A configuration with the bot-detection fallback switched on. *)
Definition fallback_config : Config :=
  mkConfig false false "WEB" None None true true 300.

(** The state a run starts in, in an environment counting from zero. *)
Definition start_state (E : Environment) (w : @World E) (p : PlayerState) : @state E :=
  mkState w p [].

(** ** One task per guild *)

Definition is_timer (t : task) : bool :=
  match t_kind t with InactivityTimer _ => true | PlaybackLoop => false end.
Definition is_playback (t : task) : bool :=
  match t_kind t with PlaybackLoop => true | InactivityTimer _ => false end.
Definition is_pending (t : task) : bool :=
  match t_state t with Pending => true | _ => false end.

(** A map from guilds to tasks agrees with the task table: each entry is a
    pending task of the map's kind made for that guild, and every pending
    task of that kind is the entry of its guild. *)
Definition registry_ok (kind : task -> bool) (m : gmap Z nat) (ts : list task) : Prop :=
  (forall g i, m !! g = Some i ->
     exists t, ts !! i = Some t /\ t_guild t = g /\ kind t = true /\ is_pending t = true)
  /\ (forall i t, ts !! i = Some t -> kind t = true -> is_pending t = true ->
        m !! t_guild t = Some i).

Definition one_task_per_guild (p : PlayerState) : Prop :=
  registry_ok is_playback (_playback_tasks p) (tasks p)
  /\ registry_ok is_timer (_inactivity_timers p) (tasks p).

(** The entries a map holds for one key. *)
Definition entries_for {A} (g : Z) (m : gmap Z A) : list (Z * A) :=
  filter (fun kv => kv.1 = g) (map_to_list m).

(** The methods of the player that touch the two task maps, with the clock
    value they read. *)
Inductive task_op : Type :=
| StartPlayback (guild_id : Z) (now : Q)
| ResetInactivityTimer (guild_id : Z) (now : Q)
| StartInactivityTimer (guild_id : Z)
| StopInactivityTimer (guild_id : Z)
| CancelPlayback (guild_id : Z).     (* the first statement of _cleanup_guild_state *)

Definition run_task_op (p : PlayerState) (op : task_op) : PlayerState :=
  match op with
  | StartPlayback g now => MusicPlayer._start_playback g now p
  | ResetInactivityTimer g now => MusicPlayer._reset_inactivity_timer g now p
  | StartInactivityTimer g => MusicPlayer._start_inactivity_timer g p
  | StopInactivityTimer g => MusicPlayer._stop_inactivity_timer g p
  | CancelPlayback g => MusicPlayer.cancel_and_remove_playback g p
  end.

Definition run_task_ops (ops : list task_op) (p : PlayerState) : PlayerState :=
  fold_left run_task_op ops p.

(** The pending inactivity timers of a guild in the task table. *)
Definition pending_timers (g : Z) (p : PlayerState) : list nat :=
  List.filter
    (fun i => match tasks p !! i with
              | Some t => is_timer t && is_pending t && (t_guild t =? g)
              | None => false
              end)
    (seq 0 (length (tasks p))).

(** Two timers started one after the other for the guild: the first is
    cancelled, the second is the guild's entry. *)
Definition restarted_player : PlayerState :=
  run_task_ops [StartInactivityTimer guild; StartInactivityTimer guild] fresh_player.

(** ** Notions used in the statements *)

(** *** Strings *)

(** What the nine replacements of [_sanitize_filename] do to a character. *)
Definition replace_invalid_char (a : ascii) : ascii :=
  if existsb (Ascii.eqb a) YouTubeClient.invalid_chars then "_"%char else a.

(** The input of [_sanitize_filename] after the replacements and [strip()]. *)
Definition cleaned (filename : string) : string :=
  PyStr.strip (YouTubeClient.replace_invalid_chars filename).

(** The tests that the seek patterns and [int] make on a character, as
    they come out for a decimal digit. *)
Record digit_like (c : ascii) : Prop := {
  dl_digit : PyStr.isdigit c = true;
  dl_space : PyStr.isspace c = false;
  dl_colon : Ascii.eqb ":" c = false;
  dl_plus : Ascii.eqb c "+" = false;
  dl_minus : Ascii.eqb c "-" = false;
  dl_under : Ascii.eqb c "_" = false
}.

Definition str2 (a b : ascii) : string := String a (String b EmptyString).

Fixpoint zeros (n : nat) : string :=
  match n with O => EmptyString | S n' => String "0" (zeros n') end.

(** A decimal literal that [int] accepts and [float] does not: a one and
    four hundred zeros. *)
Definition ten_pow_400 : string := String "1" (zeros 400).

(** *** Seeking *)

(** The position [validate_seek_position] checks against the bounds. *)
Definition absolute_position (target_seconds current_position : Q) (is_relative : bool) : Q :=
  if is_relative then (current_position + target_seconds)%Q else target_seconds.

(** *** Logs *)

(** The log of a HEAD probe whose three attempts all fail. *)
Definition three_failed_attempts (url : string) (e1 e2 e3 : exn) : list event :=
  [ mkEvent GetSession None;
    mkEvent (SessionHead url) (Some e1); mkEvent (Sleep 1) None;
    mkEvent (SessionHead url) (Some e2); mkEvent (Sleep 2) None;
    mkEvent (SessionHead url) (Some e3) ].

(** The calls of a HEAD probe whose three attempts are all made. *)
Definition probe_calls (url : string) : list call :=
  [ GetSession; SessionHead url; Sleep 1; SessionHead url; Sleep 2; SessionHead url ].

(** The constructions [_create_youtube_object] can make, in order. *)
Definition fallback_calls (cfg : option Config) (url : string) (cb : bool) : list call :=
  [ YouTubeCtor url (YouTubeClient.with_callback cb (YouTubeClient._get_youtube_kwargs cfg 0));
    YouTubeCtor url (YouTubeClient.with_callback cb (YouTubeClient._get_youtube_kwargs cfg 1));
    YouTubeCtor url (YouTubeClient.with_callback cb (YouTubeClient._get_youtube_kwargs cfg 2)) ].

Definition is_file_call (c : call) : bool :=
  match c with OsPathExists _ | OsRemove _ => true | _ => false end.

(** The files removed, and the guilds disconnected from, by the calls of a log. *)
Definition removed_files (l : list event) : list string :=
  omap (fun e => match ev_call e with OsRemove p => Some p | _ => None end) l.
Definition disconnects (l : list event) : list Z :=
  omap (fun e => match ev_call e with VmDisconnectFromGuild g => Some g | _ => None end) l.

(** *** The player's fields *)

(** What [_cleanup_guild_state] does to the player's fields. *)
Definition cleaned_up (guild_id : Z) (p : PlayerState) : PlayerState :=
  set_last_activity_times (delete guild_id)
    (MusicPlayer._stop_inactivity_timer guild_id
       (MusicPlayer._stop_playback_timing guild_id
          (set_current_audio_files (delete guild_id)
             (MusicPlayer.cancel_and_remove_playback guild_id p)))).

(** No inactivity timer is entered for the guild. *)
Definition no_timer (guild_id : Z) (p : PlayerState) : Prop :=
  _inactivity_timers p !! guild_id = None.

(** The task has a cancellation request. *)
Definition cancelled (i : nat) (p : PlayerState) : Prop :=
  MusicPlayer.cancel_requested i p = true.

(** The timer entered for the guild in [p], if it is pending there, has a
    cancellation request in [p'], and [p'] has no timer entered for the
    guild. *)
Definition timer_cancelled_and_removed (guild_id : Z) (p p' : PlayerState) : Prop :=
  no_timer guild_id p'
  /\ forall (i : nat) (t : task),
       _inactivity_timers p !! guild_id = Some i ->
       tasks p !! i = Some t -> is_pending t = true ->
       cancelled i p'.

(** *** Runs *)
Section Specs.
Context `{Environment}.

(** [m] keeps the property [I] of the player's fields, however it ends. *)
Definition keeps {A} (I : PlayerState -> Prop) (m : M A) : Prop :=
  forall s, I (player s) -> I (player (m s).2).

(** [m] never raises. *)
Definition never_raises {A} (m : M A) : Prop :=
  forall s, exists a s', m s = (Ret a, s').

(** Every value [m] returns satisfies [Q]. *)
Definition returns {A} (m : M A) (Q : A -> Prop) : Prop :=
  forall s a s', m s = (Ret a, s') -> Q a.

(** A result [(success, value, message)] or [(success, message)] with
    [success = False] has a message, and no value. *)
Definition failure3 {A} (r : bool * option A * option string) : Prop :=
  r.1.1 = false -> r.1.2 = None /\ is_Some r.2.
Definition failure2 (r : bool * option string) : Prop :=
  r.1 = false -> is_Some r.2.

(** [op], whose [try] block is [body], reports every failure in its
    result: it never raises, a result with [success = False] carries a
    message, and whenever a step of [body] raises, so that [body] raises,
    the result is such a failure. *)
Definition reports3 {A} (op body : M (bool * option A * option string)) : Prop :=
  never_raises op
  /\ returns op failure3
  /\ (forall s e s', body s = (Raise e, s') ->
        exists msg s'', op s = (Ret (false, None, Some msg), s'')).
Definition reports2 (op body : M (bool * option string)) : Prop :=
  never_raises op
  /\ returns op failure2
  /\ (forall s e s', body s = (Raise e, s') ->
        exists msg s'', op s = (Ret (false, Some msg), s'')).

End Specs.

(** ** Further notions used in the statements *)

(** *** Seek results *)

(** A seek result is a success with a position and no message, or a
    failure with a message and no position. *)
Definition well_formed (r : SeekManager.SeekResult) : Prop :=
  (SeekManager.success r = true /\ is_Some (SeekManager.target_position r)
   /\ SeekManager.error_message r = None)
  \/ (SeekManager.success r = false /\ SeekManager.target_position r = None
      /\ is_Some (SeekManager.error_message r)).

(** What a call of [parse_seek_time] can end in: a well-formed result, or an
    [OverflowError]. *)
Definition outcome_ok (o : result SeekManager.SeekResult) : Prop :=
  match o with Ret r => well_formed r | Raise e => e_class e = OverflowError end.

(** The string starts with a sign. *)
Definition signed (s : string) : bool :=
  PyStr.startswith "+" s || PyStr.startswith "-" s.

(** No captured group is longer than [n] characters. *)
Definition groups_bounded (n : nat) (g : Re.groups) : Prop :=
  forall i x, g !! i = Some (Some x) -> (String.length x <= n)%nat.

(** *** Sizes and paths *)

(** A number of tenths, written with one decimal. *)
Definition tenths (d : Z) : string :=
  PyStr.of_Z (d / 10) +:+ "." +:+ PyStr.of_Z (d mod 10).

(** [d] tenths is [q] rounded to one decimal. *)
Definition nearest_tenth (q : Q) (d : Z) : Prop :=
  (inject_Z d - (1 # 2) <= q * 10 /\ q * 10 <= inject_Z d + (1 # 2))%Q.

(** [os.path.basename(path)] for a path with [/] separators. *)
Definition basename (path : string) : string := last_field "/" EmptyString path.

(** *** Playback timing *)

(** The position read at [now] is the number [x], up to equality of rationals. *)
Definition position_is (guild_id : Z) (now : Q) (p : PlayerState) (x : Q) : Prop :=
  exists y, MusicPlayer.get_current_playback_position guild_id now p = Some y /\ (y == x)%Q.

(** The three timing fields of a guild. *)
Definition timing_of (guild_id : Z) (p : PlayerState) : option Q * option Q * option Q :=
  (_playback_start_times p !! guild_id, _total_paused_duration p !! guild_id,
   _playback_paused_times p !! guild_id).

(** *** What the player holds for a guild *)

(** What the player holds for one guild: whether it has a queue manager,
    its playback task, audio file, timing, timer and last activity time. *)
Definition guild_view (guild_id : Z) (p : PlayerState)
  : bool * option nat * option string * (option Q * option Q * option Q)
    * option nat * option Q :=
  (bool_decide (guild_id ∈ _queue_managers p), _playback_tasks p !! guild_id,
   _current_audio_files p !! guild_id, timing_of guild_id p,
   _inactivity_timers p !! guild_id, _last_activity_times p !! guild_id).

(** The guild's view once [_cleanup_guild_state] has run: the queue manager
    stays, everything else is gone. *)
Definition cleared_view (has_queue : bool)
  : bool * option nat * option string * (option Q * option Q * option Q)
    * option nat * option Q :=
  (has_queue, None, None, (None, None, None), None, None).

(** Task [i] is entered for the guild, as its playback task or as its timer. *)
Definition registered_for (guild_id : Z) (p : PlayerState) (i : nat) : Prop :=
  _playback_tasks p !! guild_id = Some i \/ _inactivity_timers p !! guild_id = Some i.

(** Task [i] is no longer pending. *)
Definition not_pending (i : nat) (p : PlayerState) : Prop :=
  forall t, tasks p !! i = Some t -> is_pending t = false.

(** Task [i] is done. *)
Definition task_done (i : nat) (p : PlayerState) : Prop :=
  forall t, tasks p !! i = Some t -> t_state t = Done.

(** The guild's inactivity timer is armed: the timer entered for the guild
    is a pending timer task of the guild, set to the configured timeout. *)
Definition timer_armed (guild_id : Z) (p : PlayerState) : Prop :=
  exists i,
    _inactivity_timers p !! guild_id = Some i
    /\ tasks p !! i
       = Some (mkTask guild_id (InactivityTimer (MusicPlayer._get_auto_disconnect_timeout p))
                 Pending).

(** The tasks of every guild but [guild_id] are in [p'] as they are in [p]. *)
Definition other_tasks_kept (guild_id : Z) (p p' : PlayerState) : Prop :=
  forall i t, tasks p !! i = Some t -> t_guild t <> guild_id -> tasks p' !! i = Some t.

(** *** Calls *)

(** The calls of a HEAD probe of [url]. *)
Definition is_probe_call (url : string) (c : call) : Prop :=
  match c with
  | GetSession | Sleep _ => True
  | SessionHead u => u = url
  | _ => False
  end.

(** The calls that construct a [YouTube] object for [url] and read its
    metadata. *)
Definition is_metadata_call (url : string) (c : call) : Prop :=
  match c with
  | YouTubeCtor u _ => u = url
  | StreamsGetAudioOnly _ | YtTitle _ | YtLength _ | YtAuthor _ | YtThumbnailUrl _ => True
  | _ => False
  end.

(** A client call: one that [is_probe_call] or [is_metadata_call] allows. *)
Definition is_client_call (url : string) (c : call) : Prop :=
  is_probe_call url c \/ is_metadata_call url c.

(** The guild a call to the voice manager or to a queue manager is about. *)
Definition call_guild (c : call) : option Z :=
  match c with
  | VmIsPlaying g | VmIsConnected g | VmStopAudio g | VmDisconnectFromGuild g
  | VmPlayAudio g _ | QmAddSong g _ _ | QmGetCurrentSong g | QmClearQueue g
  | QmJumpToPosition g _ | QmGetNextSong g | PlaybackFinishedWait g => Some g
  | _ => None
  end.

(** A call about a guild is about [guild_id]. *)
Definition about_guild (guild_id : Z) (c : call) : Prop :=
  forall g, call_guild c = Some g -> g = guild_id.

(** A call to neither the voice manager nor a queue. *)
Definition no_guild (c : call) : Prop := call_guild c = None.

(** The calls of a seek in a guild: questions to the voice manager and to
    the queue, the clock, and the restart of the audio at a position. *)
Definition is_seek_call (guild_id : Z) (c : call) : Prop :=
  match c with
  | VmIsConnected g | QmGetCurrentSong g | VmStopAudio g | VmPlayAudio g _ => g = guild_id
  | Time | FFmpegPCMAudio _ (Some _) => True
  | _ => False
  end.

(** The calls that look at, or remove, a file. *)
Definition file_calls (cs : list call) : Prop :=
  Forall (fun c => is_file_call c = true) cs.

(** The downloads of a log: the directory and the file name of each. *)
Definition downloads (l : list event) : list (string * string) :=
  omap (fun e => match ev_call e with
                 | StreamDownload _ out fn => Some (out, fn)
                 | _ => None
                 end) l.

(** The songs added to queues by the calls of a log. *)
Definition added_songs (l : list event) : list (Z * UnifiedAudioInfo * Member) :=
  omap (fun e => match ev_call e with
                 | QmAddSong g info requester => Some (g, info, requester)
                 | _ => None
                 end) l.

(** The file a call starts to play from its beginning, and the files so
    started by the calls of a log. *)
Definition started_file (c : call) : option string :=
  match c with FFmpegPCMAudio path None => Some path | _ => None end.
Definition started_files (l : list event) : list string :=
  omap (fun e => started_file (ev_call e)) l.

(** *** Results of the clients *)

(** Whether [_create_youtube_object] tries again after the exception [e]. *)
Definition retries_after (cfg : option Config) (e : exn) : bool :=
  exc_class_eqb (e_class e) PytubeFixError
  && YouTubeClient._is_bot_detection_error (e_msg e)
  && YouTubeClient.fallback_enabled cfg.

(** The result of [download_audio] reports a success. *)
Definition succeeded {A B} (r : result (bool * A * B)) : Prop :=
  match r with Ret (true, _, _) => True | _ => False end.

(** A file name [safe.ext] whose part before the extension is not empty, has
    at most 100 characters and none of the characters [_sanitize_filename]
    replaces. *)
Definition safe_name (fn : string) : Prop :=
  exists safe ext,
    fn = safe +:+ "." +:+ ext
    /\ PyStr.is_empty safe = false
    /\ (String.length safe <= 100)%nat
    /\ forall c, In c YouTubeClient.invalid_chars -> PyStr.contains c safe = false.

(** What the YouTube client returns about [url]: metadata before the
    download, with no file yet, and the downloaded file after it. *)
Definition youtube_info_of (url : string) (downloaded : bool) (info : AudioInfo) : Prop :=
  ai_url info = url
  /\ PyStr.is_empty (ai_file_path info) = negb downloaded
  /\ PyStr.is_empty (ai_title info) = false
  /\ PyStr.is_empty (ai_uploader info) = false.

(** *** Further notions on runs *)

Section MoreSpecs.
Context `{Environment}.

(** What [CatboxClient.extract_audio_info] returns for [url]. *)
Definition catbox_info_of (url : string) (info : CatboxAudioInfo) : Prop :=
  cb_url info = url /\ cb_file_path info = url
  /\ cb_duration info = 0 /\ cb_uploader info = "Catbox"
  /\ cb_title info = CatboxClient._extract_filename_from_url url
  /\ cb_file_format info = CatboxClient._get_file_format_from_url url
  /\ cb_thumbnail_url info = None.

(** The unified information is what the client for the URL's source
    returns about the URL. *)
Definition info_of (url : string) (info : UnifiedAudioInfo) : Prop :=
  match info with
  | from_youtube_info i =>
      YouTubeClient.is_youtube_url url = true /\ youtube_info_of url false i
  | from_catbox_info i =>
      YouTubeClient.is_youtube_url url = false
      /\ CatboxClient.is_catbox_url url = true /\ catbox_info_of url i
  end.

(** The calls [m] makes all satisfy [P]. *)
Definition only_calls {A} (P : call -> Prop) (m : M A) : Prop :=
  forall s, exists new,
    log (m s).2 = log s ++ new /\ Forall (fun e => P (ev_call e)) new.

(** [m] leaves what the player holds for the guild as it was. *)
Definition leaves_guild {A} (guild_id : Z) (m : M A) : Prop :=
  forall s, guild_view guild_id (player (m s).2) = guild_view guild_id (player s).

(** With the task maps in step with the task table, [m] leaves the tasks
    of every guild but [guild_id] as they are. *)
Definition keeps_other_tasks {A} (guild_id : Z) (m : M A) : Prop :=
  forall s, one_task_per_guild (player s) ->
            other_tasks_kept guild_id (player s) (player (m s).2).

(** [m], run for [guild_id], keeps to it: the calls it makes to the voice
    manager and to the queues are about that guild, and what the player
    holds for any other guild, tasks included, stays as it is. *)
Definition keeps_to_guild {A} (guild_id : Z) (m : M A) : Prop :=
  only_calls (about_guild guild_id) m
  /\ (forall other, other <> guild_id -> leaves_guild other m)
  /\ keeps_other_tasks guild_id m.

(** The states the [while] of the playback loop is in at the start of a
    pass, from the state it is entered in: each pass before returned and
    went on. *)
Inductive loop_reaches (guild_id : Z) : state -> state -> Prop :=
| loop_reaches_start s : loop_reaches guild_id s s
| loop_reaches_pass s s1 s2 :
    MusicPlayer.playback_loop_pass guild_id s = (Ret MusicPlayer.Continue, s1) ->
    loop_reaches guild_id s1 s2 ->
    loop_reaches guild_id s s2.

End MoreSpecs.

(** ** Further environments for the examples *)

(** A song downloaded from YouTube. *)
Definition current_song : Song :=
  mkSong "Song" 200 "https://youtu.be/abc"
    (inr (mkAudioInfo "Song" 200 "./temp/Song.m4a" "https://youtu.be/abc" "Uploader" None)).

(** An environment in which that song is current in every queue. *)
Definition listening : Environment :=
  scripted (fun c =>
    match c return result (resp c) with
    | QmGetCurrentSong _ => Ret (Some current_song)
    | c => Ret (default_resp c)
    end).

(** A player that has the file of that song entered for the guild. *)
Definition loaded_player : PlayerState :=
  set_current_audio_files (<[guild := "./temp/Song.m4a"]>) fresh_player.

(** Another guild, and the player above with an inactivity timer pending
    for it. *)
Definition neighbour : Z := 8.

Definition shared_player : PlayerState :=
  MusicPlayer._start_inactivity_timer neighbour loaded_player.

(** A song streamed from Catbox. *)
Definition catbox_song : Song :=
  mkSong "Catbox - a" 0 "https://files.catbox.moe/a.ogg"
    (inl (from_catbox_info
            (mkCatboxAudioInfo "Catbox - a" 0 "https://files.catbox.moe/a.ogg"
               "https://files.catbox.moe/a.ogg" "Catbox" None (Some "ogg") None))).

(** The queue always has the Catbox song next. *)
Definition queued : Environment :=
  scripted (fun c =>
    match c return result (resp c) with
    | QmGetNextSong _ => Ret (Some catbox_song)
    | c => Ret (default_resp c)
    end).

(** A song is current, the disk refuses to remove files, and the voice
    connection cannot be made. *)
Definition faulty : Environment :=
  scripted (fun c =>
    match c return result (resp c) with
    | QmGetCurrentSong _ => Ret (Some current_song)
    | OsRemove _ => Raise (mkExn OtherException "Permission denied")
    | VmConnectToVoiceChannel _ => Raise (mkExn OtherException "Timed out")
    | c => Ret (default_resp c)
    end).

(** * Properties *)

(** ** Tactics for runs *)

(** Case analysis on the answer of the next call. *)
Ltac next_call :=
  match goal with
  | |- context [oracle ?c ?w] =>
      let r := fresh "r" in let w' := fresh "w" in let E := fresh "E" in
      destruct (oracle c w) as [r w'] eqn:E; destruct r; cbn
  end.

Ltac next_test :=
  match goal with
  | |- context [if ?b then _ else _] => destruct b eqn:?; cbn
  end.

Ltac unfold_run :=
  unfold try_except, try_except_class, try_finally, bind, do, ret, raise, lift,
    tell, get_player, modify_player.

Lemma exc_class_eqb_eq a b : exc_class_eqb a b = true -> a = b.
Proof. destruct a, b; cbn; congruence. Qed.

(** ** [_sanitize_filename] *)
Section SanitizeFacts.
Import YouTubeClient.

Section Replacements.
Local Arguments Ascii.eqb : simpl never.

Lemma replace_invalid_chars_cons a s :
  replace_invalid_chars (String a s)
  = String (replace_invalid_char a) (replace_invalid_chars s).
Proof.
  unfold replace_invalid_chars, replace_invalid_char. cbn.
  f_equal.
  repeat match goal with
         | |- context [Ascii.eqb a ?c] =>
             destruct (Ascii.eqb a c) eqn:?;
             [ match goal with E : Ascii.eqb a c = true |- _ =>
                 apply Ascii.eqb_eq in E; subst a; reflexivity end | cbn ]
         end.
  reflexivity.
Qed.

End Replacements.

Lemma replace_invalid_char_valid a c :
  In c invalid_chars -> Ascii.eqb (replace_invalid_char a) c = false.
Proof.
  intros Hc. unfold replace_invalid_char.
  destruct (existsb (Ascii.eqb a) invalid_chars) eqn:E.
  - cbn in Hc. intuition (subst; reflexivity).
  - apply Ascii.eqb_neq. intros ->.
    assert (existsb (Ascii.eqb c) invalid_chars = true); [|congruence].
    apply existsb_exists. exists c. split; [assumption|apply Ascii.eqb_refl].
Qed.

Lemma replace_invalid_chars_clean s c :
  In c invalid_chars -> PyStr.contains c (replace_invalid_chars s) = false.
Proof.
  intros Hc. induction s as [|a s IH].
  - reflexivity.
  - rewrite replace_invalid_chars_cons. cbn.
    rewrite replace_invalid_char_valid by assumption. exact IH.
Qed.

Lemma contains_lstrip c s :
  PyStr.contains c s = false -> PyStr.contains c (PyStr.lstrip s) = false.
Proof.
  induction s as [|a s IH]; cbn; [easy|].
  intros Hs. apply orb_false_iff in Hs as [Ha Hs].
  destruct (PyStr.isspace a); [auto|]. cbn. now rewrite Ha, Hs.
Qed.

Lemma contains_rstrip c s :
  PyStr.contains c s = false -> PyStr.contains c (PyStr.rstrip s) = false.
Proof.
  induction s as [|a s IH]; cbn; [easy|].
  intros Hs. apply orb_false_iff in Hs as [Ha Hs].
  destruct (PyStr.is_empty (PyStr.rstrip s) && PyStr.isspace a); [reflexivity|].
  cbn. rewrite Ha. auto.
Qed.

Lemma contains_take c n s :
  PyStr.contains c s = false -> PyStr.contains c (PyStr.take n s) = false.
Proof.
  revert s. induction n as [|n IH]; intros [|a s] Hs; cbn in *; auto.
  apply orb_false_iff in Hs as [Ha Hs]. rewrite Ha. cbn. auto.
Qed.

Lemma length_take n s : (String.length (PyStr.take n s) <= n)%nat.
Proof.
  revert s. induction n as [|n IH]; intros [|a s]; cbn; try lia.
  specialize (IH s). lia.
Qed.

Lemma take_empty n s : (0 < n)%nat -> PyStr.is_empty (PyStr.take n s) = PyStr.is_empty s.
Proof. destruct n, s; cbn; try reflexivity; lia. Qed.

(** C10, as amended. For every input the result of [_sanitize_filename]
    is not empty, has at most 100 characters and none of the nine
    characters of [invalid_chars]; it is ["audio"] when the input, after the
    replacements and [strip()], is empty, and the first 100 characters of
    that cleaned input otherwise. *)
Theorem sanitize_filename_safe (filename : string) :
  let r := _sanitize_filename filename in
  PyStr.is_empty r = false
  /\ (String.length r <= 100)%nat
  /\ Forall (fun c => PyStr.contains c r = false) invalid_chars
  /\ r = if PyStr.is_empty (cleaned filename) then "audio"
         else PyStr.take 100 (cleaned filename).
Proof.
  cbv zeta. unfold _sanitize_filename. fold (cleaned filename).
  rewrite take_empty by lia.
  destruct (PyStr.is_empty (cleaned filename)) eqn:E.
  - repeat split; try reflexivity.
    + cbn. lia.
    + repeat constructor.
  - repeat split.
    + rewrite take_empty by lia. exact E.
    + apply length_take.
    + apply Forall_forall. intros c Hc. apply list_elem_of_In in Hc.
      apply contains_take, contains_rstrip, contains_lstrip,
        replace_invalid_chars_clean, Hc.
Qed.

(** C10, as stated, fails: the result is also ["audio"] for the input
    ["audio"], whose cleaned form is not empty. *)
Lemma sanitize_filename_audio_not_only_empty :
  _sanitize_filename "audio" = "audio" /\ cleaned "audio" <> EmptyString.
Proof. split; [reflexivity|discriminate]. Qed.

End SanitizeFacts.

(** ** [SeekManager]: parsing and formatting *)
Section SeekFacts.
Import PyStr Re SeekManager.

Lemma isdigit_digit_like c : isdigit c = true -> digit_like c.
Proof.
  destruct c as [[] [] [] [] [] [] [] []]; intros Hd;
    try discriminate Hd; split; reflexivity.
Qed.

Lemma digit_char_facts d :
  0 <= d < 10 -> isdigit (digit_char d) = true /\ digit_value (digit_char d) = d.
Proof.
  intros Hd.
  assert (d = 0 \/ d = 1 \/ d = 2 \/ d = 3 \/ d = 4 \/ d = 5 \/ d = 6 \/ d = 7
          \/ d = 8 \/ d = 9) as Hc by lia.
  repeat destruct Hc as [-> | Hc]; try subst d; split; reflexivity.
Qed.

Lemma pad2_digits n :
  0 <= n < 100 -> pad2 n = str2 (digit_char (n / 10)) (digit_char (n mod 10)).
Proof.
  intros Hn.
  assert (Hall : List.forallb (fun k =>
            String.eqb (pad2 (Z.of_nat k))
              (str2 (digit_char (Z.of_nat k / 10)) (digit_char (Z.of_nat k mod 10))))
            (seq 0 100) = true) by (vm_compute; reflexivity).
  rewrite forallb_forall in Hall.
  specialize (Hall (Z.to_nat n)).
  rewrite Z2Nat.id in Hall by lia.
  apply String.eqb_eq, Hall, in_seq. lia.
Qed.

Lemma pad2_str2 n :
  0 <= n < 100 ->
  exists c1 c2, pad2 n = str2 c1 c2 /\ digit_like c1 /\ digit_like c2
                /\ 10 * digit_value c1 + digit_value c2 = n.
Proof.
  intros Hn. exists (digit_char (n / 10)), (digit_char (n mod 10)).
  pose proof (Z.div_mod n 10 ltac:(lia)) as Hdm.
  pose proof (Z.mod_pos_bound n 10 ltac:(lia)) as Hmod.
  assert (0 <= n / 10 < 10) as Hdiv
    by (split; [apply Z.div_pos; lia | apply Z.div_lt_upper_bound; lia]).
  destruct (digit_char_facts (n / 10)) as [Ha Hb]; [lia|].
  destruct (digit_char_facts (n mod 10)) as [Hc Hd]; [lia|].
  split; [now apply pad2_digits|].
  split; [apply isdigit_digit_like, Ha|].
  split; [apply isdigit_digit_like, Hc|].
  rewrite Hb, Hd. lia.
Qed.

Local Arguments isdigit : simpl never.
Local Arguments isspace : simpl never.
Local Arguments Ascii.eqb : simpl never.
Local Arguments digit_value : simpl never.
Local Arguments Z.mul : simpl never.
Local Arguments Z.add : simpl never.

Ltac use_digit H :=
  rewrite ?(dl_digit _ H), ?(dl_space _ H), ?(dl_colon _ H), ?(dl_plus _ H),
    ?(dl_minus _ H), ?(dl_under _ H).

Lemma int_two_digits c1 c2 :
  digit_like c1 -> digit_like c2 ->
  int (str2 c1 c2) = Ret (10 * digit_value c1 + digit_value c2).
Proof.
  intros H1 H2. unfold int, strip, str2.
  repeat (cbn; use_digit H1; use_digit H2).
  reflexivity.
Qed.

(** A string [hh:mm:ss] of six digits matches the absolute pattern, with
    its three fields as the groups. *)
Lemma parse_seek_time_hms c1 c2 c3 c4 c5 c6 :
  digit_like c1 -> digit_like c2 -> digit_like c3 ->
  digit_like c4 -> digit_like c5 -> digit_like c6 ->
  parse_seek_time (str2 c1 c2 +:+ ":" +:+ str2 c3 c4 +:+ ":" +:+ str2 c5 c6)
  = _parse_time_components None (Some (str2 c1 c2)) (str2 c3 c4) (str2 c5 c6) false.
Proof.
  intros H1 H2 H3 H4 H5 H6.
  change (str2 c1 c2 +:+ ":" +:+ str2 c3 c4 +:+ ":" +:+ str2 c5 c6)
    with (String c1 (String c2 (String ":" (String c3 (String c4
            (String ":" (String c5 (String c6 EmptyString)))))))).
  unfold parse_seek_time, strip, pmatch, str2.
  repeat (cbn; use_digit H1; use_digit H2; use_digit H3; use_digit H4;
          use_digit H5; use_digit H6; rewrite ?Ascii.eqb_refl).
  reflexivity.
Qed.

(** A string [mm:ss] of four digits matches it after backtracking out of
    the optional hours. *)
Lemma parse_seek_time_ms c1 c2 c3 c4 :
  digit_like c1 -> digit_like c2 -> digit_like c3 -> digit_like c4 ->
  parse_seek_time (str2 c1 c2 +:+ ":" +:+ str2 c3 c4)
  = _parse_time_components None None (str2 c1 c2) (str2 c3 c4) false.
Proof.
  intros H1 H2 H3 H4.
  change (str2 c1 c2 +:+ ":" +:+ str2 c3 c4)
    with (String c1 (String c2 (String ":" (String c3 (String c4 EmptyString))))).
  unfold parse_seek_time, strip, pmatch, str2.
  repeat (cbn; use_digit H1; use_digit H2; use_digit H3; use_digit H4;
          rewrite ?Ascii.eqb_refl).
  reflexivity.
Qed.

Lemma float_of_int_small n :
  Z.abs n < 2 ^ 1024 - 2 ^ 970 -> float_of_int n = Ret (inject_Z n).
Proof. intros Hn. unfold float_of_int. apply Z.ltb_lt in Hn. now rewrite Hn. Qed.

Lemma parse_time_components_absolute hours c1 c2 c3 c4 h m s :
  (if truthy hours then int (str_or_empty hours) else Ret 0) = Ret h ->
  digit_like c1 -> digit_like c2 -> digit_like c3 -> digit_like c4 ->
  10 * digit_value c1 + digit_value c2 = m ->
  10 * digit_value c3 + digit_value c4 = s ->
  0 <= h < 100 -> 0 <= m < 60 -> 0 <= s < 60 ->
  _parse_time_components None hours (str2 c1 c2) (str2 c3 c4) false
  = Ret (mkSeekResult true (Some (inject_Z (h * 3600 + m * 60 + s))) None).
Proof.
  intros Hh H1 H2 H3 H4 Hm Hs Bh Bm Bs.
  unfold _parse_time_components. rewrite Hh.
  rewrite !int_two_digits by assumption. rewrite Hm, Hs.
  cbn [SeekManager.bind catch_ValueError].
  replace (60 <=? m) with false by (symmetry; apply Z.leb_gt; lia).
  replace (60 <=? s) with false by (symmetry; apply Z.leb_gt; lia).
  replace (h <? 0) with false by (symmetry; apply Z.ltb_ge; lia).
  replace (m <? 0) with false by (symmetry; apply Z.ltb_ge; lia).
  replace (s <? 0) with false by (symmetry; apply Z.ltb_ge; lia).
  cbn [orb andb].
  rewrite float_of_int_small; [reflexivity|].
  assert (2 ^ 20 < 2 ^ 1024 - 2 ^ 970) by (vm_compute; reflexivity).
  assert (2 ^ 20 = 1048576) by reflexivity.
  lia.
Qed.

(** [format_time] on a non-negative whole number of seconds. *)
Lemma format_time_of_int (n : Z) :
  0 <= n ->
  format_time (inject_Z n)
  = if 0 <? n / 3600
    then pad2 (n / 3600) +:+ ":" +:+ pad2 (n mod 3600 / 60) +:+ ":" +:+ pad2 (n mod 60)
    else pad2 (n mod 3600 / 60) +:+ ":" +:+ pad2 (n mod 60).
Proof.
  intros Hn. unfold format_time.
  destruct (Qlt_le_dec (inject_Z n) 0) as [Hneg|_].
  { exfalso. change 0%Q with (inject_Z 0) in Hneg. rewrite <- Zlt_Qlt in Hneg. lia. }
  unfold format_time_nonneg.
  assert (E1 : Qfloor (inject_Z n / 3600) = n / 3600).
  { change 3600%Q with (inject_Z 3600). now rewrite <- Zdiv_Qdiv. }
  assert (Qsub : forall a b : Z, (inject_Z a - inject_Z b == inject_Z (a - b))%Q).
  { intros a b. unfold Z.sub. rewrite inject_Z_plus, inject_Z_opp. reflexivity. }
  assert (E2 : Qfloor ((inject_Z n - 3600 * inject_Z (n / 3600)) / 60) = n mod 3600 / 60).
  { transitivity (Qfloor (inject_Z (n mod 3600) / inject_Z 60)).
    - apply Qfloor_comp. apply Qdiv_comp; [|reflexivity].
      rewrite Z.mod_eq by lia. rewrite <- Qsub, inject_Z_mult. reflexivity.
    - symmetry. apply Zdiv_Qdiv. }
  assert (E3 : Qfloor (inject_Z n - 60 * inject_Z (Qfloor (inject_Z n / 60))) = n mod 60).
  { transitivity (Qfloor (inject_Z (n mod 60))).
    - apply Qfloor_comp. rewrite Z.mod_eq by lia. rewrite <- Qsub, inject_Z_mult.
      change 60%Q with (inject_Z 60). rewrite <- Zdiv_Qdiv. reflexivity.
    - apply Qfloor_Z. }
  rewrite E1, E2, E3. reflexivity.
Qed.

(** The first half of C8: formatting a whole number of seconds below 100
    hours and parsing the result gives the number back. *)
Lemma parse_format_roundtrip (n : Z) :
  0 <= n < 360000 ->
  parse_seek_time (format_time (inject_Z n))
  = Ret (mkSeekResult true (Some (inject_Z n)) None).
Proof.
  intros Hn. rewrite format_time_of_int by lia.
  set (h := n / 3600). set (m := n mod 3600 / 60). set (s := n mod 60).
  assert (Hh : 0 <= h < 100)
    by (unfold h; split; [apply Z.div_pos; lia | apply Z.div_lt_upper_bound; lia]).
  assert (Hm : 0 <= m < 60).
  { unfold m. pose proof (Z.mod_pos_bound n 3600 ltac:(lia)).
    split; [apply Z.div_pos; lia | apply Z.div_lt_upper_bound; lia]. }
  assert (Hs : 0 <= s < 60) by (unfold s; apply Z.mod_pos_bound; lia).
  assert (Hsum : h * 3600 + m * 60 + s = n).
  { unfold h, m, s. pose proof (Z.div_mod n 3600 ltac:(lia)).
    pose proof (Z.div_mod (n mod 3600) 60 ltac:(lia)).
    pose proof (Z.mod_pos_bound (n mod 3600) 60 ltac:(lia)).
    pose proof (Z.div_mod n 60 ltac:(lia)).
    pose proof (Z.mod_pos_bound n 60 ltac:(lia)).
    lia. }
  destruct (pad2_str2 m) as (c3 & c4 & E34 & D3 & D4 & V34); [lia|].
  destruct (pad2_str2 s) as (c5 & c6 & E56 & D5 & D6 & V56); [lia|].
  rewrite E34, E56.
  destruct (0 <? h) eqn:Hpos.
  - destruct (pad2_str2 h) as (c1 & c2 & E12 & D1 & D2 & V12); [lia|].
    rewrite E12, parse_seek_time_hms by assumption.
    rewrite (parse_time_components_absolute _ c3 c4 c5 c6 h m s); auto.
    + now rewrite Hsum.
    + change (int (str2 c1 c2) = Ret h).
      rewrite int_two_digits by assumption. now rewrite V12.
  - apply Z.ltb_ge in Hpos. assert (h = 0) as Hz by lia.
    rewrite parse_seek_time_ms by assumption.
    rewrite (parse_time_components_absolute _ c3 c4 c5 c6 0 m s); auto; try lia.
    rewrite <- Hsum, Hz. reflexivity.
Qed.

(** C8, where the code departs from it: on a run of 401 digits
    [parse_seek_time] does not return a [SeekResult]; [float] raises
    [OverflowError], which [except ValueError] lets through. *)
Theorem parse_seek_time_overflow :
  parse_seek_time ten_pow_400
  = Raise (mkExn OverflowError "int too large to convert to float").
Proof. vm_compute. reflexivity. Qed.

(** C9. A successful [validate_seek_position] returns the absolute
    position, which lies within the song; a position that is negative or
    beyond the duration gives a failure with a message and no position. *)
Theorem validate_seek_position_bounds
    (target_seconds current_position song_duration : Q) (is_relative : bool) :
  let r := validate_seek_position target_seconds current_position song_duration
             is_relative in
  let a := absolute_position target_seconds current_position is_relative in
  (success r = true ->
     target_position r = Some a /\ (0 <= a)%Q /\ (a <= song_duration)%Q)
  /\ ((a < 0)%Q \/ (song_duration < a)%Q ->
        success r = false /\ target_position r = None /\ is_Some (error_message r)).
Proof.
  cbv zeta. unfold validate_seek_position.
  fold (absolute_position target_seconds current_position is_relative).
  set (a := absolute_position target_seconds current_position is_relative).
  destruct (Qlt_le_dec a 0) as [Hneg|Hpos]; cbn.
  - split; [discriminate|]. intros _. repeat split. eexists; reflexivity.
  - destruct (Qlt_le_dec song_duration a) as [Hbig|Hok]; cbn.
    + split; [discriminate|]. intros _. repeat split. eexists; reflexivity.
    + split; [intros _; repeat split; assumption|].
      intros [Hlt|Hlt]; exfalso.
      * exact (Qlt_not_le _ _ Hlt Hpos).
      * exact (Qlt_not_le _ _ Hlt Hok).
Qed.

(** A relative seek of 30 s from 10 s into a 100 s song is accepted. *)
Lemma validate_seek_position_accepts :
  success (validate_seek_position 30 10 100 true) = true
  /\ target_position (validate_seek_position 30 10 100 true)
     = Some (absolute_position 30 10 true).
Proof.
  split; [reflexivity|].
  apply (validate_seek_position_bounds 30 10 100 true). reflexivity.
Defined.

End SeekFacts.

(** ** Playback timing across a seek *)
Section TimingFacts.
Import MusicPlayer.

Lemma max0_nonneg x : (0 <= x)%Q -> (max0 x == x)%Q.
Proof.
  intros Hx. unfold max0. destruct (Qlt_le_dec 0 x) as [_|Hle]; [reflexivity|].
  apply Qle_antisym; assumption.
Qed.

Lemma position_after_seek guild_id target now later p :
  get_current_playback_position guild_id later
    (_update_timing_after_seek guild_id target now p)
  = Some (max0 (later - (now - target) - 0)).
Proof.
  unfold get_current_playback_position, _update_timing_after_seek. cbn.
  rewrite lookup_insert_eq. cbn. rewrite lookup_insert_eq, lookup_delete_eq. reflexivity.
Qed.

Lemma position_unpaused guild_id later start total p :
  _playback_start_times p !! guild_id = Some start ->
  _total_paused_duration p !! guild_id = Some total ->
  _playback_paused_times p !! guild_id = None ->
  get_current_playback_position guild_id later p
  = Some (max0 (later - start - total)).
Proof.
  intros Hs Ht Hp. unfold get_current_playback_position.
  rewrite Hs. cbn. rewrite Ht, Hp. reflexivity.
Qed.

Lemma elapsed_since_seek (t now later : Q) :
  (later - (now - t) - 0 == t + (later - now))%Q.
Proof. ring. Qed.

(** C4. For a target position [t], which is never negative (the one caller,
    [_perform_seek], passes a position that [validate_seek_position]
    accepted): [_update_timing_after_seek] records the start time [now - t], a total
    paused duration of zero and no pause mark; the position read at the
    same instant is [t], and the position read at any later instant, in
    any player state that still has the timing fields of the guild as the
    seek left them (no pause, stop or further seek since), is [t] plus the
    time elapsed since the seek. *)
Theorem seek_timing_consistent (guild_id : Z) (t now : Q) (p : PlayerState) :
  (0 <= t)%Q ->
  let p' := _update_timing_after_seek guild_id t now p in
  _playback_start_times p' !! guild_id = Some (now - t)%Q
  /\ _total_paused_duration p' !! guild_id = Some 0%Q
  /\ _playback_paused_times p' !! guild_id = None
  /\ (exists x, get_current_playback_position guild_id now p' = Some x /\ (x == t)%Q)
  /\ (forall later q, (now <= later)%Q ->
        _playback_start_times q !! guild_id = _playback_start_times p' !! guild_id ->
        _total_paused_duration q !! guild_id = _total_paused_duration p' !! guild_id ->
        _playback_paused_times q !! guild_id = None ->
        exists x, get_current_playback_position guild_id later q = Some x
                  /\ (x == t + (later - now))%Q).
Proof.
  intros Ht p'. subst p'.
  split; [cbn; apply lookup_insert_eq|].
  split; [cbn; apply lookup_insert_eq|].
  split; [cbn; apply lookup_delete_eq|].
  assert (Hlater : forall later, (now <= later)%Q ->
            (max0 (later - (now - t) - 0) == t + (later - now))%Q).
  { intros later Hl. rewrite max0_nonneg; [apply elapsed_since_seek|].
    rewrite elapsed_since_seek.
    apply (Qle_trans _ (t + 0)); [rewrite Qplus_0_r; exact Ht|].
    apply Qplus_le_r. unfold Qminus. rewrite <- (Qplus_opp_r now).
    apply Qplus_le_l. exact Hl. }
  split.
  - eexists. split; [apply position_after_seek|].
    rewrite (Hlater now (Qle_refl now)). ring.
  - intros later q Hl Hs Htot Hp. cbn in Hs, Htot.
    rewrite lookup_insert_eq in Hs. rewrite lookup_insert_eq in Htot.
    eexists. split; [exact (position_unpaused _ later _ _ q Hs Htot Hp)|].
    exact (Hlater later Hl).
Qed.

(** After a seek to 30 s at time 100, the position read at time 100 is 30. *)
Lemma seek_timing_consistent_witness :
  exists x, get_current_playback_position 7 100
              (_update_timing_after_seek 7 30 100 (new_player "./temp" None)) = Some x
            /\ (x == 30)%Q.
Proof.
  destruct (seek_timing_consistent 7 30 100 (new_player "./temp" None))
    as (_ & _ & _ & Hnow & _); [vm_compute; discriminate | exact Hnow].
Defined.

(** The position read is never negative: were [_update_timing_after_seek]
    given -5 s, which no caller passes, the position read at the same
    instant would be 0. *)
Lemma seek_timing_negative_target :
  get_current_playback_position 7 100
    (_update_timing_after_seek 7 (-5) 100 (new_player "./temp" None)) = Some 0%Q
  /\ ~ (0 == -5)%Q.
Proof. split; [reflexivity|discriminate]. Qed.

End TimingFacts.

(** ** Retries *)
Section RetryFacts.
Context `{Environment}.
Import CatboxClient YouTubeClient.

(** The HEAD probe with the default [max_retries]: it asks for the
    session, then makes up to three requests, sleeping 1 s after the first
    failure and 2 s after the second; it returns [None] exactly when all
    three requests raise [aiohttp.ClientError]. *)
Lemma head_probe_three_attempts (url : string) (s : state) :
  let '(r, s') := _make_head_request_with_retry url default_max_retries s in
  exists new,
    log s' = log s ++ new
    /\ calls new `prefix_of` probe_calls url
    /\ (r = Ret None <->
        exists e1 e2 e3,
          e_class e1 = ClientError /\ e_class e2 = ClientError
          /\ e_class e3 = ClientError
          /\ new = three_failed_attempts url e1 e2 e3).
Proof.
  unfold _make_head_request_with_retry, default_max_retries, probe_calls,
    three_failed_attempts.
  change (range (2 + 1)) with [0; 1; 2].
  cbn. unfold head_attempt, try_except_class, bind, do, ret. cbn.
  repeat (first [ next_call
                | match goal with
                  | |- context [exc_class_eqb (e_class ?e) ClientError] =>
                      destruct (exc_class_eqb (e_class e) ClientError) eqn:?; cbn
                  end ]).
  all: rewrite <- ?app_assoc; cbn [app].
  all: eexists; split; [reflexivity|].
  all: split; [eexists; reflexivity|].
  all: split;
    [ intros Hr; try discriminate Hr;
      do 3 eexists; repeat split; eauto using exc_class_eqb_eq
    | intros (e1' & e2' & e3' & C1 & C2 & C3 & Hnew);
      try discriminate Hnew; try reflexivity;
      inversion Hnew; subst;
      repeat match goal with
             | Hc : e_class ?e = ClientError,
               Hb : exc_class_eqb (e_class ?e) ClientError = false |- _ =>
                 rewrite Hc in Hb; discriminate Hb
             end ].
Qed.

(** [_create_youtube_object] constructs again after a bot-detection error:
    between one and three constructions, one after the other, and no
    other call, so no wait. *)
Lemma create_youtube_object_attempts (url : string) (cb : bool) (s : state) :
  let '(r, s') := _create_youtube_object url cb 0 s in
  exists new,
    log s' = log s ++ new
    /\ calls new `prefix_of` fallback_calls (config (player s)) url cb
    /\ (1 <= length new <= 3)%nat.
Proof.
  unfold _create_youtube_object, fallback_calls, bind, get_player.
  change (Z.to_nat (2 - 0)) with 2%nat. cbn.
  unfold try_except_class, do, raise. cbn.
  repeat (first [ next_call | next_test ]).
  all: rewrite <- ?app_assoc; cbn [app].
  all: eexists; split; [reflexivity|].
  all: split; [eexists; reflexivity | cbn; lia].
Qed.

(** C2, as amended. [_make_head_request_with_retry] makes at most three
    attempts (the first and [max_retries = 2] more), waits [2 ** attempt]
    seconds (1 s, then 2 s) between consecutive attempts, and returns
    [None] exactly when all three raise a client error; and
    [_create_youtube_object] too makes up to three attempts, without
    waiting. *)
Theorem head_probe_retry :
  (forall (url : string) (s : state),
     let '(r, s') := _make_head_request_with_retry url default_max_retries s in
     exists new,
       log s' = log s ++ new
       /\ calls new `prefix_of` probe_calls url
       /\ (r = Ret None <->
           exists e1 e2 e3,
             e_class e1 = ClientError /\ e_class e2 = ClientError
             /\ e_class e3 = ClientError
             /\ new = three_failed_attempts url e1 e2 e3))
  /\ (forall (url : string) (cb : bool) (s : state),
        let '(r, s') := _create_youtube_object url cb 0 s in
        exists new,
          log s' = log s ++ new
          /\ calls new `prefix_of` fallback_calls (config (player s)) url cb
          /\ (1 <= length new <= 3)%nat).
Proof.
  split; [exact head_probe_three_attempts | exact create_youtube_object_attempts].
Qed.

End RetryFacts.

(** C2, as stated, fails: with the network down the probe makes three
    HEAD requests, not two; and with the fallback configured, a client
    taken for a bot is constructed three times. *)
Lemma head_probe_makes_three_requests :
  head_requests
    (log (@CatboxClient._make_head_request_with_retry offline
            "https://files.catbox.moe/a.mp3" CatboxClient.default_max_retries
            (start_state offline 0%nat (new_player "./temp" None))).2) = 3%nat
  /\ youtube_ctors
       (log (@YouTubeClient._create_youtube_object offline
               "https://youtu.be/abc" false 0
               (start_state offline 0%nat
                  (new_player "./temp" (Some fallback_config)))).2) = 3%nat.
Proof. split; vm_compute; reflexivity. Qed.
(** ** One playback task and one inactivity timer per guild *)
Section TaskFacts.
Import MusicPlayer.

Lemma cancel_task_not_pending t : is_pending (cancel_task t) = false.
Proof. unfold cancel_task, is_pending. destruct (t_state t) eqn:E; cbn; now rewrite ?E. Qed.

Lemma lookup_cancel_Some i j ts t :
  cancel i ts !! j = Some t ->
  (i = j /\ is_pending t = false) \/ (i <> j /\ ts !! j = Some t).
Proof.
  unfold cancel. rewrite list_lookup_alter. destruct (decide (i = j)) as [->|Hne].
  - intros Ht. left. split; [reflexivity|].
    destruct (ts !! j); [|discriminate]. injection Ht as <-. apply cancel_task_not_pending.
  - intros Ht. right. auto.
Qed.

(** Cancelling the task of an entry and deleting the entry. *)
Lemma registry_cancel_delete kind m ts g i :
  registry_ok kind m ts -> m !! g = Some i ->
  registry_ok kind (delete g m) (cancel i ts).
Proof.
  intros [Hreg Hpend] Hg. split.
  - intros g' i' Hg'. apply lookup_delete_Some in Hg' as [Hne Hg'].
    destruct (Hreg g' i' Hg') as (t & Ht & Htg & Hk & Hp).
    exists t. repeat split; auto.
    unfold cancel. rewrite list_lookup_alter_ne; [assumption|].
    intros ->. destruct (Hreg g i' Hg) as (t' & Ht' & Htg' & _). congruence.
  - intros i' t Ht Hk Hp. apply lookup_cancel_Some in Ht as [[-> Hnp]|[Hne Ht]];
      [congruence|].
    apply lookup_delete_Some. split; [|auto].
    intros Heq. specialize (Hpend i' t Ht Hk Hp). rewrite <- Heq in Hpend. congruence.
Qed.

(** Cancelling a task that the map does not hold. *)
Lemma registry_cancel_other kind m ts i :
  registry_ok kind m ts -> (forall g, m !! g <> Some i) ->
  registry_ok kind m (cancel i ts).
Proof.
  intros [Hreg Hpend] Hno. split.
  - intros g' i' Hg'. destruct (Hreg g' i' Hg') as (t & Ht & Htg & Hk & Hp).
    exists t. repeat split; auto.
    unfold cancel. rewrite list_lookup_alter_ne; [assumption|].
    intros ->. exact (Hno _ Hg').
  - intros i' t Ht Hk Hp. apply lookup_cancel_Some in Ht as [[-> Hnp]|[Hne Ht]];
      [congruence|]. auto.
Qed.

(** A new pending task, entered for a guild that has no entry. *)
Lemma registry_create_insert kind m ts g k :
  registry_ok kind m ts -> m !! g = None -> kind (mkTask g k Pending) = true ->
  registry_ok kind (<[g := length ts]> m) (ts ++ [mkTask g k Pending]).
Proof.
  intros [Hreg Hpend] Hg Hk. split.
  - intros g' i' Hg'. apply lookup_insert_Some in Hg' as [[<- <-]|[Hne Hg']].
    + exists (mkTask g k Pending). repeat split; auto.
      apply lookup_snoc_Some. right. auto.
    + destruct (Hreg g' i' Hg') as (t & Ht & Htg & Hkt & Hp).
      exists t. repeat split; auto.
      apply lookup_snoc_Some. left. split; [eapply lookup_lt_Some; eauto|auto].
  - intros i' t Ht Hkt Hp. apply lookup_snoc_Some in Ht as [[Hlt Ht]|[-> <-]].
    + specialize (Hpend i' t Ht Hkt Hp).
      apply lookup_insert_Some. right. split; [congruence|assumption].
    + cbn. apply lookup_insert_eq.
Qed.

(** A new task of another kind. *)
Lemma registry_create_other kind m ts t :
  registry_ok kind m ts -> kind t = false -> registry_ok kind m (ts ++ [t]).
Proof.
  intros [Hreg Hpend] Hk. split.
  - intros g' i' Hg'. destruct (Hreg g' i' Hg') as (t' & Ht & Htg & Hkt & Hp).
    exists t'. repeat split; auto.
    apply lookup_snoc_Some. left. split; [eapply lookup_lt_Some; eauto|auto].
  - intros i' t' Ht Hkt Hp. apply lookup_snoc_Some in Ht as [[Hlt Ht]|[-> <-]];
      [eauto|congruence].
Qed.

(** The two maps never hold the same task. *)
Lemma registry_disjoint p g i :
  one_task_per_guild p -> _inactivity_timers p !! g = Some i ->
  forall g', _playback_tasks p !! g' <> Some i.
Proof.
  intros [[Hp _] [Ht _]] Hg g' Hg'.
  destruct (Hp _ _ Hg') as (t & E1 & _ & K1 & _).
  destruct (Ht _ _ Hg) as (t' & E2 & _ & K2 & _).
  assert (t = t') by congruence. subst t'.
  unfold is_playback, is_timer in *. destruct (t_kind t); discriminate.
Qed.

Lemma registry_disjoint' p g i :
  one_task_per_guild p -> _playback_tasks p !! g = Some i ->
  forall g', _inactivity_timers p !! g' <> Some i.
Proof.
  intros Hinv Hg g' Hg'. exact (registry_disjoint p g' i Hinv Hg' g Hg).
Qed.

Lemma cancel_and_remove_timer_ok g p :
  one_task_per_guild p -> one_task_per_guild (cancel_and_remove_timer g p).
Proof.
  intros Hinv. unfold cancel_and_remove_timer.
  destruct (_inactivity_timers p !! g) as [i|] eqn:Hg; [|assumption].
  split; cbn.
  - apply registry_cancel_other; [apply Hinv|]. eapply registry_disjoint; eauto.
  - apply registry_cancel_delete; [apply Hinv|assumption].
Qed.

Lemma cancel_and_remove_timer_lookup g p :
  _inactivity_timers (cancel_and_remove_timer g p) !! g = None.
Proof.
  unfold cancel_and_remove_timer.
  destruct (_inactivity_timers p !! g) eqn:Hg; cbn; [apply lookup_delete_eq|assumption].
Qed.

Lemma cancel_and_remove_playback_ok g p :
  one_task_per_guild p -> one_task_per_guild (cancel_and_remove_playback g p).
Proof.
  intros Hinv. unfold cancel_and_remove_playback.
  destruct (_playback_tasks p !! g) as [i|] eqn:Hg; [|assumption].
  split; cbn.
  - apply registry_cancel_delete; [apply Hinv|assumption].
  - apply registry_cancel_other; [apply Hinv|]. eapply registry_disjoint'; eauto.
Qed.

Lemma reset_inactivity_timer_ok g now p :
  one_task_per_guild p -> one_task_per_guild (_reset_inactivity_timer g now p).
Proof.
  intros Hinv. unfold _reset_inactivity_timer.
  apply (cancel_and_remove_timer_ok g) in Hinv. exact Hinv.
Qed.

Lemma start_inactivity_timer_ok g p :
  one_task_per_guild p -> one_task_per_guild (_start_inactivity_timer g p).
Proof.
  intros Hinv. unfold _start_inactivity_timer, create_task.
  destruct (_inactivity_timers p !! g) as [i|] eqn:Hg; cbn.
  - split; cbn.
    + apply registry_create_other; [|reflexivity].
      apply registry_cancel_other; [apply Hinv|]. eapply registry_disjoint; eauto.
    + rewrite <- (insert_delete_eq (_inactivity_timers p)).
      apply registry_create_insert; [|apply lookup_delete_eq|reflexivity].
      apply registry_cancel_delete; [apply Hinv|assumption].
  - split; cbn.
    + apply registry_create_other; [apply Hinv|reflexivity].
    + apply registry_create_insert; [apply Hinv|assumption|reflexivity].
Qed.

Lemma start_playback_ok g now p :
  one_task_per_guild p -> one_task_per_guild (_start_playback g now p).
Proof.
  intros Hinv. unfold _start_playback.
  destruct (_playback_tasks p !! g) as [i|] eqn:Hg; [assumption|].
  pose proof (reset_inactivity_timer_ok g now p Hinv) as Hinv'.
  assert (Hg' : _playback_tasks (_reset_inactivity_timer g now p) !! g = None).
  { unfold _reset_inactivity_timer, cancel_and_remove_timer.
    destruct (_inactivity_timers p !! g); cbn; assumption. }
  unfold register_playback, create_task. split; cbn.
  - apply registry_create_insert; [apply Hinv'|assumption|reflexivity].
  - apply registry_create_other; [apply Hinv'|reflexivity].
Qed.

Lemma run_task_op_ok p op :
  one_task_per_guild p -> one_task_per_guild (run_task_op p op).
Proof.
  intros Hinv. destruct op; cbn.
  - now apply start_playback_ok.
  - now apply reset_inactivity_timer_ok.
  - now apply start_inactivity_timer_ok.
  - now apply cancel_and_remove_timer_ok.
  - now apply cancel_and_remove_playback_ok.
Qed.

Lemma new_player_ok temp cfg : one_task_per_guild (new_player temp cfg).
Proof.
  split; split; cbn; intros; try (rewrite lookup_empty in *; discriminate);
    match goal with H : [] !! _ = Some _ |- _ => rewrite lookup_nil in H; discriminate H end.
Qed.

Lemma run_task_ops_ok ops p :
  one_task_per_guild p -> one_task_per_guild (run_task_ops ops p).
Proof.
  revert p. induction ops as [|op ops IH]; intros p Hinv; cbn; [assumption|].
  apply IH, run_task_op_ok, Hinv.
Qed.

(** With the invariant, two pending tasks of one kind and one guild are the same task. *)
Lemma registry_unique kind m ts i j t u :
  registry_ok kind m ts ->
  ts !! i = Some t -> ts !! j = Some u ->
  kind t = true -> kind u = true -> is_pending t = true -> is_pending u = true ->
  t_guild t = t_guild u -> i = j.
Proof.
  intros [_ Hpend] Hi Hj Kt Ku Pt Pu Hg.
  pose proof (Hpend i t Hi Kt Pt) as E1. pose proof (Hpend j u Hj Ku Pu) as E2.
  rewrite Hg in E1. congruence.
Qed.

Lemma filter_key_at_most_one {A} (g : Z) (l : list (Z * A)) :
  NoDup (l.*1) -> (length (filter (fun kv => kv.1 = g) l) <= 1)%nat.
Proof.
  induction l as [|[k v] l IH]; intros Hnd; [cbn; lia|].
  apply NoDup_cons in Hnd as [Hnotin Hnd].
  rewrite filter_cons. destruct (decide ((k, v).1 = g)) as [Hk|Hk]; [|auto].
  cbn in Hk. subst k.
  destruct (filter (fun kv : Z * A => kv.1 = g) l) as [|[k' v'] rest] eqn:Hf;
    [cbn; lia|].
  exfalso. apply Hnotin.
  assert ((k', v') ∈ filter (fun kv : Z * A => kv.1 = g) l) as Hin
    by (rewrite Hf; left).
  apply list_elem_of_filter in Hin as [Hk' Hin]. cbn in Hk'. subst k'.
  apply list_elem_of_fmap. exists (g, v'). auto.
Qed.

Lemma entries_for_at_most_one {A} (g : Z) (m : gmap Z A) :
  (length (entries_for g m) <= 1)%nat.
Proof. apply filter_key_at_most_one, NoDup_fst_map_to_list. Qed.

(** What a reset does to the guild's timer: the entry is gone, and the
    task it held is no longer pending. *)
Lemma reset_inactivity_timer_effect g now p :
  _inactivity_timers (_reset_inactivity_timer g now p) !! g = None
  /\ forall i, _inactivity_timers p !! g = Some i ->
       forall t, tasks (_reset_inactivity_timer g now p) !! i = Some t ->
         is_pending t = false.
Proof.
  split; [apply cancel_and_remove_timer_lookup|].
  intros i Hi t. unfold _reset_inactivity_timer, cancel_and_remove_timer.
  rewrite Hi. cbn. intros Ht.
  apply lookup_cancel_Some in Ht as [[_ Hp]|[Hne _]]; [exact Hp|congruence].
Qed.

(** What starting a timer does: the old task, if any, is no longer
    pending, and the entry is the new task, which is pending. *)
Lemma start_inactivity_timer_effect g p :
  let p' := _start_inactivity_timer g p in
  _inactivity_timers p' !! g = Some (length (tasks p))
  /\ tasks p' !! length (tasks p)
     = Some (mkTask g (InactivityTimer (_get_auto_disconnect_timeout p)) Pending)
  /\ forall i, _inactivity_timers p !! g = Some i ->
       forall t, tasks p' !! i = Some t -> i <> length (tasks p) ->
         is_pending t = false.
Proof.
  cbv zeta. unfold _start_inactivity_timer, create_task.
  destruct (_inactivity_timers p !! g) as [j|] eqn:Hg; cbn.
  - unfold cancel. rewrite length_alter. split; [apply lookup_insert_eq|].
    split.
    + rewrite lookup_app_r by (rewrite length_alter; lia).
      rewrite length_alter, Nat.sub_diag. reflexivity.
    + intros i Hi t Ht Hne. injection Hi as <-.
      apply lookup_snoc_Some in Ht as [[_ Ht]|[Hl _]].
      * apply lookup_cancel_Some in Ht as [[_ Hp]|[Hn _]]; [exact Hp|congruence].
      * rewrite length_alter in Hl. congruence.
  - split; [apply lookup_insert_eq|]. split.
    + rewrite lookup_app_r by lia. rewrite Nat.sub_diag. reflexivity.
    + intros i Hi. discriminate Hi.
Qed.

End TaskFacts.

(** ** What a run keeps *)
Section KeepsRules.
Context `{Environment}.
Context (I : PlayerState -> Prop).

Lemma keeps_ret {A} (a : A) : keeps I (ret a).
Proof. intros s Hs. exact Hs. Qed.
Lemma keeps_raise {A} e : keeps I (@raise _ A e).
Proof. intros s Hs. exact Hs. Qed.
Lemma keeps_lift {A} (r : result A) : keeps I (lift r).
Proof. intros s Hs. exact Hs. Qed.
Lemma keeps_do c : keeps I (do c).
Proof. intros s Hs. unfold do. destruct (oracle c (world s)). exact Hs. Qed.
Lemma keeps_tell m : keeps I (tell m).
Proof. intros s Hs. exact Hs. Qed.
Lemma keeps_get_player : keeps I get_player.
Proof. intros s Hs. exact Hs. Qed.
Lemma keeps_modify_player f : (forall p, I p -> I (f p)) -> keeps I (modify_player f).
Proof. intros Hf s Hs. exact (Hf _ Hs). Qed.

Lemma keeps_bind {A B} (m : M A) (f : A -> M B) :
  keeps I m -> (forall a, keeps I (f a)) -> keeps I (bind m f).
Proof.
  intros Hm Hf s Hs. specialize (Hm s Hs). unfold bind.
  destruct (m s) as [[a|e] s1]; cbn in *; [exact (Hf a s1 Hm)|exact Hm].
Qed.

Lemma keeps_try_except {A} (body : M A) handler :
  keeps I body -> (forall e, keeps I (handler e)) -> keeps I (try_except body handler).
Proof.
  intros Hb Hh s Hs. specialize (Hb s Hs). unfold try_except.
  destruct (body s) as [[a|e] s1]; cbn in *; [exact Hb|exact (Hh e s1 Hb)].
Qed.

Lemma keeps_try_except_class {A} cls (body : M A) handler :
  keeps I body -> (forall e, keeps I (handler e)) ->
  keeps I (try_except_class cls body handler).
Proof.
  intros Hb Hh s Hs. specialize (Hb s Hs). unfold try_except_class.
  destruct (body s) as [[a|e] s1]; cbn in *; [exact Hb|].
  destruct (exc_class_eqb (e_class e) cls); [exact (Hh e s1 Hb)|exact Hb].
Qed.

Lemma keeps_try_finally {A} (body : M A) final :
  keeps I body -> keeps I final -> keeps I (try_finally body final).
Proof.
  intros Hb Hf s Hs. specialize (Hb s Hs). unfold try_finally.
  destruct (body s) as [r s1]; cbn in *. specialize (Hf s1 Hb).
  destruct (final s1) as [[a|e] s2]; exact Hf.
Qed.
End KeepsRules.

Ltac keeps_step :=
  lazymatch goal with
  | |- keeps _ (ret _) => apply keeps_ret
  | |- keeps _ (raise _) => apply keeps_raise
  | |- keeps _ (lift _) => apply keeps_lift
  | |- keeps ?I (do ?c) => exact (keeps_do I c)
  | |- keeps _ (tell _) => apply keeps_tell
  | |- keeps _ get_player => apply keeps_get_player
  | |- keeps _ (bind _ _) => apply keeps_bind; [|intros]
  | |- keeps _ (try_except _ _) => apply keeps_try_except; [|intros]
  | |- keeps _ (try_except_class _ _ _) => apply keeps_try_except_class; [|intros]
  | |- keeps _ (try_finally _ _) => apply keeps_try_finally
  | |- keeps _ (match ?x with _ => _ end) => destruct x
  | |- keeps _ (if ?b then _ else _) => destruct b
  end.

(** The clients only read the player's fields. *)
Section ClientsKeep.
Context `{Environment}.
Context (I : PlayerState -> Prop).

Lemma keeps_head_attempts url max_retries attempts :
  keeps I (CatboxClient.head_attempts url max_retries attempts).
Proof.
  induction attempts as [|attempt rest IH]; cbn; [apply keeps_ret|].
  unfold CatboxClient.head_attempt. repeat keeps_step. exact IH.
Qed.

Lemma keeps_make_head_request url max_retries :
  keeps I (CatboxClient._make_head_request_with_retry url max_retries).
Proof.
  unfold CatboxClient._make_head_request_with_retry. repeat keeps_step.
  apply keeps_head_attempts.
Qed.

Lemma keeps_catbox_extract url : keeps I (CatboxClient.extract_audio_info url).
Proof.
  unfold CatboxClient.extract_audio_info. repeat keeps_step.
  apply keeps_make_head_request.
Qed.

Lemma keeps_validate_audio_file url : keeps I (CatboxClient.validate_audio_file url).
Proof.
  unfold CatboxClient.validate_audio_file, CatboxClient.validate_audio_file_body.
  repeat first [ keeps_step | apply keeps_catbox_extract | apply keeps_make_head_request ].
Qed.

Lemma keeps_create_youtube_object_from fuel cfg url cb attempt :
  keeps I (YouTubeClient.create_youtube_object_from fuel cfg url cb attempt).
Proof.
  revert attempt. induction fuel as [|fuel IH]; intros attempt; cbn.
  - repeat keeps_step.
  - repeat keeps_step. apply IH.
Qed.

Lemma keeps_create_youtube_object url cb attempt :
  keeps I (YouTubeClient._create_youtube_object url cb attempt).
Proof.
  unfold YouTubeClient._create_youtube_object. repeat keeps_step.
  apply keeps_create_youtube_object_from.
Qed.

Lemma keeps_youtube_extract url : keeps I (YouTubeClient.extract_audio_info url).
Proof.
  unfold YouTubeClient.extract_audio_info.
  repeat first [ keeps_step | apply keeps_create_youtube_object ].
Qed.

Lemma keeps_download_audio url : keeps I (YouTubeClient.download_audio url).
Proof.
  unfold YouTubeClient.download_audio, YouTubeClient.download_audio_body.
  repeat first [ keeps_step | apply keeps_create_youtube_object ].
Qed.

Lemma keeps_cleanup_file file_path : keeps I (YouTubeClient.cleanup_file file_path).
Proof. unfold YouTubeClient.cleanup_file. repeat keeps_step. Qed.
End ClientsKeep.

(** *** The player's operations *)

Lemma cancel_and_remove_timer_playback g p :
  _playback_tasks (MusicPlayer.cancel_and_remove_timer g p) = _playback_tasks p.
Proof.
  unfold MusicPlayer.cancel_and_remove_timer.
  destruct (_inactivity_timers p !! g); reflexivity.
Qed.

Section TaskInvariant.
Context `{Environment}.
Import MusicPlayer.
Local Arguments register_playback : simpl never.
Local Arguments cancel_and_remove_timer : simpl never.

Variable I : PlayerState -> Prop.
Hypothesis I_fields : forall p p',
  _playback_tasks p' = _playback_tasks p ->
  _inactivity_timers p' = _inactivity_timers p ->
  tasks p' = tasks p -> I p -> I p'.
Hypothesis I_cancel_timer : forall g p, I p -> I (cancel_and_remove_timer g p).
Hypothesis I_cancel_playback : forall g p, I p -> I (cancel_and_remove_playback g p).
Hypothesis I_register_playback : forall g p,
  I p -> _playback_tasks p !! g = None -> I (register_playback g p).

Ltac other_fields :=
  let p := fresh "p" in let Hp := fresh "Hp" in
  intros p Hp; apply (I_fields p); [reflexivity | reflexivity | reflexivity | exact Hp].

Ltac keeps_player :=
  repeat first
    [ keeps_step
    | apply keeps_catbox_extract | apply keeps_youtube_extract
    | apply keeps_download_audio | apply keeps_validate_audio_file
    | apply keeps_cleanup_file
    | apply keeps_modify_player; other_fields ].

Lemma keeps_get_queue_manager g : keeps I (get_queue_manager g).
Proof. unfold get_queue_manager. keeps_player. Qed.

Lemma keeps_cleanup_current_audio g : keeps I (_cleanup_current_audio g).
Proof. unfold _cleanup_current_audio. keeps_player. Qed.

Lemma keeps_reset_inactivity_timer g : keeps I (reset_inactivity_timer g).
Proof.
  unfold reset_inactivity_timer. keeps_player.
  apply keeps_modify_player. apply I_cancel_timer.
Qed.

Lemma keeps_cleanup_guild_state g : keeps I (_cleanup_guild_state g).
Proof.
  unfold _cleanup_guild_state.
  repeat first [ apply keeps_cleanup_current_audio
               | apply keeps_modify_player; first [ apply I_cancel_playback | apply I_cancel_timer ]
               | keeps_step | apply keeps_modify_player; other_fields ].
Qed.

Lemma keeps_start_playback g : keeps I (start_playback g).
Proof.
  intros s Hs. unfold start_playback, bind at 1, get_player.
  destruct (_playback_tasks (player s) !! g) eqn:Hg; [exact Hs|].
  unfold reset_inactivity_timer. unfold_run. cbn.
  destruct (oracle Time (world s)) as [[now|e] w]; cbn.
  - apply (I_register_playback g).
    + eapply I_fields; [| | |apply (I_cancel_timer g), Hs]; reflexivity.
    + cbn. now rewrite cancel_and_remove_timer_playback.
  - now apply I_cancel_timer.
Qed.

Ltac keeps_ops :=
  repeat first
    [ apply keeps_get_queue_manager | apply keeps_cleanup_current_audio
    | apply keeps_reset_inactivity_timer | apply keeps_cleanup_guild_state
    | apply keeps_start_playback
    | keeps_step
    | apply keeps_catbox_extract | apply keeps_youtube_extract
    | apply keeps_download_audio | apply keeps_validate_audio_file
    | apply keeps_cleanup_file
    | apply keeps_modify_player; other_fields ].

Lemma keeps_add_song_to_queue url requester : keeps I (add_song_to_queue url requester).
Proof.
  unfold add_song_to_queue, add_song_to_queue_body, add_song_of_source. keeps_ops.
Qed.

Lemma keeps_connect_to_user_channel member : keeps I (connect_to_user_channel member).
Proof. unfold connect_to_user_channel. keeps_ops. Qed.

Lemma keeps_skip_current_song g : keeps I (skip_current_song g).
Proof. unfold skip_current_song, skip_current_song_body. keeps_ops. Qed.

Lemma keeps_stop_playback g : keeps I (stop_playback g).
Proof. unfold stop_playback, stop_playback_body. keeps_ops. Qed.

Lemma keeps_jump_to_position g position : keeps I (jump_to_position g position).
Proof. unfold jump_to_position, jump_to_position_body. keeps_ops. Qed.

Lemma keeps_seek_to_position g time_str : keeps I (seek_to_position g time_str).
Proof.
  unfold seek_to_position, seek_to_position_body, _perform_seek,
    current_playback_position.
  keeps_ops.
Qed.
End TaskInvariant.

Section TaskInvariantFacts.
Context `{Environment}.
Import MusicPlayer.

Lemma one_task_per_guild_fields p p' :
  _playback_tasks p' = _playback_tasks p ->
  _inactivity_timers p' = _inactivity_timers p ->
  tasks p' = tasks p -> one_task_per_guild p -> one_task_per_guild p'.
Proof. unfold one_task_per_guild. intros -> -> ->. auto. Qed.

Lemma register_playback_ok g p :
  one_task_per_guild p -> _playback_tasks p !! g = None ->
  one_task_per_guild (register_playback g p).
Proof.
  intros Hinv Hg. unfold register_playback, create_task. split; cbn.
  - apply registry_create_insert; [apply Hinv|assumption|reflexivity].
  - apply registry_create_other; [apply Hinv|reflexivity].
Qed.

(** What holds of the methods when no task body runs in between.
    Starting from a new player, the methods that touch the two task
    maps keep them in step with the event loop's tasks: each entry is a
    pending task of its guild, and a pending playback task or timer is the
    entry of its guild, so a guild has at most one of each; a map holds at
    most one entry for a guild; [_start_playback] on a guild that has an
    entry changes nothing; [_reset_inactivity_timer] cancels the guild's
    timer and removes its entry; [_start_inactivity_timer] cancels it and
    enters a new one in its place; and the public operations keep the
    maps in step too. The [finally] of a task is not among these steps;
    a run of one follows this section. *)
Theorem one_task_and_one_timer_per_guild :
  (forall temp cfg ops, one_task_per_guild (run_task_ops ops (new_player temp cfg)))
  /\ (forall p op, one_task_per_guild p -> one_task_per_guild (run_task_op p op))
  /\ (forall p i j t u,
        one_task_per_guild p ->
        tasks p !! i = Some t -> tasks p !! j = Some u ->
        is_pending t = true -> is_pending u = true ->
        t_guild t = t_guild u -> is_timer t = is_timer u -> i = j)
  /\ (forall (p : PlayerState) g,
        (length (entries_for g (_playback_tasks p)) <= 1)%nat
        /\ (length (entries_for g (_inactivity_timers p)) <= 1)%nat)
  /\ (forall g now p,
        is_Some (_playback_tasks p !! g) -> _start_playback g now p = p)
  /\ (forall g now p,
        _inactivity_timers (_reset_inactivity_timer g now p) !! g = None
        /\ forall i, _inactivity_timers p !! g = Some i ->
             forall t, tasks (_reset_inactivity_timer g now p) !! i = Some t ->
               is_pending t = false)
  /\ (forall g p,
        _inactivity_timers (_start_inactivity_timer g p) !! g = Some (length (tasks p))
        /\ tasks (_start_inactivity_timer g p) !! length (tasks p)
           = Some (mkTask g (InactivityTimer (_get_auto_disconnect_timeout p)) Pending)
        /\ forall i, _inactivity_timers p !! g = Some i ->
             forall t, tasks (_start_inactivity_timer g p) !! i = Some t ->
               i <> length (tasks p) -> is_pending t = false)
  /\ (forall url requester, keeps one_task_per_guild (add_song_to_queue url requester))
  /\ (forall member, keeps one_task_per_guild (connect_to_user_channel member))
  /\ (forall g, keeps one_task_per_guild (skip_current_song g))
  /\ (forall g, keeps one_task_per_guild (stop_playback g))
  /\ (forall g position, keeps one_task_per_guild (jump_to_position g position))
  /\ (forall g time_str, keeps one_task_per_guild (seek_to_position g time_str)).
Proof.
  assert (Hkeep : forall A (m : M A),
            (forall I : PlayerState -> Prop,
               (forall p p', _playback_tasks p' = _playback_tasks p ->
                             _inactivity_timers p' = _inactivity_timers p ->
                             tasks p' = tasks p -> I p -> I p') ->
               (forall g p, I p -> I (cancel_and_remove_timer g p)) ->
               (forall g p, I p -> I (cancel_and_remove_playback g p)) ->
               (forall g p, I p -> _playback_tasks p !! g = None ->
                            I (register_playback g p)) ->
               keeps I m) ->
            keeps one_task_per_guild m).
  { intros A m Hm. apply Hm.
    - apply one_task_per_guild_fields.
    - intros g p. apply cancel_and_remove_timer_ok.
    - intros g p. apply cancel_and_remove_playback_ok.
    - intros g p. apply register_playback_ok. }
  split; [intros temp cfg ops; apply run_task_ops_ok, new_player_ok|].
  split; [intros p op; apply run_task_op_ok|].
  split.
  { intros p i j t u [Hplay Htimer] Hi Hj Pt Pu Hg Hk.
    destruct (is_timer t) eqn:Kt.
    - eapply (registry_unique is_timer); eauto.
    - eapply (registry_unique is_playback); eauto.
      + unfold is_timer, is_playback in *. destruct (t_kind t); congruence.
      + unfold is_timer, is_playback in *. destruct (t_kind u); congruence. }
  split; [intros p g; split; apply entries_for_at_most_one|].
  split.
  { intros g now p [i Hi]. unfold _start_playback. now rewrite Hi. }
  split; [intros g now p; apply reset_inactivity_timer_effect|].
  split; [intros g p; apply start_inactivity_timer_effect|].
  split; [intros; apply Hkeep; intros; now apply keeps_add_song_to_queue|].
  split; [intros; apply Hkeep; intros; now apply keeps_connect_to_user_channel|].
  split; [intros; apply Hkeep; intros; now apply keeps_skip_current_song|].
  split; [intros; apply Hkeep; intros; now apply keeps_stop_playback|].
  split; [intros; apply Hkeep; intros; now apply keeps_jump_to_position|].
  intros; apply Hkeep; intros; now apply keeps_seek_to_position.
Qed.

End TaskInvariantFacts.

(** *** A cancelled timer that runs after its successor was entered *)
Section StaleTimer.
Context `{Environment}.
Import MusicPlayer.

Lemma cancelled_timer_run (w : World) (l : list event) :
  player (_inactivity_timer_task guild 300 0 (mkState w restarted_player l)).2
  = set_tasks (alter finish_task 0%nat)
      (set_inactivity_timers (delete guild) restarted_player).
Proof.
  unfold _inactivity_timer_task. unfold_run. cbn.
  destruct (oracle (Sleep 300) w) as [[[]|e] w']; reflexivity.
Qed.

(** C1, where the code departs from it. The [finally] of
    [_inactivity_timer_task] deletes the guild's entry whether or not it is
    the task's own. After two [_start_inactivity_timer] for a guild the
    first task is cancelled and the second is entered; when the cancelled
    task runs its [finally] it deletes the second task's entry, so that a
    pending timer is left that the map does not know of, and the next
    [_start_inactivity_timer] cancels nothing and creates a third task:
    the guild then has two pending inactivity timers. *)
Theorem cancelled_timer_forgets_its_successor (w : World) (l : list event) :
  let s3 := (_inactivity_timer_task guild 300 0 (mkState w restarted_player l)).2 in
  let p4 := _start_inactivity_timer guild (player s3) in
  one_task_per_guild restarted_player
  /\ cancel_requested 0 restarted_player = true
  /\ _inactivity_timers restarted_player !! guild = Some 1%nat
  /\ pending_timers guild restarted_player = [1%nat]
  /\ _inactivity_timers (player s3) !! guild = None
  /\ pending_timers guild (player s3) = [1%nat]
  /\ ~ one_task_per_guild (player s3)
  /\ _inactivity_timers p4 !! guild = Some 2%nat
  /\ pending_timers guild p4 = [1%nat; 2%nat].
Proof.
  cbv zeta. rewrite cancelled_timer_run.
  split; [apply run_task_ops_ok, new_player_ok|].
  split; [reflexivity|]. split; [reflexivity|]. split; [reflexivity|].
  split; [reflexivity|]. split; [reflexivity|].
  split.
  { intros (_ & _ & Ht).
    specialize (Ht 1%nat (mkTask guild (InactivityTimer 300) Pending) eq_refl eq_refl eq_refl).
    discriminate Ht. }
  split; reflexivity.
Qed.

End StaleTimer.

(** ** Activity cancels the inactivity timer *)
Section ActivityFacts.
Context `{Environment}.
Import MusicPlayer.

Lemma cancel_requested_cancel i j ts t :
  ts !! i = Some t -> t_state t = CancelRequested ->
  exists t', cancel j ts !! i = Some t' /\ t_state t' = CancelRequested.
Proof.
  intros Ht Hs. unfold cancel. rewrite list_lookup_alter.
  destruct (decide (j = i)) as [->|Hne]; [|eauto].
  rewrite Ht. cbn. eexists. split; [reflexivity|].
  unfold cancel_task. now rewrite Hs.
Qed.

Lemma cancel_requested_inv i p :
  cancel_requested i p = true <->
  exists t, tasks p !! i = Some t /\ t_state t = CancelRequested.
Proof.
  unfold cancel_requested. destruct (tasks p !! i) as [t|]; split.
  - intros Hc. exists t. split; [reflexivity|]. destruct (t_state t); congruence.
  - intros (t' & E & Hs). injection E as <-. now rewrite Hs.
  - discriminate.
  - intros (t' & E & _). discriminate.
Qed.

Lemma cancel_self_requested i ts t :
  ts !! i = Some t -> is_pending t = true ->
  exists t', cancel i ts !! i = Some t' /\ t_state t' = CancelRequested.
Proof.
  intros Ht Hp. unfold cancel. rewrite list_lookup_alter.
  destruct (decide (i = i)); [|congruence].
  rewrite Ht. cbn. eexists. split; [reflexivity|].
  unfold cancel_task, is_pending in *. destruct (t_state t); try discriminate. reflexivity.
Qed.

Lemma no_timer_fields g p p' :
  _playback_tasks p' = _playback_tasks p ->
  _inactivity_timers p' = _inactivity_timers p ->
  tasks p' = tasks p -> no_timer g p -> no_timer g p'.
Proof. unfold no_timer. intros _ -> _. auto. Qed.

Lemma no_timer_cancel_timer g g' p : no_timer g p -> no_timer g (cancel_and_remove_timer g' p).
Proof.
  unfold no_timer, cancel_and_remove_timer. intros Hn.
  destruct (_inactivity_timers p !! g') eqn:E; cbn; [|exact Hn].
  apply lookup_delete_None. auto.
Qed.

Lemma no_timer_cancel_playback g g' p :
  no_timer g p -> no_timer g (cancel_and_remove_playback g' p).
Proof.
  unfold no_timer, cancel_and_remove_playback. intros Hn.
  destruct (_playback_tasks p !! g'); exact Hn.
Qed.

Lemma no_timer_register_playback g g' p :
  no_timer g p -> _playback_tasks p !! g' = None -> no_timer g (register_playback g' p).
Proof. intros Hn _. exact Hn. Qed.

Lemma cancelled_fields i p p' :
  _playback_tasks p' = _playback_tasks p ->
  _inactivity_timers p' = _inactivity_timers p ->
  tasks p' = tasks p -> cancelled i p -> cancelled i p'.
Proof. unfold cancelled, cancel_requested. intros _ _ ->. auto. Qed.

Lemma cancelled_cancel_timer i g p :
  cancelled i p -> cancelled i (cancel_and_remove_timer g p).
Proof.
  unfold cancelled. rewrite !cancel_requested_inv. intros (t & Ht & Hs).
  unfold cancel_and_remove_timer.
  destruct (_inactivity_timers p !! g); cbn; [|eauto].
  eapply cancel_requested_cancel; eauto.
Qed.

Lemma cancelled_cancel_playback i g p :
  cancelled i p -> cancelled i (cancel_and_remove_playback g p).
Proof.
  unfold cancelled. rewrite !cancel_requested_inv. intros (t & Ht & Hs).
  unfold cancel_and_remove_playback.
  destruct (_playback_tasks p !! g); cbn; [|eauto].
  eapply cancel_requested_cancel; eauto.
Qed.

Lemma cancelled_register_playback i g p :
  cancelled i p -> _playback_tasks p !! g = None -> cancelled i (register_playback g p).
Proof.
  unfold cancelled. rewrite !cancel_requested_inv. intros (t & Ht & Hs) _.
  exists t. split; [|exact Hs]. unfold register_playback. cbn.
  rewrite lookup_app_l; [exact Ht|]. eapply lookup_lt_Some, Ht.
Qed.

(** [cancel_and_remove_timer] does what its name says. *)
Lemma cancel_and_remove_timer_spec g p :
  timer_cancelled_and_removed g p (cancel_and_remove_timer g p).
Proof.
  split; [apply cancel_and_remove_timer_lookup|].
  intros i t Hi Ht Hp. apply cancel_requested_inv.
  unfold cancel_and_remove_timer. rewrite Hi. cbn.
  eapply cancel_self_requested; eauto.
Qed.

Lemma reset_inactivity_timer_cancels g now p :
  timer_cancelled_and_removed g p (_reset_inactivity_timer g now p).
Proof.
  destruct (cancel_and_remove_timer_spec g p) as [Hn Hc].
  split; [exact Hn|]. intros i t Hi Ht Hp. exact (Hc i t Hi Ht Hp).
Qed.

(** Once the guild's timer is cancelled and removed, the rest of an
    operation leaves it so. *)
Lemma cancelled_and_removed_kept {A} g p0 (m : M A) s :
  (forall I : PlayerState -> Prop,
     (forall p p', _playback_tasks p' = _playback_tasks p ->
                   _inactivity_timers p' = _inactivity_timers p ->
                   tasks p' = tasks p -> I p -> I p') ->
     (forall g p, I p -> I (cancel_and_remove_timer g p)) ->
     (forall g p, I p -> I (cancel_and_remove_playback g p)) ->
     (forall g p, I p -> _playback_tasks p !! g = None -> I (register_playback g p)) ->
     keeps I m) ->
  timer_cancelled_and_removed g p0 (player s) ->
  timer_cancelled_and_removed g p0 (player (m s).2).
Proof.
  intros Hkeeps [Hn Hc]. split.
  - apply (Hkeeps (no_timer g)).
    + apply no_timer_fields.
    + intros; now apply no_timer_cancel_timer.
    + intros; now apply no_timer_cancel_playback.
    + intros; now apply no_timer_register_playback.
    + exact Hn.
  - intros i t Hi Ht Hp. apply (Hkeeps (cancelled i)).
    + apply cancelled_fields.
    + intros; now apply cancelled_cancel_timer.
    + intros; now apply cancelled_cancel_playback.
    + intros; now apply cancelled_register_playback.
    + exact (Hc i t Hi Ht Hp).
Qed.

Lemma reset_inactivity_timer_run g s s' :
  reset_inactivity_timer g s = (Ret tt, s') ->
  timer_cancelled_and_removed g (player s) (player s').
Proof.
  unfold reset_inactivity_timer. unfold_run. cbn.
  destruct (oracle Time (world s)) as [[now|e] w]; cbn; [|discriminate].
  intros E. injection E as <-. cbn.
  exact (reset_inactivity_timer_cancels g now (player s)).
Qed.

Lemma connect_cancels_timer member s msg s' :
  connect_to_user_channel member s = (Ret (true, msg), s') ->
  timer_cancelled_and_removed (member_guild_id member) (player s) (player s').
Proof.
  unfold connect_to_user_channel.
  destruct (member_voice_channel member) as [[channel []]|]; cbn; try discriminate.
  unfold bind at 1. unfold do at 1.
  destruct (oracle (VmConnectToVoiceChannel channel) (world s)) as [[[]|e] w];
    cbn; try discriminate.
  unfold bind.
  destruct (reset_inactivity_timer _ _) as [[[]|e] s1] eqn:E; cbn; [|discriminate].
  intros E'. injection E' as _ <-.
  exact (reset_inactivity_timer_run _ _ _ E).
Qed.

Lemma start_playback_cancels_timer g s s' :
  _playback_tasks (player s) !! g = None ->
  start_playback g s = (Ret tt, s') ->
  timer_cancelled_and_removed g (player s) (player s').
Proof.
  intros Hg. unfold start_playback, bind at 1, get_player. rewrite Hg.
  unfold bind.
  destruct (reset_inactivity_timer g s) as [[[]|e] s1] eqn:E; cbn; [|discriminate].
  intros E'. injection E' as <-. cbn.
  destruct (reset_inactivity_timer_run _ _ _ E) as [Hn Hc].
  split; [exact Hn|]. intros i t Hi Ht Hp.
  apply cancelled_register_playback; [eapply Hc; eauto|].
  revert E. unfold reset_inactivity_timer. unfold_run. cbn.
  destruct (oracle Time (world s)) as [[now|e] w]; cbn; [|discriminate].
  intros E. injection E as <-. cbn. now rewrite cancel_and_remove_timer_playback.
Qed.
Lemma add_song_cancels_timer url requester s position msg s' :
  add_song_to_queue url requester s = (Ret (true, position, msg), s') ->
  timer_cancelled_and_removed (member_guild_id requester) (player s) (player s').
Proof.
  set (g := member_guild_id requester).
  unfold add_song_to_queue, try_except.
  destruct (add_song_to_queue_body url requester s) as [[r|e] s0] eqn:Eb;
    [|cbn; discriminate].
  intros E. injection E as -> ->. revert Eb.
  unfold add_song_to_queue_body.
  destruct (detect_audio_source_type url) as [source_type|]; [|cbn; discriminate].
  unfold add_song_of_source. fold g. unfold bind at 1.
  match goal with
  | |- context [match source_type with YOUTUBE => ?a | CATBOX => ?b end] =>
      set (m := match source_type with YOUTUBE => a | CATBOX => b end)
  end.
  assert (Hp1 : player (m s).2 = player s).
  { assert (Hk : keeps (fun p => p = player s) m).
    { subst m. destruct source_type;
        repeat first [ keeps_step | apply keeps_youtube_extract | apply keeps_catbox_extract ]. }
    exact (Hk s eq_refl). }
  destruct (m s) as [[info|e] s1]; [|cbn; discriminate]. cbn in Hp1.
  destruct info as [unified_audio_info|]; [|cbn; discriminate].
  unfold bind at 1. unfold get_queue_manager at 1, modify_player at 1.
  unfold bind at 1. unfold do at 1. cbn [world player log].
  destruct (oracle (QmAddSong g unified_audio_info requester) (world s1)) as [[pos|e] w2];
    [|cbn; discriminate].
  unfold bind at 1.
  destruct (reset_inactivity_timer g _) as [[[]|e] s3] eqn:Er; [|cbn; discriminate].
  apply reset_inactivity_timer_run in Er. cbn [player] in Er. rewrite Hp1 in Er.
  assert (Hr : timer_cancelled_and_removed g (player s) (player s3)).
  { destruct Er as [Hn Hc]. split; [exact Hn|]. intros i t Hi Ht Hp. eapply Hc; eauto. }
  clear Er.
  unfold bind at 1. unfold do at 1.
  destruct (oracle (VmIsPlaying g) (world s3)) as [[playing|e] w4]; [|cbn; discriminate].
  unfold bind at 1.
  match goal with |- context [(if negb playing then ?a else ?b) ?s4] =>
    assert (Hk : timer_cancelled_and_removed g (player s)
                   (player ((if negb playing then a else b) s4).2));
    [ apply cancelled_and_removed_kept; [|exact Hr];
      intros I HI1 HI2 HI3 HI4; destruct (negb playing);
      [apply keeps_start_playback; assumption | apply keeps_ret]
    | destruct ((if negb playing then a else b) s4) as [[[]|e] s5] ]
  end.
  2:{ cbn; discriminate. }
  cbn. intros E. injection E as _ _ <-. exact Hk.
Qed.
End ActivityFacts.

(** ** Cleaning up, the inactivity timer and the playback loop *)

Lemma file_calls_no_disconnect l :
  Forall (fun e => is_file_call (ev_call e) = true) l -> disconnects l = [].
Proof.
  induction 1 as [|e l He _ IH]; [reflexivity|].
  unfold disconnects in *. cbn. rewrite IH.
  destruct (ev_call e); try discriminate He; reflexivity.
Qed.

Lemma disconnects_app l1 l2 : disconnects (l1 ++ l2) = disconnects l1 ++ disconnects l2.
Proof. apply omap_app. Qed.

Section TimerFacts.
Context `{Environment}.
Import MusicPlayer.
Local Arguments _cleanup_guild_state : simpl never.
Local Arguments _cleanup_current_audio : simpl never.
Local Arguments playback_loop_while : simpl never.

Lemma cleanup_current_audio_spec (guild_id : Z) (s : state) :
  exists s' new,
    _cleanup_current_audio guild_id s = (Ret tt, s')
    /\ player s' = set_current_audio_files (delete guild_id) (player s)
    /\ log s' = log s ++ new
    /\ Forall (fun e => is_file_call (ev_call e) = true) new
    /\ removed_files new ⊆
         match _current_audio_files (player s) !! guild_id with
         | Some file_path => if is_local_file file_path then [file_path] else []
         | None => []
         end.
Proof.
  unfold _cleanup_current_audio, YouTubeClient.cleanup_file.
  unfold_run. cbn.
  destruct (_current_audio_files (player s) !! guild_id) as [file_path|] eqn:Hf.
  - destruct (is_local_file file_path) eqn:Hl; cbn.
    + repeat (first [ next_call | next_test ]).
      all: rewrite <- ?app_assoc; cbn [app].
      all: do 2 eexists; split; [reflexivity|].
      all: split; [reflexivity|]. all: split; [reflexivity|].
      all: split; [repeat constructor | cbn; set_solver].
    + do 2 eexists. split; [reflexivity|]. split; [reflexivity|].
      split; [symmetry; apply app_nil_r|]. split; [constructor | cbn; set_solver].
  - do 2 eexists. split; [reflexivity|]. cbn.
    split.
    { destruct (player s); cbn in *. unfold set_current_audio_files. cbn.
      now rewrite delete_id. }
    split; [symmetry; apply app_nil_r|]. split; [constructor | cbn; set_solver].
Qed.

Lemma cleanup_guild_state_spec (guild_id : Z) (s : state) :
  exists s' new,
    _cleanup_guild_state guild_id s = (Ret tt, s')
    /\ player s' = cleaned_up guild_id (player s)
    /\ log s' = log s ++ new
    /\ Forall (fun e => is_file_call (ev_call e) = true) new.
Proof.
  unfold _cleanup_guild_state. unfold bind at 1. unfold modify_player at 1.
  unfold bind at 1.
  match goal with |- context [_cleanup_current_audio ?g ?s0] =>
    destruct (cleanup_current_audio_spec g s0) as (s1 & new & E & Hp & Hl & Hf & _) end.
  rewrite E. unfold_run. cbn. do 2 eexists. split; [reflexivity|]. cbn.
  split; [|split; [exact Hl|exact Hf]].
  rewrite Hp. reflexivity.
Qed.

Lemma inactivity_timer_task_spec (guild_id timeout_seconds : Z) (timer : nat) (s : state) :
  exists s' new,
    _inactivity_timer_task guild_id timeout_seconds timer s = (Ret tt, s')
    /\ log s' = log s ++ new
    /\ (exists rest, calls new = Sleep timeout_seconds :: rest)
    /\ _inactivity_timers (player s') !! guild_id = None
    /\ (forall g, g ∈ disconnects new ->
          g = guild_id
          /\ cancel_requested timer (player s) = false
          /\ exists w1 w2 w3,
               oracle (Sleep timeout_seconds) (world s) = (Ret tt, w1)
               /\ oracle (VmIsConnected guild_id) w1 = (Ret true, w2)
               /\ oracle (VmIsPlaying guild_id) w2 = (Ret false, w3)).
Proof.
  unfold _inactivity_timer_task. unfold_run. cbn.
  repeat (first [ next_call | next_test ]).
  all: try (match goal with |- context [_cleanup_guild_state ?g ?s0] =>
              destruct (cleanup_guild_state_spec g s0) as (s1 & new & Ecl & Hp & Hl & Hf);
              rewrite Ecl; cbn in Hl; cbn; rewrite ?Hl
            end; next_call).
  all: rewrite <- ?app_assoc; cbn [app].
  all: repeat match goal with
         | a : resp _ |- _ => progress cbn in a
         | a : unit |- _ => destruct a
         end.
  all: do 2 eexists; (split; [reflexivity|]); cbn.
  all: split; [reflexivity|].
  all: split; [eexists; reflexivity|].
  all: split; [apply lookup_delete_eq|].
  all: intros g Hg.
  all: try (cbn in Hg; apply elem_of_nil in Hg; contradiction).
  all: split;
    [ change (?a :: ?b :: ?c :: new ++ ?d) with ([a; b; c] ++ new ++ d) in Hg;
      rewrite !disconnects_app, (file_calls_no_disconnect new Hf) in Hg; cbn in Hg;
      apply list_elem_of_singleton in Hg; exact Hg |].
  all: split; [reflexivity|].
  all: repeat match goal with
         | a : resp _ |- _ => cbn in a
         | a : unit |- _ => destruct a
         | Hn : negb ?b = true |- _ => apply negb_true_iff in Hn; subst b
         end.
  all: do 3 eexists; repeat split; eassumption.
Qed.

(** However the loop ends, its [finally] leaves neither a playback task
    nor an audio file entered for the guild. *)
Lemma playback_loop_cleans_up (fuel : nat) (guild_id : Z) (s : state) :
  exists r s',
    _playback_loop fuel guild_id s = (Ret r, s')
    /\ _current_audio_files (player s') !! guild_id = None
    /\ _playback_tasks (player s') !! guild_id = None.
Proof.
  unfold _playback_loop. unfold bind at 1. unfold get_queue_manager, modify_player at 1.
  unfold try_finally.
  match goal with |- context [try_except ?b ?h ?s0] =>
    assert (Hr : exists r s1, try_except b h s0 = (Ret r, s1));
    [ unfold try_except; destruct (b s0) as [[r|e] s1]; cbn; eauto
    | destruct Hr as (r & s1 & Er); rewrite Er ]
  end.
  unfold bind at 1. unfold modify_player at 1.
  match goal with |- context [_cleanup_current_audio ?g ?s0] =>
    destruct (cleanup_current_audio_spec g s0) as (s2 & new & Ecl & Hp & _)
  end.
  rewrite Ecl. exists r, s2. split; [reflexivity|]. rewrite Hp. cbn.
  split; apply lookup_delete_eq.
Qed.

(** C7. The inactivity timer task never raises and sleeps first; it
    disconnects only its own guild, and only when it was not cancelled,
    its sleep of the full timeout returned, and the voice manager then
    answered that the bot is connected and is not playing. Resetting the
    timer cancels the guild's pending timer and removes its entry, and so
    does every successful [add_song_to_queue] and
    [connect_to_user_channel] and every [_start_playback] that starts a
    task. *)
Theorem auto_disconnect_only_when_idle :
  (forall guild_id timeout_seconds timer s,
     exists s' new,
       _inactivity_timer_task guild_id timeout_seconds timer s = (Ret tt, s')
       /\ log s' = log s ++ new
       /\ (exists rest, calls new = Sleep timeout_seconds :: rest)
       /\ _inactivity_timers (player s') !! guild_id = None
       /\ (forall g, g ∈ disconnects new ->
             g = guild_id
             /\ cancel_requested timer (player s) = false
             /\ exists w1 w2 w3,
                  oracle (Sleep timeout_seconds) (world s) = (Ret tt, w1)
                  /\ oracle (VmIsConnected guild_id) w1 = (Ret true, w2)
                  /\ oracle (VmIsPlaying guild_id) w2 = (Ret false, w3)))
  /\ (forall g now p,
        timer_cancelled_and_removed g p (_reset_inactivity_timer g now p))
  /\ (forall url requester s position msg s',
        add_song_to_queue url requester s = (Ret (true, position, msg), s') ->
        timer_cancelled_and_removed (member_guild_id requester) (player s) (player s'))
  /\ (forall member s msg s',
        connect_to_user_channel member s = (Ret (true, msg), s') ->
        timer_cancelled_and_removed (member_guild_id member) (player s) (player s'))
  /\ (forall g s s',
        _playback_tasks (player s) !! g = None ->
        start_playback g s = (Ret tt, s') ->
        timer_cancelled_and_removed g (player s) (player s')).
Proof.
  split; [exact inactivity_timer_task_spec|].
  split; [exact reset_inactivity_timer_cancels|].
  split; [exact add_song_cancels_timer|].
  split; [exact connect_cancels_timer|exact start_playback_cancels_timer].
Qed.

End TimerFacts.

(** ** Failures are reported in the result *)
Section SpecRules.
Context `{Environment}.

Lemma never_raises_ret {A} (a : A) : never_raises (ret a).
Proof. intros s. now exists a, s. Qed.

Lemma never_raises_tell_then {A} m (k : M A) :
  never_raises k -> never_raises (bind (tell m) (fun _ => k)).
Proof. intros Hk s. unfold bind, tell. apply Hk. Qed.

Lemma never_raises_try_except {A} (body : M A) handler :
  (forall e, never_raises (handler e)) -> never_raises (try_except body handler).
Proof.
  intros Hh s. unfold try_except. destruct (body s) as [[a|e] s'].
  - now exists a, s'.
  - apply Hh.
Qed.

Lemma returns_ret {A} (a : A) (Q : A -> Prop) : Q a -> returns (ret a) Q.
Proof. intros HQ s a' s' E. injection E as <- _. exact HQ. Qed.

Lemma returns_raise {A} e (Q : A -> Prop) : returns (raise e) Q.
Proof. intros s a s' E. discriminate E. Qed.

Lemma returns_bind {A B} (m : M A) (f : A -> M B) (Q : B -> Prop) :
  (forall a, returns (f a) Q) -> returns (bind m f) Q.
Proof.
  intros Hf s b s' E. unfold bind in E. destruct (m s) as [[a|e] s1].
  - exact (Hf a s1 b s' E).
  - discriminate E.
Qed.

Lemma returns_try_except {A} (body : M A) handler (Q : A -> Prop) :
  returns body Q -> (forall e, returns (handler e) Q) ->
  returns (try_except body handler) Q.
Proof.
  intros Hb Hh s a s' E. unfold try_except in E.
  destruct (body s) as [[a1|e] s1] eqn:Eb.
  - injection E as <- <-. exact (Hb s a1 s1 Eb).
  - exact (Hh e s1 a s' E).
Qed.

Lemma try_except_raised {A} (body : M A) handler s e s' :
  body s = (Raise e, s') -> try_except body handler s = handler e s'.
Proof. intros E. unfold try_except. now rewrite E. Qed.
End SpecRules.

Ltac returns_step :=
  lazymatch goal with
  | |- returns (ret _) _ => apply returns_ret
  | |- returns (raise _) _ => apply returns_raise
  | |- returns (bind _ _) _ => apply returns_bind; intros
  | |- returns (try_except _ _) _ => apply returns_try_except; [|intros]
  | |- returns (match ?x with _ => _ end) _ => destruct x eqn:?
  | |- returns (if ?b then _ else _) _ => destruct b eqn:?
  end.

Ltac failure_shape :=
  lazymatch goal with
  | |- failure3 _ =>
      unfold failure3; cbn; intros Hf;
      first [ discriminate Hf | split; [reflexivity|eexists; reflexivity] ]
  | |- failure2 _ =>
      unfold failure2; cbn; intros Hf;
      first [ discriminate Hf | eexists; reflexivity ]
  end.

Ltac returns_tac := repeat returns_step; try failure_shape.

Section ReportFacts.
Context `{Environment}.
Import MusicPlayer.

Lemma add_song_to_queue_reports url requester :
  reports3 (add_song_to_queue url requester) (add_song_to_queue_body url requester).
Proof.
  split; [|split].
  - apply never_raises_try_except. intros e. apply never_raises_ret.
  - unfold add_song_to_queue, add_song_to_queue_body, add_song_of_source. returns_tac.
  - intros s e s' E. unfold add_song_to_queue. rewrite (try_except_raised _ _ _ _ _ E).
    do 2 eexists. reflexivity.
Qed.

Lemma skip_current_song_reports guild_id :
  reports3 (skip_current_song guild_id) (skip_current_song_body guild_id).
Proof.
  split; [|split].
  - apply never_raises_try_except. intros e. apply never_raises_ret.
  - unfold skip_current_song, skip_current_song_body. returns_tac.
  - intros s e s' E. unfold skip_current_song. rewrite (try_except_raised _ _ _ _ _ E).
    do 2 eexists. reflexivity.
Qed.

Lemma jump_to_position_reports guild_id position :
  reports3 (jump_to_position guild_id position) (jump_to_position_body guild_id position).
Proof.
  split; [|split].
  - apply never_raises_try_except. intros e. apply never_raises_ret.
  - unfold jump_to_position, jump_to_position_body. returns_tac.
  - intros s e s' E. unfold jump_to_position. rewrite (try_except_raised _ _ _ _ _ E).
    do 2 eexists. reflexivity.
Qed.

Lemma stop_playback_reports guild_id :
  reports2 (stop_playback guild_id) (stop_playback_body guild_id).
Proof.
  split; [|split].
  - apply never_raises_try_except. intros e. apply never_raises_ret.
  - unfold stop_playback, stop_playback_body. returns_tac.
  - intros s e s' E. unfold stop_playback. rewrite (try_except_raised _ _ _ _ _ E).
    do 2 eexists. reflexivity.
Qed.

Lemma seek_to_position_reports guild_id time_str :
  reports2 (seek_to_position guild_id time_str) (seek_to_position_body guild_id time_str).
Proof.
  split; [|split].
  - apply never_raises_try_except. intros e. apply never_raises_ret.
  - unfold seek_to_position, seek_to_position_body. returns_tac.
  - intros s e s' E. unfold seek_to_position. rewrite (try_except_raised _ _ _ _ _ E).
    do 2 eexists. reflexivity.
Qed.

Lemma validate_audio_file_reports url :
  reports3 (CatboxClient.validate_audio_file url) (CatboxClient.validate_audio_file_body url).
Proof.
  unfold CatboxClient.validate_audio_file.
  destruct (negb (CatboxClient.is_catbox_url url)).
  { split; [apply never_raises_ret|split].
    - returns_tac.
    - intros s e s' _. do 2 eexists. reflexivity. }
  split; [|split].
  - apply never_raises_try_except. intros e. apply never_raises_tell_then, never_raises_ret.
  - unfold CatboxClient.validate_audio_file_body. returns_tac.
  - intros s e s' E. rewrite (try_except_raised _ _ _ _ _ E).
    do 2 eexists. reflexivity.
Qed.

Lemma download_audio_reports url :
  reports3 (YouTubeClient.download_audio url) (YouTubeClient.download_audio_body url).
Proof.
  unfold YouTubeClient.download_audio.
  destruct (negb (YouTubeClient.is_youtube_url url)).
  { split; [apply never_raises_ret|split].
    - returns_tac.
    - intros s e s' _. do 2 eexists. reflexivity. }
  split; [|split].
  - apply never_raises_try_except. intros e.
    destruct (exc_class_eqb (e_class e) PytubeFixError);
      [destruct (YouTubeClient._is_bot_detection_error (e_msg e))|];
      apply never_raises_tell_then, never_raises_ret.
  - unfold YouTubeClient.download_audio_body. returns_tac.
  - intros s e s' E. rewrite (try_except_raised _ _ _ _ _ E).
    destruct (exc_class_eqb (e_class e) PytubeFixError);
      [destruct (YouTubeClient._is_bot_detection_error (e_msg e))|];
      do 2 eexists; reflexivity.
Qed.

(** C3, as amended. Each of the seven operations never raises; a result
    with [success = False] carries a message (and no value); and whenever
    an exception reaches the operation's own handler, that is whenever
    the body of its [try] raises, the result is such a failure. *)
Theorem failures_are_returned :
  (forall url requester,
     reports3 (add_song_to_queue url requester) (add_song_to_queue_body url requester))
  /\ (forall guild_id,
        reports3 (skip_current_song guild_id) (skip_current_song_body guild_id))
  /\ (forall guild_id,
        reports2 (stop_playback guild_id) (stop_playback_body guild_id))
  /\ (forall guild_id position,
        reports3 (jump_to_position guild_id position)
          (jump_to_position_body guild_id position))
  /\ (forall guild_id time_str,
        reports2 (seek_to_position guild_id time_str)
          (seek_to_position_body guild_id time_str))
  /\ (forall url,
        reports3 (CatboxClient.validate_audio_file url)
          (CatboxClient.validate_audio_file_body url))
  /\ (forall url,
        reports3 (YouTubeClient.download_audio url)
          (YouTubeClient.download_audio_body url)).
Proof.
  split; [exact add_song_to_queue_reports|].
  split; [exact skip_current_song_reports|].
  split; [exact stop_playback_reports|].
  split; [exact jump_to_position_reports|].
  split; [exact seek_to_position_reports|].
  split; [exact validate_audio_file_reports|exact download_audio_reports].
Qed.

(** C6. A URL that is neither a YouTube nor a Catbox URL has no source
    type, and [add_song_to_queue] returns the unsupported-format failure
    with nothing called and nothing changed, the guild's queue included;
    a URL that is one of the two has a source type, and
    [add_song_to_queue] goes on with what follows the check. *)
Theorem only_youtube_and_catbox_urls (url : string) (requester : Member) (s : state) :
  (YouTubeClient.is_youtube_url url = false ->
   CatboxClient.is_catbox_url url = false ->
   detect_audio_source_type url = None
   /\ add_song_to_queue url requester s
      = (Ret (false, None, Some unsupported_url_message), s)
   /\ PyStr.has_substring "Unsupported URL format" unsupported_url_message = true)
  /\ (YouTubeClient.is_youtube_url url = true \/ CatboxClient.is_catbox_url url = true ->
      exists source_type,
        detect_audio_source_type url = Some source_type
        /\ add_song_to_queue url requester s
           = try_except (add_song_of_source source_type url requester)
               (fun e => ret (false, None,
                              Some ("Error adding song to queue: " +:+ e_msg e))) s).
Proof.
  unfold add_song_to_queue, add_song_to_queue_body, detect_audio_source_type.
  split.
  - intros Hy Hc. rewrite Hy, Hc. repeat split; reflexivity.
  - intros [Hy|Hc].
    + rewrite Hy. eexists. split; reflexivity.
    + rewrite Hc. destruct (YouTubeClient.is_youtube_url url);
        eexists; split; reflexivity.
Qed.

End ReportFacts.

(** C3, as stated, fails. With the file of the current song entered for
    the guild and [os.remove] raising, [skip_current_song] returns
    [(True, "Song", None)]: the exception is caught in [cleanup_file], so
    an internal step raised and yet the result is a success without a
    message. And [connect_to_user_channel], a public operation that has no
    handler, lets the exception of [connect_to_voice_channel] through. *)
Lemma skip_succeeds_though_remove_raises :
  In (mkEvent (OsRemove "./temp/Song.m4a")
        (Some (mkExn OtherException "Permission denied")))
     (log (@MusicPlayer.skip_current_song faulty guild
             (start_state faulty 0%nat loaded_player)).2)
  /\ (@MusicPlayer.skip_current_song faulty guild
        (start_state faulty 0%nat loaded_player)).1
     = Ret (true, Some "Song", None)
  /\ (@MusicPlayer.connect_to_user_channel faulty listener
        (start_state faulty 0%nat fresh_player)).1
     = Raise (mkExn OtherException "Timed out").
Proof. vm_compute. split; [|split; reflexivity]. right. right. right. left. reflexivity. Qed.

(** ** Examples *)


(** A URL of neither kind is refused and nothing is called. *)
Example add_song_unsupported_url :
  @MusicPlayer.add_song_to_queue online "ftp://example.org/a.mp3" listener (start_state online 0%nat fresh_player)
  = (Ret (false, None, Some MusicPlayer.unsupported_url_message), start_state online 0%nat fresh_player).
Proof.
  apply (@only_youtube_and_catbox_urls online "ftp://example.org/a.mp3" listener
           (start_state online 0%nat fresh_player)); reflexivity.
Defined.

(** A YouTube URL passes the check: with YouTube refusing the client, the
    failure is the extraction's, after one construction. *)
Example add_song_youtube_url_offline :
  let '(r, s') := @MusicPlayer.add_song_to_queue offline "https://youtu.be/abc" listener
                    (start_state offline 0%nat fresh_player) in
  r = Ret (false, None, Some "Failed to extract audio information from URL")
  /\ youtube_ctors (log s') = 1%nat.
Proof. vm_compute. split; reflexivity. Qed.

(** With the queue manager raising, [skip_current_song] returns the error. *)
Example skip_current_song_reports_error :
  (@MusicPlayer.skip_current_song broken_queue guild (start_state broken_queue 0%nat fresh_player)).1
  = Ret (false, None, Some "Error skipping song: queue is gone").
Proof. vm_compute. reflexivity. Qed.

(** Connected and not playing: the timer, left alone, disconnects. *)
Example timer_disconnects_when_idle :
  disconnects
    (log (@MusicPlayer._inactivity_timer_task online guild 300 0
            (start_state online 0%nat idle_player)).2) = [guild].
Proof. vm_compute. reflexivity. Qed.

(** After a reset the cancelled timer does not disconnect. *)
Example cancelled_timer_does_not_disconnect :
  disconnects
    (log (@MusicPlayer._inactivity_timer_task online guild 300 0
            (start_state online 0%nat
               (MusicPlayer._reset_inactivity_timer guild 0 idle_player))).2) = [].
Proof. vm_compute. reflexivity. Qed.

(** While a song plays the timer does not disconnect. *)
Example timer_does_not_disconnect_while_playing :
  disconnects
    (log (@MusicPlayer._inactivity_timer_task playing guild 300 0
            (start_state playing 0%nat idle_player)).2) = [].
Proof. vm_compute. reflexivity. Qed.

(** The seek formats of the command help: seconds, [mm:ss], [hh:mm:ss],
    with or without a sign. *)
Example parse_seek_time_formats :
  SeekManager.parse_seek_time "1:30"
  = Ret (SeekManager.mkSeekResult true (Some 90%Q) None)
  /\ SeekManager.parse_seek_time "2:15:45"
     = Ret (SeekManager.mkSeekResult true (Some 8145%Q) None)
  /\ SeekManager.parse_seek_time "+30"
     = Ret (SeekManager.mkSeekResult true (Some 30%Q) None)
  /\ SeekManager.parse_seek_time "-1:00"
     = Ret (SeekManager.mkSeekResult true (Some (-60)%Q) None)
  /\ SeekManager.parse_seek_time "99:99"
     = Ret (SeekManager.mkSeekResult false None
              (Some "Minutes must be less than 60: 99"))
  /\ SeekManager.parse_seek_time "1:5"
     = Ret (SeekManager.mkSeekResult false None
              (Some "Invalid time format: 1:5")).
Proof. vm_compute. repeat split. Qed.

(** Times are shown as [mm:ss] below one hour and as [hh:mm:ss] from it. *)
Example format_time_shapes :
  SeekManager.format_time (inject_Z 3599) = "59:59"
  /\ SeekManager.format_time (inject_Z 3600) = "01:00:00"
  /\ SeekManager.format_time (7 # 2) = "00:03".
Proof. vm_compute. repeat split. Qed.

(** The YouTube patterns are anchored at the start of the URL. *)
Example is_youtube_url_anchored :
  YouTubeClient.is_youtube_url "https://m.youtube.com/watch?v=abc" = false
  /\ YouTubeClient.is_youtube_url "http://www.youtube.com/v/a-b_c" = true
  /\ YouTubeClient.is_youtube_url "xhttps://youtu.be/abc" = false.
Proof. vm_compute. repeat split. Qed.

(** * Further properties *)

(** ** [SeekManager]: outcomes, relative seeks and round trips *)

Section MoreSeekFacts.
Import PyStr Re SeekManager.

Lemma int_raises_ValueError s e : int s = Raise e -> e_class e = ValueError.
Proof.
  unfold int. 
  assert (Hb : forall (neg : bool) t,
    match int_digits false 0 0 t with
    | Some (v, n) =>
        if (n <=? int_max_str_digits)%nat then Ret (if neg then - v else v)
        else Raise (mkExn ValueError "Exceeds the limit for integer string conversion")
    | None => Raise (mkExn ValueError ("invalid literal for int() with base 10: " +:+ s))
    end = Raise e -> e_class e = ValueError).
  { intros neg t. destruct (int_digits false 0 0 t) as [[v n]|].
    - destruct (n <=? int_max_str_digits)%nat; intros E; inversion E; reflexivity.
    - intros E; inversion E; reflexivity. }
  cbv zeta. destruct (strip s) as [|c t].
  - intros E; inversion E; reflexivity.
  - destruct (Ascii.eqb c "-"); [exact (Hb true t)|].
    destruct (Ascii.eqb c "+"); [exact (Hb false t)|exact (Hb false (String c t))].
Qed.

Lemma float_of_int_raises n e : float_of_int n = Raise e -> e_class e = OverflowError.
Proof. unfold float_of_int. destruct (_ <? _); intros E; inversion E; reflexivity. Qed.


Lemma failure_well_formed msg : well_formed (mkSeekResult false None (Some msg)).
Proof. right. repeat split. eexists; reflexivity. Qed.

Lemma success_well_formed p : well_formed (mkSeekResult true (Some p) None).
Proof. left. repeat split. eexists; reflexivity. Qed.

Lemma parse_time_components_outcome sign hours minutes seconds is_relative :
  outcome_ok (_parse_time_components sign hours minutes seconds is_relative).
Proof.
  unfold _parse_time_components.
  destruct (if truthy hours then int (str_or_empty hours) else Ret 0) as [h|e] eqn:Eh; cbn.
  2:{ assert (e_class e = ValueError) as ->.
      { destruct (truthy hours); [now apply int_raises_ValueError in Eh|discriminate]. }
      cbn. apply failure_well_formed. }
  destruct (int minutes) as [m|e] eqn:Em; cbn.
  2:{ rewrite (int_raises_ValueError _ _ Em). cbn. apply failure_well_formed. }
  destruct (int seconds) as [s|e] eqn:Es; cbn.
  2:{ rewrite (int_raises_ValueError _ _ Es). cbn. apply failure_well_formed. }
  destruct (60 <=? m); [apply failure_well_formed|].
  destruct (60 <=? s); [apply failure_well_formed|].
  destruct ((h <? 0) || (m <? 0) || (s <? 0)); [apply failure_well_formed|].
  match goal with |- context [float_of_int ?x] =>
    destruct (float_of_int x) as [p|e] eqn:Ef end; cbn.
  - apply success_well_formed.
  - rewrite (float_of_int_raises _ _ Ef). cbn. exact (float_of_int_raises _ _ Ef).
Qed.

Lemma parse_seek_time_shape (time_str : string) :
  outcome_ok (parse_seek_time time_str).
Proof.
  unfold parse_seek_time.
  destruct (is_empty (strip time_str)); [apply failure_well_formed|].
  destruct (pmatch 4 TIME_RELATIVE_PATTERN (strip time_str)) as [g|];
    [apply parse_time_components_outcome|].
  destruct (pmatch 3 TIME_ABSOLUTE_PATTERN (strip time_str)) as [g|];
    [apply parse_time_components_outcome|].
  destruct (pmatch 2 TIME_SECONDS_ONLY_PATTERN (strip time_str)) as [g|];
    [|apply failure_well_formed].
  cbv zeta.
  destruct (int (str_or_empty (group g 1))) as [v|e] eqn:Ei; cbn.
  2:{ rewrite (int_raises_ValueError _ _ Ei). cbn. apply failure_well_formed. }
  match goal with |- context [float_of_int ?x] =>
    destruct (float_of_int x) as [p|e] eqn:Ef end; cbn.
  - apply success_well_formed.
  - rewrite (float_of_int_raises _ _ Ef). cbn. exact (float_of_int_raises _ _ Ef).
Qed.

(** X1. [parse_seek_time] ends in one of two ways: it returns a result
    that is a success with a position and no message, or a failure with a
    message and no position; or it raises an [OverflowError]. It raises
    nothing else. *)
Theorem parse_seek_time_outcome (time_str : string) :
  match parse_seek_time time_str with
  | Ret r => well_formed r
  | Raise e => e_class e = OverflowError
  end.
Proof. exact (parse_seek_time_shape time_str). Qed.

(** *** Inputs on which [parse_seek_time] returns *)

Lemma length_lstrip s : (String.length (lstrip s) <= String.length s)%nat.
Proof. induction s as [|c s IH]; cbn; [lia|]. destruct (isspace c); cbn; lia. Qed.

Lemma length_rstrip s : (String.length (rstrip s) <= String.length s)%nat.
Proof.
  induction s as [|c s IH]; cbn; [lia|].
  destruct (is_empty (rstrip s) && isspace c); cbn; lia.
Qed.

Lemma length_strip s : (String.length (strip s) <= String.length s)%nat.
Proof.
  unfold strip. etransitivity; [apply length_rstrip | apply length_lstrip].
Qed.

Lemma digit_value_range c : isdigit c = true -> 0 <= digit_value c <= 9.
Proof.
  unfold isdigit, digit_value. intros Hd.
  apply andb_true_iff in Hd as [H1 H2].
  apply Nat.leb_le in H1, H2. lia.
Qed.

Lemma pow10_succ (k : nat) : 10 ^ Z.of_nat (S k) = 10 * 10 ^ Z.of_nat k.
Proof. rewrite Nat2Z.inj_succ. apply Z.pow_succ_r. lia. Qed.

Lemma pow10_pos (k : nat) : 0 < 10 ^ Z.of_nat k.
Proof. apply Z.pow_pos_nonneg; lia. Qed.

Lemma int_digits_bound s : forall b acc n v n',
  0 <= acc -> int_digits b acc n s = Some (v, n') ->
  0 <= v < (acc + 1) * 10 ^ Z.of_nat (String.length s).
Proof.
  induction s as [|c s IH]; intros b acc n v n' Hacc E.
  - cbn in E. destruct b; [|discriminate]. injection E as <- _.
    change (String.length "") with 0%nat. change (10 ^ Z.of_nat 0) with 1. lia.
  - cbn [int_digits] in E. change (String.length (String c s)) with (S (String.length s)).
    rewrite pow10_succ. pose proof (pow10_pos (String.length s)) as Hp.
    destruct (isdigit c) eqn:Hd.
    + pose proof (digit_value_range c Hd) as Hr.
      apply IH in E; [|lia]. nia.
    + destruct (Ascii.eqb c "_" && b); [|discriminate].
      apply IH in E; [|lia]. nia.
Qed.

Lemma int_bound s v : int s = Ret v -> Z.abs v < 10 ^ Z.of_nat (String.length s).
Proof.
  unfold int. cbv zeta. pose proof (length_strip s) as Hl.
  assert (Hb : forall (neg : bool) t,
    (String.length t <= String.length s)%nat ->
    match int_digits false 0 0 t with
    | Some (v, n) =>
        if (n <=? int_max_str_digits)%nat then Ret (if neg then - v else v)
        else Raise (mkExn ValueError "Exceeds the limit for integer string conversion")
    | None => Raise (mkExn ValueError ("invalid literal for int() with base 10: " +:+ s))
    end = Ret v -> Z.abs v < 10 ^ Z.of_nat (String.length s)).
  { intros neg t Ht. destruct (int_digits false 0 0 t) as [[v' n]|] eqn:Ed; [|discriminate].
    destruct (n <=? int_max_str_digits)%nat; [|discriminate].
    intros E. injection E as <-.
    apply int_digits_bound in Ed; [|lia].
    assert (10 ^ Z.of_nat (String.length t) <= 10 ^ Z.of_nat (String.length s))
      by (apply Z.pow_le_mono_r; lia).
    destruct neg; lia. }
  destruct (strip s) as [|c t]; [discriminate|].
  cbn [String.length] in Hl.
  destruct (Ascii.eqb c "-"); [apply (Hb true t); lia|].
  destruct (Ascii.eqb c "+"); [apply (Hb false t); lia|].
  apply (Hb false (String c t)). cbn [String.length]. lia.
Qed.

Lemma groups_bounded_insert n g i x :
  groups_bounded n g -> (String.length x <= n)%nat ->
  groups_bounded n (<[i := Some x]> g).
Proof.
  intros Hg Hx j y Hj. unfold groups in *.
  apply list_lookup_insert_Some in Hj as [(_ & Heq & _)|(_ & Hj)].
  - now injection Heq as <-.
  - exact (Hg j y Hj).
Qed.

Lemma length_consumed s s' : (String.length (consumed s s') <= String.length s)%nat.
Proof.
  unfold consumed.
  assert (H : forall n t, (String.length (take n t) <= n)%nat).
  { induction n as [|n IH]; intros [|c t]; cbn; try lia. specialize (IH t). lia. }
  etransitivity; [apply H|]. lia.
Qed.

(** Whatever a pattern captures is a piece of the subject string. *)
Lemma rmatch_bounded (n : nat) (r : regex) : forall s g k res,
  (String.length s <= n)%nat -> groups_bounded n g ->
  (forall s' g' res', (String.length s' <= n)%nat -> groups_bounded n g' ->
                      k s' g' = Some res' -> groups_bounded n res') ->
  rmatch r s g k = Some res -> groups_bounded n res.
Proof.
  induction r as [|p|r1 IH1 r2 IH2|lo hi r IH|i r IH|]; intros s g k res Hs Hg Hk E.
  - exact (Hk _ _ _ Hs Hg E).
  - cbn in E. destruct s as [|a s']; [discriminate|].
    destruct (p a); [|discriminate].
    cbn [String.length] in Hs. apply (Hk s' g res); [lia|assumption|assumption].
  - cbn in E. apply (IH1 _ _ _ _ Hs Hg) in E; [exact E|].
    intros s' g' res' Hs' Hg' E'. exact (IH2 _ _ _ _ Hs' Hg' Hk E').
  - cbn [rmatch] in E.
    remember (match hi with Some h => h | None => String.length s end) as fuel eqn:Hf.
    clear Hf. revert lo s g res Hs Hg E.
    induction fuel as [|fuel IHf]; intros lo s g res Hs Hg E.
    + destruct lo; [|discriminate]. exact (Hk _ _ _ Hs Hg E).
    + match type of E with
      | match ?m with _ => _ end = _ => destruct m as [res0|] eqn:Em
      end.
      * injection E as <-.
        apply (IH _ _ _ _ Hs Hg) in Em; [exact Em|].
        intros s' g' res' Hs' Hg' E'. exact (IHf _ _ _ _ Hs' Hg' E').
      * destruct lo; [|discriminate]. exact (Hk _ _ _ Hs Hg E).
  - cbn in E. apply (IH _ _ _ _ Hs Hg) in E; [exact E|].
    intros s' g' res' Hs' Hg' E'.
    apply (Hk _ _ _ Hs') in E'; [exact E'|].
    apply groups_bounded_insert; [exact Hg'|].
    etransitivity; [apply length_consumed|exact Hs].
  - cbn in E. destruct (at_eol s); [|discriminate]. exact (Hk _ _ _ Hs Hg E).
Qed.

Lemma pmatch_bounded k r s g :
  pmatch k r s = Some g -> groups_bounded (String.length s) g.
Proof.
  unfold pmatch. intros E.
  apply (rmatch_bounded (String.length s)) in E; [exact E|lia| |].
  - intros i x Hi. apply lookup_replicate in Hi as [Hi _]. discriminate Hi.
  - intros s' g' res' _ Hg' E'. now injection E' as <-.
Qed.

Lemma group_bounded n g i :
  groups_bounded n g -> (String.length (str_or_empty (group g i)) <= n)%nat.
Proof.
  intros Hg. unfold group, str_or_empty.
  destruct (g !! i) as [[x|]|] eqn:E; cbn; try lia.
  exact (Hg i x E).
Qed.

(** The longest inputs considered below, and the bound they give. *)
Lemma float_of_int_returns_below k v :
  (k <= 300)%nat -> Z.abs v < 3600 * 10 ^ Z.of_nat k + 3600 ->
  exists p, float_of_int v = Ret p.
Proof.
  intros Hk Hv. exists (inject_Z v). apply float_of_int_small.
  assert (10 ^ Z.of_nat k <= 10 ^ 300) by (apply Z.pow_le_mono_r; lia).
  assert (3600 * 10 ^ 300 + 3600 < 2 ^ 1024 - 2 ^ 970) by (vm_compute; reflexivity).
  lia.
Qed.

Lemma parse_time_components_returns n sign hours minutes seconds is_relative :
  (n <= 300)%nat ->
  (String.length (str_or_empty hours) <= n)%nat ->
  exists r, _parse_time_components sign hours minutes seconds is_relative = Ret r.
Proof.
  intros Hn Hh.
  unfold _parse_time_components.
  destruct (if truthy hours then int (str_or_empty hours) else Ret 0) as [h|e] eqn:Eh; cbn.
  2:{ assert (e_class e = ValueError) as ->.
      { destruct (truthy hours); [now apply int_raises_ValueError in Eh|discriminate]. }
      cbn. eauto. }
  assert (Hhb : Z.abs h < 10 ^ Z.of_nat n).
  { destruct (truthy hours).
    - apply int_bound in Eh.
      assert (10 ^ Z.of_nat (String.length (str_or_empty hours)) <= 10 ^ Z.of_nat n)
        by (apply Z.pow_le_mono_r; lia).
      lia.
    - injection Eh as <-. pose proof (pow10_pos n). cbn. lia. }
  destruct (int minutes) as [m|e] eqn:Em; cbn.
  2:{ rewrite (int_raises_ValueError _ _ Em). cbn. eauto. }
  destruct (int seconds) as [s|e] eqn:Es; cbn.
  2:{ rewrite (int_raises_ValueError _ _ Es). cbn. eauto. }
  destruct (60 <=? m) eqn:Hm; [eauto|].
  destruct (60 <=? s) eqn:Hs; [eauto|].
  destruct ((h <? 0) || (m <? 0) || (s <? 0)) eqn:Hneg; [eauto|].
  apply Z.leb_gt in Hm, Hs.
  apply orb_false_iff in Hneg as [Hneg Hs0]. apply orb_false_iff in Hneg as [Hh0 Hm0].
  apply Z.ltb_ge in Hh0, Hm0, Hs0.
  match goal with |- context [float_of_int ?x] =>
    destruct (float_of_int_returns_below n x Hn) as [p Ep] end.
  { pose proof (pow10_pos n).
    destruct (is_relative && bool_decide (sign = Some "-")); lia. }
  rewrite Ep. cbn. eauto.
Qed.

(** X2. On a time string of at most 300 characters [parse_seek_time]
    returns, and its result is well formed. *)
Theorem parse_seek_time_returns (time_str : string) :
  (String.length time_str <= 300)%nat ->
  exists r, parse_seek_time time_str = Ret r /\ well_formed r.
Proof.
  intros Hlen.
  enough (exists r, parse_seek_time time_str = Ret r) as [r Er].
  { exists r. split; [exact Er|].
    pose proof (parse_seek_time_shape time_str) as Ho. now rewrite Er in Ho. }
  pose proof (length_strip time_str) as Hs.
  unfold parse_seek_time.
  destruct (is_empty (strip time_str)); [eauto|].
  destruct (pmatch 4 TIME_RELATIVE_PATTERN (strip time_str)) as [g|] eqn:E1.
  { apply pmatch_bounded in E1.
    apply (parse_time_components_returns (String.length (strip time_str))); [lia|].
    now apply group_bounded. }
  destruct (pmatch 3 TIME_ABSOLUTE_PATTERN (strip time_str)) as [g|] eqn:E2.
  { apply pmatch_bounded in E2.
    apply (parse_time_components_returns (String.length (strip time_str))); [lia|].
    now apply group_bounded. }
  destruct (pmatch 2 TIME_SECONDS_ONLY_PATTERN (strip time_str)) as [g|] eqn:E3; [|eauto].
  apply pmatch_bounded in E3. cbv zeta.
  pose proof (group_bounded _ g 1 E3) as Hg.
  destruct (int (str_or_empty (group g 1))) as [v|e] eqn:Ei; cbn.
  2:{ rewrite (int_raises_ValueError _ _ Ei). cbn. eauto. }
  apply int_bound in Ei.
  match goal with |- context [float_of_int ?x] =>
    destruct (float_of_int_returns_below (String.length (strip time_str)) x) as [p Ep] end.
  { lia. }
  { assert (10 ^ Z.of_nat (String.length (str_or_empty (group g 1)))
            <= 10 ^ Z.of_nat (String.length (strip time_str)))
      by (apply Z.pow_le_mono_r; lia).
    pose proof (pow10_pos (String.length (strip time_str))).
    destruct (bool_decide (group g 0 = Some "-")); lia. }
  rewrite Ep. cbn. eauto.
Qed.

Lemma parse_seek_time_returns_witness :
  exists r, parse_seek_time "+10:30" = Ret r /\ well_formed r.
Proof. apply (parse_seek_time_returns "+10:30"). cbn. lia. Defined.

(** *** Relative and absolute seeks *)

Lemma signed_cons a s :
  signed (String a s) = Ascii.eqb a "+" || Ascii.eqb a "-".
Proof.
  unfold signed. cbn [startswith]. rewrite !andb_true_r.
  now rewrite (Ascii.eqb_sym "+" a), (Ascii.eqb_sym "-" a).
Qed.

Lemma relative_pattern_signed s g :
  pmatch 4 TIME_RELATIVE_PATTERN s = Some g -> signed s = true.
Proof.
  unfold pmatch, TIME_RELATIVE_PATTERN. cbn [rmatch sign_class].
  destruct s as [|a s']; [discriminate|].
  rewrite signed_cons.
  destruct (Ascii.eqb a "+" || Ascii.eqb a "-"); [reflexivity|discriminate].
Qed.

Lemma digit_unsigned a : isdigit a = true -> Ascii.eqb a "+" || Ascii.eqb a "-" = false.
Proof.
  intros Hd. apply isdigit_digit_like in Hd.
  now rewrite (dl_plus _ Hd), (dl_minus _ Hd).
Qed.

Lemma absolute_pattern_unsigned s g :
  pmatch 3 TIME_ABSOLUTE_PATTERN s = Some g -> signed s = false.
Proof.
  destruct s as [|a s']; [reflexivity|].
  rewrite signed_cons. intros E.
  destruct (isdigit a) eqn:Hd; [now apply digit_unsigned|].
  exfalso. unfold pmatch, TIME_ABSOLUTE_PATTERN, Opt, digit in E.
  cbn in E. rewrite Hd in E. cbn in E. rewrite ?Hd in E. discriminate E.
Qed.

Lemma relative_seek_signed s :
  is_relative_seek s = true -> signed (strip s) = true.
Proof.
  unfold is_relative_seek. cbv zeta. intros E.
  apply orb_true_iff in E as [E|E].
  - apply bool_decide_eq_true in E as [g Eg]. exact (relative_pattern_signed _ _ Eg).
  - apply andb_true_iff in E as [_ E]. exact E.
Qed.

Lemma relative_seek_of_success s r :
  parse_seek_time s = Ret r -> success r = true ->
  is_relative_seek s = signed (strip s).
Proof.
  unfold parse_seek_time, is_relative_seek. cbv zeta.
  fold (signed (strip s)).
  destruct (is_empty (strip s)).
  { intros E; injection E as <-; discriminate. }
  destruct (pmatch 4 TIME_RELATIVE_PATTERN (strip s)) as [g|] eqn:E1.
  { intros _ _. rewrite (relative_pattern_signed _ _ E1). reflexivity. }
  destruct (pmatch 3 TIME_ABSOLUTE_PATTERN (strip s)) as [g|] eqn:E2.
  { intros _ _. rewrite (absolute_pattern_unsigned _ _ E2).
    cbn. now rewrite andb_false_r. }
  destruct (pmatch 2 TIME_SECONDS_ONLY_PATTERN (strip s)) as [g|] eqn:E3.
  { intros _ _. reflexivity. }
  intros E; injection E as <-; discriminate.
Qed.

(** X3. [is_relative_seek] accepts only strings that, once stripped,
    start with a sign; and on a string that [parse_seek_time] parses with
    success it is true exactly when the stripped string starts with a sign. *)
Theorem relative_seek_iff_signed (time_str : string) :
  (is_relative_seek time_str = true -> signed (strip time_str) = true)
  /\ (forall r, parse_seek_time time_str = Ret r -> success r = true ->
        is_relative_seek time_str = signed (strip time_str)).
Proof. split; [apply relative_seek_signed | apply relative_seek_of_success]. Qed.

Lemma strip_cons_nonspace c t :
  isspace c = false -> strip (String c t) = String c (rstrip t).
Proof.
  intros Hc. unfold strip. cbn [lstrip]. rewrite Hc. cbn [rstrip].
  now rewrite Hc, andb_false_r.
Qed.

Lemma format_time_starts_with_digit n :
  0 <= n < 360000 ->
  exists c t, format_time (inject_Z n) = String c t /\ digit_like c.
Proof.
  intros Hn. rewrite format_time_of_int by lia.
  assert (Hh : 0 <= n / 3600 < 100)
    by (split; [apply Z.div_pos; lia | apply Z.div_lt_upper_bound; lia]).
  assert (Hm : 0 <= n mod 3600 / 60 < 60).
  { pose proof (Z.mod_pos_bound n 3600 ltac:(lia)).
    split; [apply Z.div_pos; lia | apply Z.div_lt_upper_bound; lia]. }
  destruct (0 <? n / 3600).
  - destruct (pad2_str2 (n / 3600)) as (c1 & c2 & E & D1 & _); [lia|].
    rewrite E. eexists c1, _. split; [reflexivity|exact D1].
  - destruct (pad2_str2 (n mod 3600 / 60)) as (c1 & c2 & E & D1 & _); [lia|].
    rewrite E. eexists c1, _. split; [reflexivity|exact D1].
Qed.

(** X4. For a whole number of seconds below 100 hours, the string that
    [format_time] gives is parsed back by [parse_seek_time] to that number,
    and [is_relative_seek] takes it for an absolute position. *)
Theorem format_time_parses_back (n : Z) :
  0 <= n < 360000 ->
  parse_seek_time (format_time (inject_Z n))
  = Ret (mkSeekResult true (Some (inject_Z n)) None)
  /\ is_relative_seek (format_time (inject_Z n)) = false.
Proof.
  intros Hn. pose proof (parse_format_roundtrip n Hn) as Hp.
  split; [exact Hp|].
  rewrite (relative_seek_of_success _ _ Hp eq_refl).
  destruct (format_time_starts_with_digit n Hn) as (c & t & E & D).
  rewrite E, strip_cons_nonspace by exact (dl_space _ D).
  rewrite signed_cons. now rewrite (dl_plus _ D), (dl_minus _ D).
Qed.

Lemma format_time_parses_back_witness :
  parse_seek_time (format_time (inject_Z 3725))
  = Ret (mkSeekResult true (Some (inject_Z 3725)) None)
  /\ is_relative_seek (format_time (inject_Z 3725)) = false.
Proof. apply (format_time_parses_back 3725). lia. Defined.

(** *** [YouTubeClient.format_duration] *)

(** X5. On a duration that is not negative, [YouTubeClient.format_duration]
    gives the same string as [SeekManager.format_time]. *)
Theorem format_duration_format_time (n : Z) :
  0 <= n -> YouTubeClient.format_duration n = format_time (inject_Z n).
Proof.
  intros Hn. rewrite format_time_of_int by exact Hn.
  unfold YouTubeClient.format_duration. cbv zeta.
  pose proof (Z.div_mod n 3600 ltac:(lia)) as D1.
  pose proof (Z.mod_pos_bound n 3600 ltac:(lia)) as B1.
  pose proof (Z.div_mod (n mod 3600) 60 ltac:(lia)) as D2.
  pose proof (Z.mod_pos_bound (n mod 3600) 60 ltac:(lia)) as B2.
  pose proof (Z.div_mod n 60 ltac:(lia)) as D3.
  pose proof (Z.mod_pos_bound n 60 ltac:(lia)) as B3.
  assert (Hq : 0 <= n / 3600) by (apply Z.div_pos; lia).
  assert (Hq2 : 0 <= n mod 3600 / 60) by (apply Z.div_pos; lia).
  assert (Hq3 : 0 <= n / 60) by (apply Z.div_pos; lia).
  assert (Hmm : (n mod 3600) mod 60 = n mod 60).
  { apply (Z.mod_unique_pos n 60 (60 * (n / 3600) + n mod 3600 / 60)); lia. }
  assert (F : forall k, 0 <= k -> format_02d k = pad2 k).
  { intros k Hk. unfold format_02d.
    replace (k <? 0) with false by (symmetry; apply Z.ltb_ge; lia). reflexivity. }
  destruct (n <? 3600) eqn:Hlt.
  - apply Z.ltb_lt in Hlt.
    assert (n / 3600 = 0) as Hz by (apply Z.div_small; lia).
    rewrite Hz. cbn [Z.ltb Z.compare].
    assert (n mod 3600 = n) as Hid by (apply Z.mod_small; lia).
    rewrite Hid. rewrite !F by lia. reflexivity.
  - apply Z.ltb_ge in Hlt.
    assert (0 < n / 3600) as Hpos by (apply Z.div_str_pos; lia).
    apply Z.ltb_lt in Hpos. rewrite Hpos, Hmm.
    rewrite !F by lia. reflexivity.
Qed.

Lemma format_duration_format_time_witness :
  YouTubeClient.format_duration 3725 = format_time (inject_Z 3725).
Proof. apply (format_duration_format_time 3725). lia. Defined.

End MoreSeekFacts.

(** ** Playback timing: start, pause and resume *)

Section MoreTimingFacts.
Import MusicPlayer.

Lemma max0_comp x y : (x == y)%Q -> (max0 x == max0 y)%Q.
Proof.
  intros E. unfold max0.
  destruct (Qlt_le_dec 0 x), (Qlt_le_dec 0 y); lra.
Qed.

Lemma position_of_timing g now p q :
  timing_of g p = timing_of g q ->
  get_current_playback_position g now p = get_current_playback_position g now q.
Proof.
  unfold timing_of, get_current_playback_position. intros E.
  injection E as -> -> ->. reflexivity.
Qed.

(** X6. A song that has just started is at position zero, and the position
    then advances with the clock. *)
Theorem position_after_start (guild_id : Z) (now : Q) (p : PlayerState) :
  let p' := _start_playback_timing guild_id now p in
  timing_of guild_id p' = (Some now, Some 0%Q, None)
  /\ position_is guild_id now p' 0
  /\ (forall later q, (now <= later)%Q ->
        timing_of guild_id q = timing_of guild_id p' ->
        position_is guild_id later q (later - now))
  /\ (forall later, get_current_playback_position guild_id later
                      (_stop_playback_timing guild_id p') = None).
Proof.
  cbv zeta.
  assert (Ht : timing_of guild_id (_start_playback_timing guild_id now p)
               = (Some now, Some 0%Q, None)).
  { unfold timing_of. cbn. now rewrite !lookup_insert_eq, lookup_delete_eq. }
  assert (Hpos : forall later q, (now <= later)%Q ->
            timing_of guild_id q = (Some now, Some 0%Q, None) ->
            position_is guild_id later q (later - now)).
  { intros later q Hl Hq. unfold timing_of in Hq. injection Hq as Hs Htot Hp.
    unfold position_is, get_current_playback_position. rewrite Hs, Htot, Hp. cbn.
    eexists. split; [reflexivity|]. unfold max0.
    destruct (Qlt_le_dec 0 (later - now - 0)); lra. }
  split; [exact Ht|]. split; [|split].
  - destruct (Hpos now _ (Qle_refl now) Ht) as (y & Ey & Hy).
    exists y. split; [exact Ey|]. lra.
  - intros later q Hl Hq. apply Hpos; [exact Hl|]. now rewrite Hq.
  - intros later. unfold get_current_playback_position. cbn.
    now rewrite lookup_delete_eq.
Qed.

(** X7. While paused the position stands still; a second pause changes nothing. *)
Theorem pause_freezes_position (guild_id : Z) (a x : Q) (p : PlayerState) :
  _playback_paused_times p !! guild_id = None ->
  get_current_playback_position guild_id a p = Some x ->
  let p' := _pause_playback_timing guild_id a p in
  _playback_paused_times p' !! guild_id = Some a
  /\ (forall later, position_is guild_id later p' x)
  /\ (forall b, _pause_playback_timing guild_id b p' = p').
Proof.
  intros Hp Hx. cbv zeta.
  unfold get_current_playback_position in Hx.
  destruct (_playback_start_times p !! guild_id) as [start|] eqn:Hs; [|discriminate].
  rewrite Hp in Hx. injection Hx as <-.
  unfold _pause_playback_timing. rewrite Hs, Hp. cbn.
  split; [apply lookup_insert_eq|]. split.
  - intros later. unfold position_is, get_current_playback_position. cbn.
    rewrite Hs, lookup_insert_eq. eexists. split; [reflexivity|].
    apply max0_comp. ring.
  - intros b. rewrite Hs, lookup_insert_eq. reflexivity.
Qed.

Lemma pause_freezes_position_witness :
  position_is 7 250
    (_pause_playback_timing 7 130 (_start_playback_timing 7 100 (new_player "./temp" None)))
    30.
Proof.
  destruct (pause_freezes_position 7 130 30
              (_start_playback_timing 7 100 (new_player "./temp" None)))
    as (_ & H & _); [reflexivity | reflexivity | exact (H 250%Q)].
Defined.

(** X8. Resuming at [b] a playback paused at [a] leaves out the pause: the
    position continues from where it stood. *)
Theorem resume_continues_from_pause (guild_id : Z) (start total a b : Q) (p : PlayerState) :
  timing_of guild_id p = (Some start, Some total, Some a) ->
  (start + total <= a)%Q ->
  let p' := _resume_playback_timing guild_id b p in
  let x := (a - start - total)%Q in
  position_is guild_id b p x
  /\ _playback_paused_times p' !! guild_id = None
  /\ position_is guild_id b p' x
  /\ (forall later, (b <= later)%Q -> position_is guild_id later p' (x + (later - b)))
  /\ (forall c, _resume_playback_timing guild_id c p' = p').
Proof.
  intros Ht Hle. cbv zeta. unfold timing_of in Ht. injection Ht as Hs Htot Hp.
  assert (Hafter : forall later, (b <= later)%Q ->
            position_is guild_id later (_resume_playback_timing guild_id b p)
              (a - start - total + (later - b))).
  { intros later Hl. unfold position_is, get_current_playback_position,
      _resume_playback_timing. rewrite Hp, Htot. cbn.
    rewrite Hs, lookup_insert_eq, lookup_delete_eq. cbn.
    eexists. split; [reflexivity|]. unfold max0.
    destruct (Qlt_le_dec 0 (later - start - (total + (b - a)))); lra. }
  split; [|split; [|split; [|split]]].
  - unfold position_is, get_current_playback_position. rewrite Hs, Htot, Hp. cbn.
    eexists. split; [reflexivity|]. unfold max0.
    destruct (Qlt_le_dec 0 (b - start - (total + (b - a)))); lra.
  - unfold _resume_playback_timing. rewrite Hp. cbn. apply lookup_delete_eq.
  - destruct (Hafter b (Qle_refl b)) as (y & Ey & Hy). exists y. split; [exact Ey|]. lra.
  - exact Hafter.
  - intros c. unfold _resume_playback_timing at 1.
    replace (_playback_paused_times (_resume_playback_timing guild_id b p) !! guild_id)
      with (@None Q); [reflexivity|].
    unfold _resume_playback_timing. rewrite Hp. cbn. now rewrite lookup_delete_eq.
Qed.

Lemma resume_continues_from_pause_witness :
  position_is 7 300
    (_resume_playback_timing 7 250
       (_pause_playback_timing 7 130
          (_start_playback_timing 7 100 (new_player "./temp" None))))
    (130 - 100 - 0 + (300 - 250)).
Proof.
  destruct (resume_continues_from_pause 7 100 0 130 250
              (_pause_playback_timing 7 130
                 (_start_playback_timing 7 100 (new_player "./temp" None))))
    as (_ & _ & _ & H & _); [reflexivity | discriminate | apply (H 300%Q); discriminate].
Defined.

(** X9. The timing operations on one guild leave the timing of every other
    guild, and so its position, as it was. *)
Theorem timing_of_other_guilds (guild_id other : Z) (now t : Q) (p : PlayerState) :
  other <> guild_id ->
  let same p' :=
    timing_of other p' = timing_of other p
    /\ forall later, get_current_playback_position other later p'
                     = get_current_playback_position other later p in
  same (_start_playback_timing guild_id now p)
  /\ same (_pause_playback_timing guild_id now p)
  /\ same (_resume_playback_timing guild_id now p)
  /\ same (_stop_playback_timing guild_id p)
  /\ same (_update_timing_after_seek guild_id t now p).
Proof.
  intros Hne. cbv zeta.
  assert (Hsame : forall p', timing_of other p' = timing_of other p ->
            timing_of other p' = timing_of other p
            /\ forall later, get_current_playback_position other later p'
                             = get_current_playback_position other later p).
  { intros p' E. split; [exact E|]. intros later. now apply position_of_timing. }
  repeat split; try apply Hsame.
  all: try (intros later; apply position_of_timing).
  all: unfold timing_of, _start_playback_timing, _pause_playback_timing,
         _resume_playback_timing, _stop_playback_timing, _update_timing_after_seek.
  all: repeat match goal with
         | |- context [match ?x with _ => _ end] => destruct x
         end; cbn.
  all: rewrite ?lookup_insert_ne, ?lookup_delete_ne by congruence; reflexivity.
Qed.

Lemma timing_of_other_guilds_witness :
  get_current_playback_position 8 200
    (_stop_playback_timing 7 (_start_playback_timing 8 100 (new_player "./temp" None)))
  = get_current_playback_position 8 200
      (_start_playback_timing 8 100 (new_player "./temp" None)).
Proof.
  destruct (timing_of_other_guilds 7 8 0 0
              (_start_playback_timing 8 100 (new_player "./temp" None)))
    as (_ & _ & _ & (_ & H) & _); [discriminate | exact (H 200%Q)].
Defined.

End MoreTimingFacts.

(** ** File sizes and bot-detection messages *)

Section FileSizeFacts.

Lemma format_1f_nearest q :
  exists d, format_1f q = tenths d /\ nearest_tenth q d.
Proof.
  unfold format_1f, nearest_tenth. cbv zeta.
  set (t := (q * 10)%Q).
  pose proof (Qfloor_le t) as Hlo. pose proof (Qlt_floor t) as Hhi.
  rewrite inject_Z_plus in Hhi. change (inject_Z 1) with 1%Q in Hhi.
  destruct (Qlt_le_dec (1 # 2) (t - inject_Z (Qfloor t))) as [Hgt|Hle].
  - exists (Qfloor t + 1). split; [reflexivity|].
    rewrite inject_Z_plus. change (inject_Z 1) with 1%Q. split; lra.
  - destruct (Qeq_bool (t - inject_Z (Qfloor t)) (1 # 2) && Z.odd (Qfloor t)) eqn:Htie.
    + apply andb_true_iff in Htie as [Heq _]. apply Qeq_bool_iff in Heq.
      exists (Qfloor t + 1). split; [reflexivity|].
      rewrite inject_Z_plus. change (inject_Z 1) with 1%Q. split; lra.
    + exists (Qfloor t). split; [reflexivity|]. split; lra.
Qed.

Lemma tenth_bounds (n size d : Z) :
  0 < size -> size <= n < 1024 * size ->
  nearest_tenth (inject_Z n / inject_Z size) d -> 10 <= d <= 10240.
Proof.
  intros Hs Hn [Hlo Hhi].
  assert (Hsz : (0 < inject_Z size)%Q) by (change 0%Q with (inject_Z 0); now rewrite <- Zlt_Qlt).
  assert (H1 : (1 <= inject_Z n / inject_Z size)%Q).
  { apply Qle_shift_div_l; [exact Hsz|]. rewrite Qmult_1_l. rewrite <- Zle_Qle. lia. }
  assert (H2 : (inject_Z n / inject_Z size < 1024)%Q).
  { apply Qlt_shift_div_r; [exact Hsz|].
    change 1024%Q with (inject_Z 1024). rewrite <- inject_Z_mult, <- Zlt_Qlt. lia. }
  assert (Hd1 : (inject_Z 9 < inject_Z d)%Q) by (change (inject_Z 9) with 9%Q; lra).
  assert (Hd2 : (inject_Z d < inject_Z 10241)%Q) by (change (inject_Z 10241) with 10241%Q; lra).
  rewrite <- Zlt_Qlt in Hd1, Hd2. lia.
Qed.

(** X13. [CatboxClient.format_file_size] shows a size from 1 KiB up to 1 GiB in the largest
    unit that does not exceed it, rounded to one decimal: a figure between
    1.0 and 1024.0. *)
Theorem format_file_size_rounds (n : Z) :
  1024 <= n < 1024 * 1024 * 1024 ->
  let '(unit, size) := if n <? 1024 * 1024 then ("KB", 1024) else ("MB", 1024 * 1024) in
  exists d,
    CatboxClient.format_file_size (Some n) = tenths d +:+ " " +:+ unit
    /\ nearest_tenth (inject_Z n / inject_Z size) d
    /\ 10 <= d <= 10240.
Proof.
  intros Hn. unfold CatboxClient.format_file_size.
  replace (n =? 0) with false by (symmetry; apply Z.eqb_neq; lia).
  replace (n <? 1024) with false by (symmetry; apply Z.ltb_ge; lia).
  destruct (n <? 1024 * 1024) eqn:Hkb.
  - apply Z.ltb_lt in Hkb.
    destruct (format_1f_nearest (inject_Z n / inject_Z 1024)) as (d & Ed & Hd).
    exists d. rewrite Ed. split; [|split; [exact Hd|]].
    + reflexivity.
    + apply (tenth_bounds n 1024 d); [lia|lia|exact Hd].
  - apply Z.ltb_ge in Hkb.
    replace (n <? 1024 * 1024 * 1024) with true by (symmetry; apply Z.ltb_lt; lia).
    destruct (format_1f_nearest (inject_Z n / inject_Z (1024 * 1024))) as (d & Ed & Hd).
    exists d. rewrite Ed. split; [|split; [exact Hd|]].
    + reflexivity.
    + apply (tenth_bounds n (1024 * 1024) d); [lia|lia|exact Hd].
Qed.

Lemma format_file_size_rounds_witness :
  exists d,
    CatboxClient.format_file_size (Some 1536) = tenths d +:+ " " +:+ "KB"
    /\ nearest_tenth (inject_Z 1536 / inject_Z 1024) d
    /\ 10 <= d <= 10240.
Proof. apply (format_file_size_rounds 1536). lia. Defined.

End FileSizeFacts.

Section BotDetectionFacts.
Import PyStr YouTubeClient.

Lemma append_cons c a b : String c a +:+ b = String c (a +:+ b).
Proof. reflexivity. Qed.

Lemma lower_app a b : lower (a +:+ b) = lower a +:+ lower b.
Proof.
  induction a as [|c a IH]; [reflexivity|].
  rewrite append_cons. cbn [lower]. now rewrite IH, append_cons.
Qed.

Lemma lower_char_idem c : lower_char (lower_char c) = lower_char c.
Proof. destruct c as [[] [] [] [] [] [] [] []]; reflexivity. Qed.

Lemma lower_idem s : lower (lower s) = lower s.
Proof. induction s as [|c s IH]; cbn; [reflexivity|]. now rewrite lower_char_idem, IH. Qed.

Lemma startswith_app p s t : startswith p s = true -> startswith p (s +:+ t) = true.
Proof.
  revert s. induction p as [|a p IH]; intros [|b s]; try easy.
  rewrite append_cons. cbn [startswith].
  intros Hs. apply andb_true_iff in Hs as [Hab Hs]. now rewrite Hab, IH.
Qed.

Lemma has_substring_nil p : has_substring p "" = true -> p = "".
Proof. destruct p; [reflexivity|discriminate]. Qed.

Lemma has_substring_app_r p s t :
  has_substring p s = true -> has_substring p (s +:+ t) = true.
Proof.
  induction s as [|b s IH].
  - intros Hs. apply has_substring_nil in Hs as ->. destruct t; reflexivity.
  - rewrite append_cons. cbn [has_substring].
    intros Hs. apply orb_true_iff in Hs as [Hs|Hs].
    + apply (startswith_app _ _ t) in Hs. rewrite append_cons in Hs. now rewrite Hs.
    + rewrite IH by exact Hs. apply orb_true_r.
Qed.

Lemma has_substring_app_l p s t :
  has_substring p s = true -> has_substring p (t +:+ s) = true.
Proof.
  intros Hs. induction t as [|b t IH]; [exact Hs|].
  rewrite append_cons. cbn [has_substring]. rewrite IH. apply orb_true_r.
Qed.

(** X14. Bot detection looks for its indicators anywhere in the message and
    without regard to letter case: text before or after a message that is
    taken for bot detection does not change that, nor does lowering it. *)
Theorem bot_detection_in_context (pre msg post : string) :
  _is_bot_detection_error msg = true ->
  _is_bot_detection_error (pre +:+ msg +:+ post) = true
  /\ _is_bot_detection_error (lower msg) = true.
Proof.
  unfold _is_bot_detection_error. cbv zeta. intros Hm.
  apply existsb_exists in Hm as (ind & Hin & Hs). split.
  - apply existsb_exists. exists ind. split; [exact Hin|].
    rewrite !lower_app. apply has_substring_app_l, has_substring_app_r, Hs.
  - apply existsb_exists. exists ind. split; [exact Hin|]. now rewrite lower_idem.
Qed.

Lemma bot_detection_in_context_witness :
  _is_bot_detection_error ("PytubeFixError: " +:+ "HTTP Error 403: Forbidden" +:+ " (abc)")
  = true.
Proof.
  apply (bot_detection_in_context "PytubeFixError: " "HTTP Error 403: Forbidden" " (abc)").
  vm_compute. reflexivity.
Defined.

End BotDetectionFacts.

(** ** Catbox URLs *)

Section UrlFacts.
Context `{Environment}.
Import PyStr.

Lemma contains_app c a b : contains c (a +:+ b) = contains c a || contains c b.
Proof.
  induction a as [|x a IH]; [reflexivity|].
  rewrite append_cons. cbn [contains]. now rewrite IH, orb_assoc.
Qed.

Lemma append_nil_r s : s +:+ "" = s.
Proof. induction s as [|c s IH]; [reflexivity|]. now rewrite append_cons, IH. Qed.

Lemma append_assoc a b c : (a +:+ b) +:+ c = a +:+ (b +:+ c).
Proof. induction a as [|x a IH]; [reflexivity|]. now rewrite !append_cons, IH. Qed.

(** Without the separator in [t], the last field of [a ++ t] is that of
    [a] followed by [t]. *)
Lemma last_field_app c cur a t :
  contains c t = false -> last_field c cur (a +:+ t) = last_field c cur a +:+ t.
Proof.
  intros Ht. revert cur. induction a as [|x a IH]; intros cur.
  - change ("" +:+ t) with t. cbn [last_field].
    revert cur. induction t as [|y t IHt]; intros cur; cbn [last_field].
    + now rewrite append_nil_r.
    + cbn [contains] in Ht. apply orb_false_iff in Ht as [Hy Ht].
      rewrite Hy. rewrite IHt by exact Ht. rewrite append_assoc. reflexivity.
  - rewrite append_cons. cbn [last_field]. destruct (Ascii.eqb x c); apply IH.
Qed.

Lemma last_field_after c cur f e :
  contains c e = false -> last_field c cur (f +:+ String c e) = e.
Proof.
  intros He. revert cur. induction f as [|x f IH]; intros cur.
  - change ("" +:+ String c e) with (String c e). cbn [last_field].
    rewrite Ascii.eqb_refl. exact (last_field_app c "" "" e He).
  - rewrite append_cons. cbn [last_field]. destruct (Ascii.eqb x c); apply IH.
Qed.

Lemma before_last_before c f e :
  contains c e = false -> before_last c (f +:+ String c e) = f.
Proof.
  intros He. induction f as [|x f IH].
  - change ("" +:+ String c e) with (String c e). cbn [before_last].
    now rewrite Ascii.eqb_refl, He.
  - rewrite append_cons. cbn [before_last].
    rewrite contains_app. cbn [contains]. rewrite Ascii.eqb_refl.
    rewrite orb_true_r, andb_false_r. now rewrite IH.
Qed.

(** A string with the separator splits at its last occurrence. *)
Lemma split_at_last c s :
  contains c s = true ->
  exists f e, s = f +:+ String c e /\ contains c e = false.
Proof.
  induction s as [|x s IH]; [discriminate|].
  cbn [contains]. intros Hs.
  destruct (contains c s) eqn:Hc.
  - destruct (IH eq_refl) as (f & e & -> & He). exists (String x f), e. auto.
  - rewrite orb_false_r in Hs. apply Ascii.eqb_eq in Hs as ->.
    exists "", s. auto.
Qed.

Lemma lower_char_is c x :
  (c = "." \/ c = "/")%char -> Ascii.eqb (lower_char x) c = Ascii.eqb x c.
Proof.
  intros [->| ->]; destruct x as [[] [] [] [] [] [] [] []]; reflexivity.
Qed.

Lemma contains_lower c s :
  (c = "." \/ c = "/")%char -> contains c (lower s) = contains c s.
Proof.
  intros Hc. induction s as [|x s IH]; [reflexivity|].
  cbn [lower contains]. now rewrite lower_char_is, IH.
Qed.

Lemma lower_cons c s : lower (String c s) = String (lower_char c) (lower s).
Proof. reflexivity. Qed.

Lemma supported_has_no_slash ext :
  ext ∈ CatboxClient.SUPPORTED_FORMATS -> contains "/" ext = false.
Proof.
  unfold CatboxClient.SUPPORTED_FORMATS. intros Hin.
  repeat (apply elem_of_cons in Hin as [->|Hin]; [reflexivity|]).
  apply elem_of_nil in Hin. contradiction.
Qed.

(** X10. A URL that [is_catbox_url] accepts names a file on the Catbox host
    whose name splits into a stem and an extension: the extension, in
    lower case, is a supported format and the format that
    [_get_file_format_from_url] returns, and the stem is the title that
    [_extract_filename_from_url] gives, after ["Catbox - "]. *)
Theorem catbox_url_parts (url : string) :
  CatboxClient.is_catbox_url url = true ->
  exists parsed stem ext,
    urlparse url = Ret parsed
    /\ lower (netloc parsed) = "files.catbox.moe"
    /\ basename (path parsed) = stem +:+ "." +:+ ext
    /\ contains "." ext = false
    /\ lower ext ∈ CatboxClient.SUPPORTED_FORMATS
    /\ CatboxClient._get_file_format_from_url url = Some (lower ext)
    /\ CatboxClient._extract_filename_from_url url = "Catbox - " +:+ stem.
Proof.
  unfold CatboxClient.is_catbox_url, CatboxClient._get_file_format_from_url,
    CatboxClient._extract_filename_from_url.
  destruct (urlparse url) as [parsed|e]; [|discriminate].
  destruct (String.eqb (lower (netloc parsed)) "files.catbox.moe") eqn:Hhost;
    [|discriminate].
  apply String.eqb_eq in Hhost. cbn [negb]. cbv zeta.
  destruct (is_empty (lower (path parsed))); [discriminate|].
  destruct (contains "." (lower (path parsed))) eqn:Hdot; [|discriminate].
  cbn [negb orb]. intros Hext. apply bool_decide_eq_true in Hext.
  rewrite contains_lower in Hdot by auto.
  destruct (split_at_last "." (path parsed) Hdot) as (f & e & Hpath & He).
  assert (Hle : last_field "." "" (lower (path parsed)) = lower e).
  { rewrite Hpath, lower_app, lower_cons.
    change (lower_char ".") with "."%char.
    apply last_field_after. now rewrite contains_lower by auto. }
  rewrite Hle in Hext.
  assert (Hslash : contains "/" e = false).
  { rewrite <- (contains_lower "/") by auto. now apply supported_has_no_slash. }
  assert (Hbase : last_field "/" "" (path parsed) = last_field "/" "" f +:+ String "." e).
  { rewrite Hpath. apply last_field_app. cbn [contains]. now rewrite Hslash. }
  exists parsed, (last_field "/" "" f), e.
  split; [reflexivity|]. split; [exact Hhost|]. split; [exact Hbase|].
  split; [exact He|]. split; [exact Hext|]. split; [now rewrite Hle|].
  rewrite Hbase, contains_app. cbn [contains]. rewrite Ascii.eqb_refl.
  rewrite orb_true_r. now rewrite before_last_before.
Qed.

End UrlFacts.

Lemma catbox_url_parts_witness :
  exists parsed stem ext,
    @urlparse online "https://files.catbox.moe/Ab.c1.MP3" = Ret parsed
    /\ PyStr.lower (netloc parsed) = "files.catbox.moe"
    /\ basename (path parsed) = stem +:+ "." +:+ ext
    /\ PyStr.contains "." ext = false
    /\ PyStr.lower ext ∈ CatboxClient.SUPPORTED_FORMATS
    /\ @CatboxClient._get_file_format_from_url online "https://files.catbox.moe/Ab.c1.MP3"
       = Some (PyStr.lower ext)
    /\ @CatboxClient._extract_filename_from_url online "https://files.catbox.moe/Ab.c1.MP3"
       = "Catbox - " +:+ stem.
Proof.
  apply (@catbox_url_parts online "https://files.catbox.moe/Ab.c1.MP3").
  vm_compute. reflexivity.
Defined.

(** ** What the operations leave of other guilds *)

Section GuildFrame.
Context `{Environment}.
Import MusicPlayer.

Variables guild_id other : Z.
Hypothesis Hne : other <> guild_id.
Variable v : bool * option nat * option string * (option Q * option Q * option Q)
             * option nat * option Q.

Let I (p : PlayerState) : Prop := guild_view other p = v.

Ltac view_same :=
  let p := fresh "p" in let Hv := fresh "Hv" in
  intros p Hv; unfold I in *; rewrite <- Hv; clear Hv;
  unfold guild_view, timing_of, _stop_inactivity_timer, _start_inactivity_timer,
    cancel_and_remove_timer, cancel_and_remove_playback, register_playback,
    _start_playback_timing, _stop_playback_timing, _update_timing_after_seek, create_task;
  repeat match goal with
         | |- context [match ?x with _ => _ end] => destruct x
         end; cbn;
  rewrite ?lookup_insert_ne, ?lookup_delete_ne by congruence;
  repeat match goal with |- (_, _) = (_, _) => f_equal end;
  try reflexivity; try (apply bool_decide_ext; rewrite elem_of_union, elem_of_singleton; tauto).

Ltac frame_player :=
  repeat first
    [ keeps_step
    | apply keeps_catbox_extract | apply keeps_youtube_extract
    | apply keeps_download_audio | apply keeps_validate_audio_file
    | apply keeps_cleanup_file
    | apply keeps_modify_player; view_same ].

Lemma frame_get_queue_manager : keeps I (get_queue_manager guild_id).
Proof. unfold get_queue_manager. frame_player. Qed.

Lemma frame_cleanup_current_audio : keeps I (_cleanup_current_audio guild_id).
Proof. unfold _cleanup_current_audio. frame_player. Qed.

Lemma frame_reset_inactivity_timer : keeps I (reset_inactivity_timer guild_id).
Proof. unfold reset_inactivity_timer. frame_player. Qed.

Lemma frame_cleanup_guild_state : keeps I (_cleanup_guild_state guild_id).
Proof.
  unfold _cleanup_guild_state.
  repeat first [ apply frame_cleanup_current_audio | frame_player ].
Qed.

Lemma frame_start_playback : keeps I (start_playback guild_id).
Proof.
  unfold start_playback.
  repeat first [ apply frame_reset_inactivity_timer | frame_player ].
Qed.

Ltac frame_ops :=
  repeat first
    [ apply frame_get_queue_manager | apply frame_cleanup_current_audio
    | apply frame_reset_inactivity_timer | apply frame_cleanup_guild_state
    | apply frame_start_playback
    | frame_player ].

Lemma frame_add_song_to_queue url requester :
  member_guild_id requester = guild_id -> keeps I (add_song_to_queue url requester).
Proof.
  intros Hg. unfold add_song_to_queue, add_song_to_queue_body, add_song_of_source.
  rewrite Hg. frame_ops.
Qed.

Lemma frame_connect_to_user_channel member :
  member_guild_id member = guild_id -> keeps I (connect_to_user_channel member).
Proof. intros Hg. unfold connect_to_user_channel. rewrite Hg. frame_ops. Qed.

Lemma frame_skip_current_song : keeps I (skip_current_song guild_id).
Proof. unfold skip_current_song, skip_current_song_body. frame_ops. Qed.

Lemma frame_stop_playback : keeps I (stop_playback guild_id).
Proof. unfold stop_playback, stop_playback_body. frame_ops. Qed.

Lemma frame_jump_to_position position : keeps I (jump_to_position guild_id position).
Proof. unfold jump_to_position, jump_to_position_body. frame_ops. Qed.

Lemma frame_seek_to_position time_str : keeps I (seek_to_position guild_id time_str).
Proof.
  unfold seek_to_position, seek_to_position_body, _perform_seek,
    current_playback_position.
  frame_ops.
Qed.

Lemma frame_inactivity_timer_task timeout timer :
  keeps (fun p => guild_view other p = v)
    (_inactivity_timer_task guild_id timeout timer).
Proof.
  unfold _inactivity_timer_task. fold I. frame_ops.
Qed.

Lemma frame_song_audio_file song : keeps I (song_audio_file song).
Proof. unfold song_audio_file. frame_ops. Qed.

Lemma frame_playback_loop_pass : keeps I (playback_loop_pass guild_id).
Proof.
  unfold playback_loop_pass.
  repeat first [ apply frame_song_audio_file | frame_ops ].
Qed.

Lemma frame_playback_loop_while fuel : keeps I (playback_loop_while fuel guild_id).
Proof.
  induction fuel as [|fuel IH]; cbn [playback_loop_while]; [apply keeps_ret|].
  apply keeps_bind; [apply frame_playback_loop_pass|].
  intros [|]; [exact IH|apply keeps_ret].
Qed.

Lemma frame_playback_loop fuel : keeps I (_playback_loop fuel guild_id).
Proof.
  unfold _playback_loop.
  repeat first [ apply frame_playback_loop_while | frame_ops ].
Qed.

End GuildFrame.

(** ** Inverting runs, and cleaning up a guild *)

Section RunInversion.
Context `{Environment}.

Lemma bind_Ret_inv {A B} (m : M A) (f : A -> M B) s b s' :
  bind m f s = (Ret b, s') ->
  exists a s1, m s = (Ret a, s1) /\ f a s1 = (Ret b, s').
Proof.
  unfold bind. destruct (m s) as [[a|e] s1]; [eauto|discriminate].
Qed.

Lemma try_except_Ret_inv {A} (body : M A) handler s a s' :
  try_except body handler s = (Ret a, s') ->
  body s = (Ret a, s')
  \/ exists e s1, body s = (Raise e, s1) /\ handler e s1 = (Ret a, s').
Proof.
  unfold try_except. destruct (body s) as [[a1|e] s1]; [left; assumption|eauto].
Qed.

End RunInversion.

Section CleanupFacts.
Context `{Environment}.
Import MusicPlayer.

Lemma alter_cancel_not_pending i ts : forall t,
  cancel i ts !! i = Some t -> is_pending t = false.
Proof.
  intros t Ht. apply lookup_cancel_Some in Ht as [[_ Hp]|[Hne _]]; [exact Hp|congruence].
Qed.

Lemma not_pending_cancel i j p :
  not_pending i p -> not_pending i (set_tasks (cancel j) p).
Proof.
  intros Hn t Ht. cbn in Ht.
  apply lookup_cancel_Some in Ht as [[_ Hp]|[_ Ht]]; [exact Hp|exact (Hn t Ht)].
Qed.

Lemma cleaned_up_view g p :
  guild_view g (cleaned_up g p) = cleared_view (bool_decide (g ∈ _queue_managers p)).
Proof.
  unfold cleaned_up, guild_view, cleared_view, timing_of, _stop_inactivity_timer,
    cancel_and_remove_timer, cancel_and_remove_playback, _stop_playback_timing.
  repeat match goal with
         | |- context [match ?x with _ => _ end] => destruct x eqn:?
         end; cbn in *;
  rewrite ?lookup_delete_eq;
  repeat match goal with |- (_, _) = (_, _) => f_equal end; try reflexivity;
  try assumption.
Qed.

Lemma cleaned_up_not_pending g p i :
  registered_for g p i -> not_pending i (cleaned_up g p).
Proof.
  unfold registered_for, cleaned_up, _stop_inactivity_timer, _stop_playback_timing,
    cancel_and_remove_timer, cancel_and_remove_playback.
  intros [Hi|Hi] t; cbn.
  - rewrite Hi. cbn.
    destruct (_inactivity_timers p !! g) as [j|]; cbn; intros Ht.
    + apply lookup_cancel_Some in Ht as [[_ Hp]|[_ Ht]]; [exact Hp|].
      exact (alter_cancel_not_pending _ _ _ Ht).
    + exact (alter_cancel_not_pending _ _ _ Ht).
  - destruct (_playback_tasks p !! g) as [j|]; cbn; rewrite Hi; cbn; intros Ht.
    + exact (alter_cancel_not_pending _ _ _ Ht).
    + exact (alter_cancel_not_pending _ _ _ Ht).
Qed.

Lemma cleaned_up_other g g' p : g' <> g -> guild_view g' (cleaned_up g p) = guild_view g' p.
Proof.
  intros Hne.
  unfold cleaned_up, guild_view, timing_of, _stop_inactivity_timer,
    cancel_and_remove_timer, cancel_and_remove_playback, _stop_playback_timing.
  repeat match goal with
         | |- context [match ?x with _ => _ end] => destruct x
         end; cbn;
  rewrite ?lookup_delete_ne by congruence; reflexivity.
Qed.

(** X19. [_cleanup_guild_state] never raises and leaves the guild with nothing
    but its queue manager: no task, no audio file, no timing, no timer, no
    activity time; the tasks it had entered are no longer pending; and
    what the player holds for any other guild is as before. *)
Theorem cleanup_guild_state_clears (guild_id : Z) (s : state) :
  exists s',
    _cleanup_guild_state guild_id s = (Ret tt, s')
    /\ guild_view guild_id (player s')
       = cleared_view (bool_decide (guild_id ∈ _queue_managers (player s)))
    /\ (forall i, registered_for guild_id (player s) i -> not_pending i (player s'))
    /\ (forall other, other <> guild_id ->
          guild_view other (player s') = guild_view other (player s))
    /\ disconnects (log s') = disconnects (log s).
Proof.
  destruct (cleanup_guild_state_spec guild_id s) as (s' & new & E & Hp & Hl & Hf).
  exists s'. split; [exact E|]. rewrite Hp.
  split; [apply cleaned_up_view|].
  split; [intros i; apply cleaned_up_not_pending|].
  split; [intros other; apply cleaned_up_other|].
  rewrite Hl, disconnects_app, (file_calls_no_disconnect new Hf). apply app_nil_r.
Qed.

End CleanupFacts.

(** ** The calls a run makes *)

Section OnlyCallsRules.
Context `{Environment}.
Context (P : call -> Prop).

Lemma only_calls_silent {A} (m : M A) :
  (forall s, log (m s).2 = log s) -> only_calls P m.
Proof. intros Hm s. exists []. rewrite Hm, app_nil_r. split; [reflexivity|constructor]. Qed.

Lemma only_calls_ret {A} (a : A) : only_calls P (ret a).
Proof. now apply only_calls_silent. Qed.
Lemma only_calls_raise {A} e : only_calls P (@raise _ A e).
Proof. now apply only_calls_silent. Qed.
Lemma only_calls_lift {A} (r : result A) : only_calls P (lift r).
Proof. now apply only_calls_silent. Qed.
Lemma only_calls_tell m : only_calls P (tell m).
Proof. now apply only_calls_silent. Qed.
Lemma only_calls_get_player : only_calls P get_player.
Proof. now apply only_calls_silent. Qed.
Lemma only_calls_modify_player f : only_calls P (modify_player f).
Proof. now apply only_calls_silent. Qed.

Lemma only_calls_do c : P c -> only_calls P (do c).
Proof.
  intros Hc s. unfold do. destruct (oracle c (world s)) as [r w]. cbn.
  eexists. split; [reflexivity|]. repeat constructor. exact Hc.
Qed.

Lemma only_calls_bind {A B} (m : M A) (f : A -> M B) :
  only_calls P m -> (forall a, only_calls P (f a)) -> only_calls P (bind m f).
Proof.
  intros Hm Hf s. destruct (Hm s) as (n1 & E1 & F1). unfold bind.
  destruct (m s) as [[a|e] s1]; cbn in *.
  - destruct (Hf a s1) as (n2 & E2 & F2). exists (n1 ++ n2).
    rewrite E2, E1, app_assoc. split; [reflexivity|]. now apply Forall_app.
  - now exists n1.
Qed.

Lemma only_calls_try_except {A} (body : M A) handler :
  only_calls P body -> (forall e, only_calls P (handler e)) ->
  only_calls P (try_except body handler).
Proof.
  intros Hb Hh s. destruct (Hb s) as (n1 & E1 & F1). unfold try_except.
  destruct (body s) as [[a|e] s1]; cbn in *.
  - now exists n1.
  - destruct (Hh e s1) as (n2 & E2 & F2). exists (n1 ++ n2).
    rewrite E2, E1, app_assoc. split; [reflexivity|]. now apply Forall_app.
Qed.

Lemma only_calls_try_except_class {A} cls (body : M A) handler :
  only_calls P body -> (forall e, only_calls P (handler e)) ->
  only_calls P (try_except_class cls body handler).
Proof.
  intros Hb Hh s. destruct (Hb s) as (n1 & E1 & F1). unfold try_except_class.
  destruct (body s) as [[a|e] s1]; cbn in *.
  - now exists n1.
  - destruct (exc_class_eqb (e_class e) cls); [|now exists n1].
    destruct (Hh e s1) as (n2 & E2 & F2). exists (n1 ++ n2).
    rewrite E2, E1, app_assoc. split; [reflexivity|]. now apply Forall_app.
Qed.

Lemma only_calls_try_finally {A} (body : M A) final :
  only_calls P body -> only_calls P final -> only_calls P (try_finally body final).
Proof.
  intros Hb Hf s. destruct (Hb s) as (n1 & E1 & F1). unfold try_finally.
  destruct (body s) as [r s1]; cbn in *.
  destruct (Hf s1) as (n2 & E2 & F2).
  destruct (final s1) as [[a|e] s2]; cbn in *; exists (n1 ++ n2);
    rewrite E2, E1, app_assoc; (split; [reflexivity|]); now apply Forall_app.
Qed.

End OnlyCallsRules.

Lemma only_calls_weaken `{Environment} {A} (P Q : call -> Prop) (m : M A) :
  (forall c, P c -> Q c) -> only_calls P m -> only_calls Q m.
Proof.
  intros HPQ Hm s. destruct (Hm s) as (new & E & F). exists new. split; [exact E|].
  eapply Forall_impl; [exact F|]. intros e. apply HPQ.
Qed.

Ltac only_calls_step :=
  lazymatch goal with
  | |- only_calls _ (ret _) => apply only_calls_ret
  | |- only_calls _ (raise _) => apply only_calls_raise
  | |- only_calls _ (lift _) => apply only_calls_lift
  | |- only_calls _ (tell _) => apply only_calls_tell
  | |- only_calls _ get_player => apply only_calls_get_player
  | |- only_calls _ (modify_player _) => apply only_calls_modify_player
  | |- only_calls ?P (do ?c) => apply (only_calls_do P c)
  | |- only_calls _ (bind _ _) => apply only_calls_bind; [|intros]
  | |- only_calls _ (try_except _ _) => apply only_calls_try_except; [|intros]
  | |- only_calls _ (try_except_class _ _ _) => apply only_calls_try_except_class; [|intros]
  | |- only_calls _ (try_finally _ _) => apply only_calls_try_finally
  | |- only_calls _ (match ?x with _ => _ end) => destruct x
  | |- only_calls _ (if ?b then _ else _) => destruct b
  end.

Ltac call_ok := first [ exact Logic.I | reflexivity | (intros ? [=]; congruence) ].

Section ClientCalls.
Context `{Environment}.

Lemma head_attempts_calls url max_retries attempts :
  only_calls (is_probe_call url) (CatboxClient.head_attempts url max_retries attempts).
Proof.
  induction attempts as [|attempt rest IH]; cbn; [apply only_calls_ret|].
  unfold CatboxClient.head_attempt. repeat (only_calls_step; try call_ok). exact IH.
Qed.

Lemma make_head_request_calls url max_retries :
  only_calls (is_probe_call url) (CatboxClient._make_head_request_with_retry url max_retries).
Proof.
  unfold CatboxClient._make_head_request_with_retry.
  repeat (only_calls_step; try call_ok). apply head_attempts_calls.
Qed.

Lemma catbox_extract_calls url :
  only_calls (is_probe_call url) (CatboxClient.extract_audio_info url).
Proof.
  unfold CatboxClient.extract_audio_info.
  repeat first [ apply make_head_request_calls | only_calls_step; try call_ok ].
Qed.

Lemma validate_audio_file_calls url :
  only_calls (is_probe_call url) (CatboxClient.validate_audio_file url).
Proof.
  unfold CatboxClient.validate_audio_file, CatboxClient.validate_audio_file_body.
  repeat first [ apply make_head_request_calls | apply catbox_extract_calls
               | only_calls_step; try call_ok ].
Qed.

Lemma create_youtube_object_from_calls P fuel cfg url cb attempt :
  (forall kw, P (YouTubeCtor url kw)) ->
  only_calls P (YouTubeClient.create_youtube_object_from fuel cfg url cb attempt).
Proof.
  intros HP. revert attempt. induction fuel as [|fuel IH]; intros attempt; cbn.
  - repeat (only_calls_step; try apply HP).
  - repeat (only_calls_step; try apply HP). apply IH.
Qed.

Lemma create_youtube_object_calls P url cb attempt :
  (forall kw, P (YouTubeCtor url kw)) ->
  only_calls P (YouTubeClient._create_youtube_object url cb attempt).
Proof.
  intros HP. unfold YouTubeClient._create_youtube_object. repeat only_calls_step.
  now apply create_youtube_object_from_calls.
Qed.

Lemma youtube_extract_calls url :
  only_calls (is_metadata_call url) (YouTubeClient.extract_audio_info url).
Proof.
  unfold YouTubeClient.extract_audio_info.
  repeat first [ apply create_youtube_object_calls; intros; reflexivity
               | only_calls_step; try call_ok ].
Qed.

End ClientCalls.

(** ** Stopping, jumping, skipping and connecting *)

Section OpFacts.
Context `{Environment}.
Import MusicPlayer.
Local Arguments _cleanup_guild_state : simpl never.
Local Arguments _cleanup_current_audio : simpl never.

Lemma do_Ret_inv c s a s' :
  do c s = (Ret a, s') ->
  exists w, oracle c (world s) = (Ret a, w)
            /\ s' = mkState w (player s) (log s ++ [mkEvent c None]).
Proof.
  unfold do. destruct (oracle c (world s)) as [[a1|e] w]; cbn; intros E; [|discriminate].
  injection E as <- <-. eauto.
Qed.

Lemma cleanup_current_audio_run (guild_id : Z) (s : state) :
  exists s' new,
    _cleanup_current_audio guild_id s = (Ret tt, s')
    /\ player s' = set_current_audio_files (delete guild_id) (player s)
    /\ log s' = log s ++ new
    /\ Forall (fun e => is_file_call (ev_call e) = true) new.
Proof.
  destruct (cleanup_current_audio_spec guild_id s) as (s' & new & E & Hp & Hl & Hf & _).
  eauto 10.
Qed.

Lemma calls_app l1 l2 : calls (l1 ++ l2) = calls l1 ++ calls l2.
Proof. apply map_app. Qed.

Lemma file_calls_of_events new :
  Forall (fun e => is_file_call (ev_call e) = true) new -> file_calls (calls new).
Proof. unfold file_calls, calls. intros Hf. now apply Forall_map. Qed.

Lemma get_queue_manager_run g s :
  get_queue_manager g s
  = (Ret tt, mkState (world s) (set_queue_managers (fun m => {[g]} ∪ m) (player s)) (log s)).
Proof. reflexivity. Qed.

(** X20. A successful [stop_playback] has stopped the audio, cleared the queue,
    cleaned up the guild and disconnected, in this order. *)
Theorem stop_playback_success (guild_id : Z) (s : state) msg (s' : state) :
  stop_playback guild_id s = (Ret (true, msg), s') ->
  msg = None
  /\ guild_view guild_id (player s') = cleared_view true
  /\ (forall i, registered_for guild_id (player s) i -> not_pending i (player s'))
  /\ exists new files,
       log s' = log s ++ new
       /\ calls new = VmStopAudio guild_id :: QmClearQueue guild_id
                        :: files ++ [VmDisconnectFromGuild guild_id]
       /\ file_calls files.
Proof.
  intros E. unfold stop_playback in E.
  apply try_except_Ret_inv in E as [E|(e & s1 & _ & E)]; [|discriminate E].
  unfold stop_playback_body in E.
  apply bind_Ret_inv in E as (a1 & s1 & E1 & E).
  apply do_Ret_inv in E1 as (w1 & O1 & ->).
  apply bind_Ret_inv in E as (a2 & s2 & E2 & E).
  rewrite get_queue_manager_run in E2. destruct a2. injection E2 as <-.
  apply bind_Ret_inv in E as (a3 & s3 & E3 & E).
  apply do_Ret_inv in E3 as (w3 & O3 & ->).
  apply bind_Ret_inv in E as (a4 & s4 & E4 & E).
  apply bind_Ret_inv in E as (a5 & s5 & E5 & E).
  apply do_Ret_inv in E5 as (w5 & O5 & ->).
  injection E as <- <-.
  match type of E4 with _cleanup_guild_state ?g ?s0 = _ =>
    destruct (cleanup_guild_state_spec g s0) as (s4' & new & E4' & Hp & Hl & Hf) end.
  rewrite E4 in E4'. destruct a4. injection E4' as <-.
  cbn in Hp, Hl. cbn [player log].
  split; [reflexivity|]. rewrite Hp. split; [|split].
  - rewrite cleaned_up_view. cbn. f_equal.
    apply bool_decide_eq_true. set_solver.
  - intros i Hi. apply cleaned_up_not_pending. exact Hi.
  - exists ([mkEvent (VmStopAudio guild_id) None; mkEvent (QmClearQueue guild_id) None]
            ++ new ++ [mkEvent (VmDisconnectFromGuild guild_id) None]), (calls new).
    split; [|split].
    + rewrite Hl. rewrite <- !app_assoc. reflexivity.
    + rewrite !calls_app. reflexivity.
    + now apply file_calls_of_events.
Qed.

(** X21. [jump_to_position] stops the audio and drops the current audio file
    before it asks the queue: when it reports an invalid position, the
    song that was playing has already been stopped. *)
Theorem jump_to_invalid_position_stops (guild_id position : Z) (s s' : state) :
  jump_to_position guild_id position s
  = (Ret (false, None, Some ("Invalid queue position: " +:+ PyStr.of_Z position)), s') ->
  _current_audio_files (player s') !! guild_id = None
  /\ exists new files,
       log s' = log s ++ new
       /\ calls new = VmStopAudio guild_id :: files
                        ++ [QmJumpToPosition guild_id position]
       /\ file_calls files.
Proof.
  intros E. unfold jump_to_position in E.
  apply try_except_Ret_inv in E as [E|(e & s1 & _ & E)].
  2:{ discriminate E. }
  unfold jump_to_position_body in E.
  apply bind_Ret_inv in E as (a1 & s1 & E1 & E).
  rewrite get_queue_manager_run in E1. destruct a1. injection E1 as <-.
  apply bind_Ret_inv in E as (a2 & s2 & E2 & E).
  apply do_Ret_inv in E2 as (w2 & O2 & ->).
  apply bind_Ret_inv in E as (a3 & s3 & E3 & E).
  match type of E3 with _cleanup_current_audio ?g ?s0 = _ =>
    destruct (cleanup_current_audio_run g s0) as (s3' & new & E3' & Hp & Hl & Hf) end.
  rewrite E3 in E3'. destruct a3. injection E3' as <-.
  apply bind_Ret_inv in E as (song & s4 & E4 & E).
  apply do_Ret_inv in E4 as (w4 & O4 & ->).
  destruct song as [song|]; [discriminate E|]. injection E as <-.
  cbn in Hp, Hl. cbn [player log]. rewrite Hp. split.
  - cbn. apply lookup_delete_eq.
  - exists ([mkEvent (VmStopAudio guild_id) None] ++ new
            ++ [mkEvent (QmJumpToPosition guild_id position) None]), (calls new).
    split; [|split].
    + rewrite Hl, <- !app_assoc. reflexivity.
    + rewrite !calls_app. reflexivity.
    + now apply file_calls_of_events.
Qed.

(** X22. A successful [skip_current_song] returns the title of the song the
    queue gave as current, after stopping the audio and dropping the
    guild's audio file; with no current song it stops nothing. *)
Theorem skip_current_song_outcomes (guild_id : Z) (s s' : state) :
  (forall title msg,
     skip_current_song guild_id s = (Ret (true, title, msg), s') ->
     msg = None
     /\ (exists song w, oracle (QmGetCurrentSong guild_id) (world s) = (Ret (Some song), w)
                        /\ title = Some (song_title song))
     /\ _current_audio_files (player s') !! guild_id = None
     /\ exists new files,
          log s' = log s ++ new
          /\ calls new = QmGetCurrentSong guild_id :: VmStopAudio guild_id :: files
          /\ file_calls files)
  /\ (skip_current_song guild_id s
      = (Ret (false, None, Some "No song is currently playing"), s') ->
      log s' = log s ++ [mkEvent (QmGetCurrentSong guild_id) None]
      /\ _current_audio_files (player s') !! guild_id
         = _current_audio_files (player s) !! guild_id).
Proof.
  split.
  - intros title msg E. unfold skip_current_song in E.
    apply try_except_Ret_inv in E as [E|(e & s1 & _ & E)]; [|discriminate E].
    unfold skip_current_song_body in E.
    apply bind_Ret_inv in E as (a1 & s1 & E1 & E).
    rewrite get_queue_manager_run in E1. destruct a1. injection E1 as <-.
    apply bind_Ret_inv in E as (song & s2 & E2 & E).
    apply do_Ret_inv in E2 as (w2 & O2 & ->).
    destruct song as [song|]; [|discriminate E].
    apply bind_Ret_inv in E as (a3 & s3 & E3 & E).
    apply do_Ret_inv in E3 as (w3 & O3 & ->).
    apply bind_Ret_inv in E as (a4 & s4 & E4 & E).
    match type of E4 with _cleanup_current_audio ?g ?s0 = _ =>
      destruct (cleanup_current_audio_run g s0) as (s4' & new & E4' & Hp & Hl & Hf) end.
    rewrite E4 in E4'. destruct a4. injection E4' as <-.
    injection E as <- <- <-.
    cbn in Hp, Hl, O2. split; [reflexivity|]. split; [eauto|].
    rewrite Hp. split; [cbn; apply lookup_delete_eq|].
    exists ([mkEvent (QmGetCurrentSong guild_id) None; mkEvent (VmStopAudio guild_id) None]
            ++ new), (calls new).
    split; [|split].
    + rewrite Hl, <- !app_assoc. reflexivity.
    + rewrite !calls_app. reflexivity.
    + now apply file_calls_of_events.
  - intros E. unfold skip_current_song in E.
    apply try_except_Ret_inv in E as [E|(e & s1 & _ & E)].
    2:{ discriminate E. }
    unfold skip_current_song_body in E.
    apply bind_Ret_inv in E as (a1 & s1 & E1 & E).
    rewrite get_queue_manager_run in E1. destruct a1. injection E1 as <-.
    apply bind_Ret_inv in E as (song & s2 & E2 & E).
    apply do_Ret_inv in E2 as (w2 & O2 & ->).
    destruct song as [song|].
    + apply bind_Ret_inv in E as (a3 & s3 & E3 & E).
      apply bind_Ret_inv in E as (a4 & s4 & E4 & E). discriminate E.
    + injection E as <-. split; reflexivity.
Qed.

(** X23. [connect_to_user_channel] has no handler of its own: a member outside
    a voice channel, or in a stage channel, is refused before anything is
    called; what [connect_to_voice_channel] raises propagates; and a
    connection that fails leaves the player, its inactivity timer
    included, as it was. *)
Theorem connect_to_user_channel_outcomes (member : Member) (s : state) :
  (member_voice_channel member = None ->
   connect_to_user_channel member s
   = (Ret (false, Some "You must be in a voice channel to use music commands"), s))
  /\ (forall channel,
        member_voice_channel member = Some (channel, false) ->
        connect_to_user_channel member s
        = (Ret (false, Some "Bot can only connect to voice channels, not stage channels"), s))
  /\ (forall channel e w,
        member_voice_channel member = Some (channel, true) ->
        oracle (VmConnectToVoiceChannel channel) (world s) = (Raise e, w) ->
        connect_to_user_channel member s
        = (Raise e, mkState w (player s)
                      (log s ++ [mkEvent (VmConnectToVoiceChannel channel) (Some e)])))
  /\ (forall channel w,
        member_voice_channel member = Some (channel, true) ->
        oracle (VmConnectToVoiceChannel channel) (world s) = (Ret false, w) ->
        connect_to_user_channel member s
        = (Ret (false, Some "Failed to connect to voice channel"),
           mkState w (player s)
             (log s ++ [mkEvent (VmConnectToVoiceChannel channel) None]))).
Proof.
  unfold connect_to_user_channel.
  split; [intros ->; reflexivity|].
  split; [intros channel ->; reflexivity|].
  split.
  - intros channel e w -> O. cbn. unfold bind, do. rewrite O. reflexivity.
  - intros channel w -> O. cbn. unfold bind, do. rewrite O. reflexivity.
Qed.

End OpFacts.

Lemma stop_playback_success_witness :
  guild_view guild
    (player (@MusicPlayer.stop_playback online guild (start_state online 0%nat idle_player)).2)
  = cleared_view true.
Proof.
  destruct (@stop_playback_success online guild (start_state online 0%nat idle_player) None
              (@MusicPlayer.stop_playback online guild (start_state online 0%nat idle_player)).2)
    as (_ & Hv & _); [vm_compute; reflexivity | exact Hv].
Defined.

(** ** Outcomes of the clients *)

Section ClientFacts.
Context `{Environment}.

(** X18. [cleanup_file] never raises and leaves the player alone; it removes
    the file only after [os.path.exists] answered true, and returns true
    exactly when the removal then went through. *)
Theorem cleanup_file_outcome (file_path : string) (s : state) :
  exists r s' new,
    YouTubeClient.cleanup_file file_path s = (Ret r, s')
    /\ player s' = player s
    /\ log s' = log s ++ new
    /\ (r = true <->
        exists w1 w2,
          oracle (OsPathExists file_path) (world s) = (Ret true, w1)
          /\ oracle (OsRemove file_path) w1 = (Ret tt, w2))
    /\ (removed_files new <> [] ->
        exists w1, oracle (OsPathExists file_path) (world s) = (Ret true, w1))
    /\ removed_files new ⊆ [file_path].
Proof.
  unfold YouTubeClient.cleanup_file. unfold_run. cbn.
  repeat (first [ next_call | next_test ]).
  all: rewrite <- ?app_assoc; cbn [app].
  all: repeat match goal with
         | a : resp _ |- _ => progress cbn in a
         | a : unit |- _ => destruct a
         | a : bool |- _ => subst a
         end.
  all: do 3 eexists; (split; [reflexivity|]); cbn.
  all: split; [reflexivity|]. all: split; [reflexivity|].
  all: split; [split; [intros Hr; try discriminate Hr; eauto
                      | intros (w1 & w2 & O1 & O2); congruence] |].
  all: split; [intros Hn; try (exfalso; apply Hn; reflexivity); eauto | set_solver].
Qed.

(** X15. Without a bot-detection error, or with the fallback switched off,
    [_create_youtube_object] constructs once and lets the exception
    through as it is. *)
Theorem create_youtube_object_single_attempt (url : string) (cb : bool) (s : state) :
  let kw := YouTubeClient.with_callback cb
              (YouTubeClient._get_youtube_kwargs (config (player s)) 0) in
  (forall yt w, oracle (YouTubeCtor url kw) (world s) = (Ret yt, w) ->
     YouTubeClient._create_youtube_object url cb 0 s
     = (Ret yt, mkState w (player s) (log s ++ [mkEvent (YouTubeCtor url kw) None])))
  /\ (forall e w, oracle (YouTubeCtor url kw) (world s) = (Raise e, w) ->
        retries_after (config (player s)) e = false ->
        YouTubeClient._create_youtube_object url cb 0 s
        = (Raise e, mkState w (player s)
                      (log s ++ [mkEvent (YouTubeCtor url kw) (Some e)]))).
Proof.
  cbv zeta. unfold YouTubeClient._create_youtube_object, bind, get_player.
  change (Z.to_nat (2 - 0)) with 2%nat. cbn. unfold try_except_class, do. split.
  - intros yt w O. rewrite O. reflexivity.
  - intros e w O Hr. rewrite O. cbn. unfold retries_after in Hr.
    destruct (exc_class_eqb (e_class e) PytubeFixError); [|reflexivity].
    cbn in Hr. rewrite Hr. reflexivity.
Qed.

Lemma never_raises_if {A} (b : bool) (m1 m2 : M A) :
  never_raises m1 -> never_raises m2 -> never_raises (if b then m1 else m2).
Proof. destruct b; auto. Qed.

Lemma unchanged_player {A} (m : M A) :
  (forall I, keeps I m) -> forall s, player (m s).2 = player s.
Proof. intros Hk s. exact (Hk (fun p => p = player s) s eq_refl). Qed.


Lemma catbox_extract_returns url :
  returns (CatboxClient.extract_audio_info url)
    (fun r => forall info, r = Some info ->
       CatboxClient.is_catbox_url url = true /\ catbox_info_of url info).
Proof.
  unfold CatboxClient.extract_audio_info.
  destruct (CatboxClient.is_catbox_url url) eqn:Hc; cbn [negb].
  2:{ apply returns_ret. discriminate. }
  repeat returns_step; intros info' Hi; try discriminate Hi;
    injection Hi as <-; (split; [reflexivity|]); repeat split.
Qed.

(** X11. [CatboxClient.extract_audio_info] never raises, leaves the player
    alone and makes HEAD requests to the URL only, so it downloads
    nothing; a URL that is not a Catbox URL gives [None] with nothing
    called; and the information returned is about the URL it was given:
    it is streamed from that URL, has no known duration, and carries the
    title and format read off the URL. *)
Theorem catbox_extract_audio_info_outcome (url : string) (s : state) :
  exists r s' new,
    CatboxClient.extract_audio_info url s = (Ret r, s')
    /\ player s' = player s
    /\ log s' = log s ++ new
    /\ Forall (fun e => is_probe_call url (ev_call e)) new
    /\ (CatboxClient.is_catbox_url url = false -> r = None /\ s' = s)
    /\ (forall info, r = Some info ->
          CatboxClient.is_catbox_url url = true /\ catbox_info_of url info).
Proof.
  assert (Hn : never_raises (CatboxClient.extract_audio_info url)).
  { unfold CatboxClient.extract_audio_info.
    apply never_raises_if; [apply never_raises_ret|].
    apply never_raises_try_except. intros e. apply never_raises_ret. }
  destruct (Hn s) as (r & s' & E).
  destruct (catbox_extract_calls url s) as (new & Hl & Hf). rewrite E in Hl. cbn in Hl.
  exists r, s', new. split; [exact E|].
  split.
  { pose proof (unchanged_player (CatboxClient.extract_audio_info url)
                  (fun I => keeps_catbox_extract I url) s) as Hp.
    now rewrite E in Hp. }
  split; [exact Hl|]. split; [exact Hf|]. split.
  { intros Hc. unfold CatboxClient.extract_audio_info in E. rewrite Hc in E.
    cbn in E. injection E as <- <-. auto. }
  exact (catbox_extract_returns url s r s' E).
Qed.


Lemma sanitize_filename_is_safe title ext :
  safe_name (YouTubeClient._sanitize_filename title +:+ "." +:+ ext).
Proof.
  exists (YouTubeClient._sanitize_filename title), ext. split; [reflexivity|].
  unfold YouTubeClient._sanitize_filename.
  rewrite take_empty by lia.
  destruct (PyStr.is_empty (PyStr.strip (YouTubeClient.replace_invalid_chars title))) eqn:E.
  - split; [reflexivity|]. split; [cbn; lia|].
    intros c Hc. cbn in Hc. intuition (subst; reflexivity).
  - split; [rewrite take_empty by lia; exact E|]. split; [apply length_take|].
    intros c Hc.
    apply contains_take, contains_rstrip, contains_lstrip, replace_invalid_chars_clean, Hc.
Qed.

Section Download.
Local Arguments YouTubeClient._sanitize_filename : simpl never.
Local Arguments YouTubeClient.str_or : simpl never.
Local Arguments YouTubeClient.int_or : simpl never.
Local Arguments YouTubeClient._is_bot_detection_error : simpl never.
Local Arguments YouTubeClient._get_youtube_kwargs : simpl never.
Local Arguments YouTubeClient.with_callback : simpl never.
Local Arguments YouTubeClient.fallback_enabled : simpl never.
Local Arguments PyStr.is_empty : simpl never.
Local Arguments String.append : simpl never.

Lemma downloads_app l1 l2 : downloads (l1 ++ l2) = downloads l1 ++ downloads l2.
Proof. apply omap_app. Qed.

Lemma create_youtube_object_quiet url cb attempt (s : state) :
  player (YouTubeClient._create_youtube_object url cb attempt s).2 = player s
  /\ exists new,
       log (YouTubeClient._create_youtube_object url cb attempt s).2 = log s ++ new
       /\ downloads new = [].
Proof.
  split.
  - exact (unchanged_player _ (fun I => keeps_create_youtube_object I url cb attempt) s).
  - destruct (create_youtube_object_calls (is_metadata_call url) url cb attempt
                (fun kw => eq_refl) s) as (new & E & F).
    exists new. split; [exact E|].
    clear E. induction F as [|e l He _ IH]; [reflexivity|].
    unfold downloads in *. cbn. rewrite IH.
    destruct (ev_call e); try contradiction; reflexivity.
Qed.

Lemma download_audio_downloads (url : string) (s : state) :
  let '(r, s') := YouTubeClient.download_audio url s in
  exists new,
    log s' = log s ++ new
    /\ (downloads new = []
        \/ exists fn, downloads new = [(temp_dir (player s), fn)] /\ safe_name fn)
    /\ (succeeded r -> downloads new <> []).
Proof.
  unfold YouTubeClient.download_audio.
  destruct (negb (YouTubeClient.is_youtube_url url)).
  { exists []. cbn. rewrite app_nil_r. split; [reflexivity|]. split; [auto|contradiction]. }
  unfold YouTubeClient.download_audio_body.
  set (create := YouTubeClient._create_youtube_object url true 0).
  unfold try_except, bind at 1, tell at 1. unfold bind at 1.
  match goal with |- context [create ?s0] =>
    destruct (create_youtube_object_quiet url true 0 s0) as (Hp & new0 & Hl & Hd);
    fold create in Hp, Hl; destruct (create s0) as [r s1] eqn:Ec
  end.
  cbn in Hp, Hl. clear Ec. clearbody create.
  destruct r as [yt|e]; [destruct yt as [yt|]|].
  all: unfold_run; cbn.
  all: repeat (first [ next_call
                | match goal with
                  | |- context [if ?b then _ else _] =>
                      lazymatch b with
                      | context [oracle] => fail
                      | _ => destruct b eqn:?; cbn
                      end
                  | |- context [match ?x with Some _ => _ | None => _ end] =>
                      lazymatch x with
                      | context [oracle] => fail
                      | _ => destruct x eqn:?; cbn
                      end
                  end ]).
  all: rewrite ?Hl, ?Hp, <- ?app_assoc; cbn [app].
  all: eexists; (split; [reflexivity|]); rewrite ?downloads_app, ?Hd; cbn.
  all: split; [|first [contradiction | intros _; discriminate]].
  all: first [ left; rewrite ?app_nil_r; assumption
             | left; reflexivity
             | right; eexists; split; [reflexivity|apply sanitize_filename_is_safe] ].
Qed.

End Download.

Lemma str_or_nonempty x d :
  PyStr.is_empty d = false -> PyStr.is_empty (YouTubeClient.str_or x d) = false.
Proof.
  intros Hd. unfold YouTubeClient.str_or.
  destruct x as [t|]; [|exact Hd]. destruct (PyStr.is_empty t) eqn:E; assumption.
Qed.


Lemma youtube_extract_returns url :
  returns (YouTubeClient.extract_audio_info url)
    (fun r => forall info, r = Some info ->
       YouTubeClient.is_youtube_url url = true /\ youtube_info_of url false info).
Proof.
  unfold YouTubeClient.extract_audio_info.
  destruct (YouTubeClient.is_youtube_url url) eqn:Hy; cbn [negb].
  2:{ apply returns_ret. discriminate. }
  repeat returns_step; intros info' Hi; try discriminate Hi;
    injection Hi as <-; (split; [reflexivity|]); unfold youtube_info_of; cbn;
    repeat split; apply str_or_nonempty; reflexivity.
Qed.

(** X16. [YouTubeClient.extract_audio_info] never raises, leaves the player
    alone and downloads nothing: it constructs the [YouTube] object for the
    URL and reads its metadata. A URL that is not a YouTube URL gives
    [None] with nothing called. The information returned is about the URL
    given, has no file yet, and has a title and an uploader that are not
    empty. *)
Theorem youtube_extract_audio_info_outcome (url : string) (s : state) :
  exists r s' new,
    YouTubeClient.extract_audio_info url s = (Ret r, s')
    /\ player s' = player s
    /\ log s' = log s ++ new
    /\ Forall (fun e => is_metadata_call url (ev_call e)) new
    /\ (YouTubeClient.is_youtube_url url = false -> r = None /\ s' = s)
    /\ (forall info, r = Some info ->
          YouTubeClient.is_youtube_url url = true /\ youtube_info_of url false info).
Proof.
  assert (Hn : never_raises (YouTubeClient.extract_audio_info url)).
  { unfold YouTubeClient.extract_audio_info.
    apply never_raises_if; [apply never_raises_ret|].
    apply never_raises_try_except. intros e. apply never_raises_ret. }
  destruct (Hn s) as (r & s' & E).
  destruct (youtube_extract_calls url s) as (new & Hl & Hf). rewrite E in Hl. cbn in Hl.
  exists r, s', new. split; [exact E|].
  split.
  { pose proof (unchanged_player (YouTubeClient.extract_audio_info url)
                  (fun I => keeps_youtube_extract I url) s) as Hp.
    now rewrite E in Hp. }
  split; [exact Hl|]. split; [exact Hf|]. split.
  { intros Hc. unfold YouTubeClient.extract_audio_info in E. rewrite Hc in E.
    cbn in E. injection E as <- <-. auto. }
  exact (youtube_extract_returns url s r s' E).
Qed.

Lemma download_audio_returns url :
  returns (YouTubeClient.download_audio url)
    (fun r => r.1.1 = true ->
       r.2 = None /\ exists info, r.1.2 = Some info /\ youtube_info_of url true info).
Proof.
  unfold YouTubeClient.download_audio, YouTubeClient.download_audio_body.
  repeat returns_step; cbn; intros Hs; try discriminate Hs.
  split; [reflexivity|]. eexists. split; [reflexivity|].
  unfold youtube_info_of; cbn. repeat split; try (apply str_or_nonempty; reflexivity).
  assumption.
Qed.

(** X17. [download_audio] never raises and leaves the player alone. It
    downloads at most once, into the player's temporary directory, under a
    name whose title part is not empty, has at most 100 characters and
    none of the characters that [_sanitize_filename] replaces. A
    successful result comes with exactly one such download and describes
    the URL given and a file path that is not empty. *)
Theorem download_audio_outcome (url : string) (s : state) :
  exists r s' new,
    YouTubeClient.download_audio url s = (Ret r, s')
    /\ player s' = player s
    /\ log s' = log s ++ new
    /\ (downloads new = []
        \/ exists fn, downloads new = [(temp_dir (player s), fn)] /\ safe_name fn)
    /\ (r.1.1 = true ->
        downloads new <> []
        /\ r.2 = None
        /\ exists info, r.1.2 = Some info /\ youtube_info_of url true info).
Proof.
  destruct (download_audio_reports url) as (Hn & _).
  destruct (Hn s) as (r & s' & E).
  pose proof (download_audio_downloads url s) as Hdl. rewrite E in Hdl.
  destruct Hdl as (new & Hl & Hd & Hs).
  exists r, s', new. split; [exact E|].
  split.
  { pose proof (unchanged_player (YouTubeClient.download_audio url)
                  (fun I => keeps_download_audio I url) s) as Hp.
    now rewrite E in Hp. }
  split; [exact Hl|]. split; [exact Hd|].
  intros Hr. split.
  - apply Hs. destruct r as [[[] ?] ?]; [exact Logic.I|discriminate Hr].
  - exact (download_audio_returns url s r s' E Hr).
Qed.

End ClientFacts.

(** ** A successful seek *)

Ltac do_inv E w Ho :=
  match type of E with
  | do ?c ?s0 = (Ret ?a, ?s1) =>
      apply (do_Ret_inv c s0 a s1) in E as (w & Ho & ->)
  end.

Section SeekOpFacts.
Context `{Environment}.
Import MusicPlayer.

Lemma bind_get_player {B} (f : PlayerState -> M B) s :
  bind get_player f s = f (player s) s.
Proof. reflexivity. Qed.

Lemma bind_modify_player {B} g (f : unit -> M B) s :
  bind (modify_player g) f s = f tt (mkState (world s) (g (player s)) (log s)).
Proof. reflexivity. Qed.

Lemma bind_lift_Ret_inv {A B} (r : result A) (f : A -> M B) s b s' :
  bind (lift r) f s = (Ret b, s') -> exists a, r = Ret a /\ f a s = (Ret b, s').
Proof. unfold bind, lift. destruct r as [a|e]; [eauto|discriminate]. Qed.

Lemma validate_seek_position_success target current duration is_relative r :
  SeekManager.validate_seek_position target current duration is_relative = r ->
  SeekManager.success r = true ->
  SeekManager.target_position r = Some (absolute_position target current is_relative)
  /\ (0 <= absolute_position target current is_relative)%Q
  /\ (absolute_position target current is_relative <= duration)%Q.
Proof.
  unfold SeekManager.validate_seek_position.
  fold (absolute_position target current is_relative).
  intros <-.
  destruct (Qlt_le_dec (absolute_position target current is_relative) 0); [discriminate|].
  destruct (Qlt_le_dec duration (absolute_position target current is_relative));
    [discriminate|].
  auto.
Qed.

Lemma float_of_int_Ret n q : PyStr.float_of_int n = Ret q -> q = inject_Z n.
Proof. unfold PyStr.float_of_int. destruct (_ <? _); congruence. Qed.

Lemma current_playback_position_read g s r s1 :
  current_playback_position g s = (Ret r, s1) ->
  (_playback_start_times (player s) !! g = None /\ r = None /\ s1 = s)
  \/ exists now w, oracle Time (world s) = (Ret now, w)
                   /\ r = get_current_playback_position g now (player s)
                   /\ s1 = mkState w (player s) (log s ++ [mkEvent Time None]).
Proof.
  unfold current_playback_position. rewrite bind_get_player.
  destruct (_playback_start_times (player s) !! g) eqn:Hs.
  - intros E. apply bind_Ret_inv in E as (now & s2 & E1 & E).
    do_inv E1 w Ho. injection E as <- <-. right. eauto.
  - intros E. injection E as <- <-. auto.
Qed.

Lemma perform_seek_success g target song s s' :
  _perform_seek g target song s = (Ret true, s') ->
  exists path now src w1 w2 w3 w4,
    _current_audio_files (player s) !! g = Some path
    /\ PyStr.is_empty path = false
    /\ oracle (VmStopAudio g) (world s) = (Ret tt, w1)
    /\ oracle (FFmpegPCMAudio path (Some target)) w1 = (Ret src, w2)
    /\ oracle Time w2 = (Ret now, w3)
    /\ oracle (VmPlayAudio g src) w3 = (Ret true, w4)
    /\ s' = mkState w4 (_update_timing_after_seek g target now (player s))
              (log s ++ map (fun c => mkEvent c None)
                            [VmStopAudio g; FFmpegPCMAudio path (Some target); Time;
                             VmPlayAudio g src]).
Proof.
  unfold _perform_seek. intros E.
  apply try_except_Ret_inv in E as [E|(e & s1 & _ & E)]; [|discriminate E].
  rewrite bind_get_player in E.
  destruct (_current_audio_files (player s) !! g) as [path|] eqn:Hf; [|discriminate E].
  destruct (PyStr.is_empty path) eqn:Hne; [discriminate E|].
  apply bind_Ret_inv in E as (a1 & s1 & E1 & E).
  do_inv E1 w1 Ho1. destruct a1.
  apply bind_Ret_inv in E as (src & s2 & E2 & E).
  do_inv E2 w2 Ho2.
  apply bind_Ret_inv in E as (now & s3 & E3 & E).
  do_inv E3 w3 Ho3.
  rewrite bind_modify_player in E.
  do_inv E w4 Ho4.
  cbn in *. exists path, now, src, w1, w2, w3, w4.
  repeat split; try assumption.
  rewrite <- !app_assoc. reflexivity.
Qed.

Lemma timing_after_seek g t now p :
  timing_of g (_update_timing_after_seek g t now p) = (Some (now - t)%Q, Some 0%Q, None).
Proof. unfold timing_of. cbn. now rewrite !lookup_insert_eq, lookup_delete_eq. Qed.

Lemma position_after_seek_is g t now p :
  (0 <= t)%Q -> position_is g now (_update_timing_after_seek g t now p) t.
Proof.
  intros Ht. unfold position_is. rewrite position_after_seek.
  eexists. split; [reflexivity|]. unfold max0.
  destruct (Qlt_le_dec 0 (now - (now - t) - 0)); lra.
Qed.

(** X24. A successful [seek_to_position] went through these answers, each
    call made in the world the one before it left: the voice manager said
    it is connected; the queue gave a current song; the time string
    parsed; the position was read off the timing with a reading of the
    clock, or taken as zero without one when the guild has no start time;
    the target, the parsed value or for a signed string the position read
    plus it, lies within that song; the audio was stopped, FFmpeg was
    started on the guild's audio file at the target, the clock was read
    and the audio played. The timing then holds that clock reading minus
    the target as the start, no pause, and so the position read at that
    reading is the target. *)
Theorem seek_to_position_success (guild_id : Z) (time_str : string) (s : state)
    msg (s' : state) :
  seek_to_position guild_id time_str s = (Ret (true, msg), s') ->
  msg = None
  /\ exists song path parsed current target now src w1 w2 w3 w4 w5 w6 before,
       oracle (VmIsConnected guild_id) (world s) = (Ret true, w1)
       /\ oracle (QmGetCurrentSong guild_id) w1 = (Ret (Some song), w2)
       /\ SeekManager.parse_seek_time time_str
          = Ret (SeekManager.mkSeekResult true (Some parsed) None)
       /\ ((_playback_start_times (player s) !! guild_id = None
            /\ current = 0%Q /\ w3 = w2 /\ before = [])
           \/ exists t,
                oracle Time w2 = (Ret t, w3)
                /\ current = default 0%Q (get_current_playback_position guild_id t (player s))
                /\ before = [Time])
       /\ target = absolute_position parsed current (SeekManager.is_relative_seek time_str)
       /\ (0 <= target)%Q /\ (target <= inject_Z (song_duration song))%Q
       /\ _current_audio_files (player s) !! guild_id = Some path
       /\ PyStr.is_empty path = false
       /\ oracle (VmStopAudio guild_id) w3 = (Ret tt, w4)
       /\ oracle (FFmpegPCMAudio path (Some target)) w4 = (Ret src, w5)
       /\ oracle Time w5 = (Ret now, w6)
       /\ oracle (VmPlayAudio guild_id src) w6 = (Ret true, world s')
       /\ log s' = log s ++ map (fun c => mkEvent c None)
                              ([VmIsConnected guild_id; QmGetCurrentSong guild_id]
                               ++ before
                               ++ [VmStopAudio guild_id; FFmpegPCMAudio path (Some target);
                                   Time; VmPlayAudio guild_id src])
       /\ timing_of guild_id (player s') = (Some (now - target)%Q, Some 0%Q, None)
       /\ position_is guild_id now (player s') target.
Proof.
  intros E. unfold seek_to_position in E.
  apply try_except_Ret_inv in E as [E|(e & s1 & _ & E)]; [|discriminate E].
  unfold seek_to_position_body in E.
  apply bind_Ret_inv in E as (connected & s1 & E1 & E).
  do_inv E1 w1 Ho1.
  destruct connected; cbn [negb] in E; [|discriminate E].
  apply bind_Ret_inv in E as (a2 & s2 & E2 & E).
  rewrite get_queue_manager_run in E2. destruct a2. injection E2 as <-.
  apply bind_Ret_inv in E as (song & s3 & E3 & E).
  do_inv E3 w2 Ho2.
  destruct song as [song|]; [|discriminate E].
  apply bind_lift_Ret_inv in E as (sr & Ep & E).
  pose proof (parse_seek_time_shape time_str) as Hwf. rewrite Ep in Hwf. cbn in Hwf.
  destruct sr as [ok tp em]. cbn [SeekManager.success SeekManager.target_position] in E.
  destruct ok; [|discriminate E]. destruct tp as [parsed|]; [|discriminate E].
  assert (em = None) as ->.
  { destruct Hwf as [(_ & _ & He)|(Hs & _)]; [exact He|discriminate Hs]. }
  apply bind_Ret_inv in E as (cp & s4 & E4 & E).
  apply current_playback_position_read in E4.
  apply bind_lift_Ret_inv in E as (dur & Ed & E).
  apply float_of_int_Ret in Ed. subst dur.
  cbv zeta in E.
  match type of E with
  | context [SeekManager.validate_seek_position ?a ?b ?c ?d] =>
      destruct (SeekManager.validate_seek_position a b c d) as [vok vtp vem] eqn:Ev
  end.
  cbn [SeekManager.success SeekManager.target_position] in E.
  destruct vok; [|discriminate E]. destruct vtp as [target|]; [|discriminate E].
  apply validate_seek_position_success in Ev as (Et & H0 & Hd); [|reflexivity].
  cbn in Et. injection Et as ->.
  apply bind_Ret_inv in E as (ok & s5 & E5 & E).
  destruct ok; cbn [negb] in E; [|discriminate E]. injection E as <- <-.
  apply perform_seek_success in E5
    as (path & now & src & w4 & w5 & w6 & w7 & Hf & Hne & O4 & O5 & O6 & O7 & ->).
  split; [reflexivity|].
  cbn in Ho1, Ho2.
  destruct E4 as [(Hst & -> & ->)|(t & w3 & Ot & -> & ->)]; cbn in *.
  - exists song, path, parsed, 0%Q,
      (absolute_position parsed 0 (SeekManager.is_relative_seek time_str)),
      now, src, w1, w2, w2, w4, w5, w6, [].
    repeat (split; [first [assumption | reflexivity | (left; auto; fail)]|]).
    split; [rewrite <- !app_assoc; reflexivity|].
    split; [apply timing_after_seek|]. apply position_after_seek_is. exact H0.
  - exists song, path, parsed,
      (default 0%Q (get_current_playback_position guild_id t (player s))),
      (absolute_position parsed
         (default 0%Q (get_current_playback_position guild_id t (player s)))
         (SeekManager.is_relative_seek time_str)),
      now, src, w1, w2, w3, w4, w5, w6, [Time].
    repeat (split; [first [assumption | reflexivity | (right; eauto; fail)]|]).
    split; [rewrite <- !app_assoc; reflexivity|].
    split; [apply timing_after_seek|]. apply position_after_seek_is. exact H0.
Qed.

End SeekOpFacts.

(** ** Adding a song *)

Section AddFacts.
Context `{Environment}.
Import MusicPlayer.

Lemma added_songs_app l1 l2 : added_songs (l1 ++ l2) = added_songs l1 ++ added_songs l2.
Proof. apply omap_app. Qed.

Lemma client_calls_add_nothing url new :
  Forall (fun e => is_client_call url (ev_call e)) new -> added_songs new = [].
Proof.
  induction 1 as [|e l He _ IH]; [reflexivity|].
  unfold added_songs in *. cbn. rewrite IH.
  destruct (ev_call e); try reflexivity. destruct He as [[]|[]].
Qed.

Lemma reset_inactivity_timer_Ret g s s1 :
  reset_inactivity_timer g s = (Ret tt, s1) ->
  exists now w,
    oracle Time (world s) = (Ret now, w)
    /\ s1 = mkState w (_reset_inactivity_timer g now (player s))
              (log s ++ [mkEvent Time None]).
Proof.
  unfold reset_inactivity_timer. rewrite bind_modify_player. intros E.
  apply bind_Ret_inv in E as (now & s2 & E1 & E).
  do_inv E1 w Ho. cbn in E. injection E as <-. eauto.
Qed.

Lemma start_playback_Ret g s s1 :
  start_playback g s = (Ret tt, s1) ->
  is_Some (_playback_tasks (player s1) !! g)
  /\ _queue_managers (player s1) = _queue_managers (player s)
  /\ exists new, log s1 = log s ++ new /\ added_songs new = [].
Proof.
  unfold start_playback. rewrite bind_get_player.
  destruct (_playback_tasks (player s) !! g) as [t|] eqn:Ht.
  - intros E. injection E as <-. rewrite Ht. split; [eauto|]. split; [reflexivity|].
    exists []. now rewrite app_nil_r.
  - intros E. apply bind_Ret_inv in E as ([] & s2 & E1 & E).
    apply reset_inactivity_timer_Ret in E1 as (now & w & _ & ->).
    cbn in E. injection E as <-. cbn.
    split; [rewrite lookup_insert_eq; eauto|]. split.
    + unfold cancel_and_remove_timer.
      destruct (_inactivity_timers (player s) !! g); reflexivity.
    + eexists. split; reflexivity.
Qed.

Lemma extraction_Ret (source_type : AudioSourceType) url s r s1 :
  detect_audio_source_type url = Some source_type ->
  (match source_type with
   | YOUTUBE =>
       bind (YouTubeClient.extract_audio_info url)
         (fun youtube_info => ret (from_youtube_info <$> youtube_info))
   | CATBOX =>
       bind (CatboxClient.extract_audio_info url)
         (fun catbox_info => ret (from_catbox_info <$> catbox_info))
   end) s = (Ret r, s1) ->
  player s1 = player s
  /\ (forall info, r = Some info -> info_of url info)
  /\ exists new, log s1 = log s ++ new
                 /\ Forall (fun e => is_client_call url (ev_call e)) new.
Proof.
  unfold detect_audio_source_type. intros Hd E. destruct source_type.
  - assert (Hy : YouTubeClient.is_youtube_url url = true)
      by (destruct (YouTubeClient.is_youtube_url url); [reflexivity|];
          destruct (CatboxClient.is_catbox_url url); discriminate).
    apply bind_Ret_inv in E as (yi & s2 & E1 & E). injection E as <- <-.
    pose proof (unchanged_player _ (fun I => keeps_youtube_extract I url) s) as Hp.
    destruct (youtube_extract_calls url s) as (new & Hl & Hf).
    rewrite E1 in Hp, Hl. cbn in Hp, Hl.
    split; [exact Hp|]. split.
    + intros info Hi. destruct yi as [i|]; [|discriminate Hi]. injection Hi as <-.
      exact (youtube_extract_returns url s _ _ E1 i eq_refl).
    + exists new. split; [exact Hl|].
      eapply Forall_impl; [exact Hf|]. intros e He. now right.
  - assert (Hy : YouTubeClient.is_youtube_url url = false)
      by (destruct (YouTubeClient.is_youtube_url url); [discriminate|reflexivity]).
    apply bind_Ret_inv in E as (ci & s2 & E1 & E). injection E as <- <-.
    pose proof (unchanged_player _ (fun I => keeps_catbox_extract I url) s) as Hp.
    destruct (catbox_extract_calls url s) as (new & Hl & Hf).
    rewrite E1 in Hp, Hl. cbn in Hp, Hl.
    split; [exact Hp|]. split.
    + intros info Hi. destruct ci as [i|]; [|discriminate Hi]. injection Hi as <-.
      destruct (catbox_extract_returns url s _ _ E1 i eq_refl) as (Hc & Hi).
      cbn. auto.
    + exists new. split; [exact Hl|].
      eapply Forall_impl; [exact Hf|]. intros e He. now left.
Qed.

(** X26. A successful [add_song_to_queue] added exactly one song, to the
    requester's guild and in the requester's name: the song that the
    client for the URL's source returned about that URL; it returns the
    position the queue gave; and unless the voice manager answered that
    audio is playing, the guild has a playback task afterwards. *)
Theorem add_song_to_queue_success (url : string) (requester : Member) (s : state)
    pos msg (s' : state) :
  add_song_to_queue url requester s = (Ret (true, pos, msg), s') ->
  let guild_id := member_guild_id requester in
  msg = None
  /\ guild_id ∈ _queue_managers (player s')
  /\ exists info position new,
       info_of url info
       /\ pos = Some position
       /\ log s' = log s ++ new
       /\ added_songs new = [(guild_id, info, requester)]
       /\ (exists w w',
             oracle (QmAddSong guild_id info requester) w = (Ret position, w'))
       /\ (is_Some (_playback_tasks (player s') !! guild_id)
           \/ exists w w', oracle (VmIsPlaying guild_id) w = (Ret true, w')).
Proof.
  intros E. cbv zeta. unfold add_song_to_queue in E.
  apply try_except_Ret_inv in E as [E|(e & s1 & _ & E)]; [|discriminate E].
  unfold add_song_to_queue_body in E.
  destruct (detect_audio_source_type url) as [source_type|] eqn:Hd; [|discriminate E].
  unfold add_song_of_source in E.
  apply bind_Ret_inv in E as (uai & s1 & E1 & E).
  apply (extraction_Ret _ _ _ _ _ Hd) in E1 as (Hp1 & Hinfo & new1 & Hl1 & Hf1).
  destruct uai as [info|]; [|discriminate E]. specialize (Hinfo info eq_refl).
  apply bind_Ret_inv in E as ([] & s2 & E2 & E).
  rewrite get_queue_manager_run in E2. injection E2 as <-.
  apply bind_Ret_inv in E as (position & s3 & E3 & E).
  do_inv E3 w3 Ho3.
  apply bind_Ret_inv in E as ([] & s4 & E4 & E).
  apply reset_inactivity_timer_Ret in E4 as (now & w4 & Ho4 & ->).
  apply bind_Ret_inv in E as (playing & s5 & E5 & E).
  do_inv E5 w5 Ho5.
  apply bind_Ret_inv in E as ([] & s6 & E6 & E).
  injection E as <- <- <-.
  split; [reflexivity|].
  assert (Hq : member_guild_id requester ∈ _queue_managers (player s6)
               /\ exists new6, log s6 = (log s1 ++ [mkEvent (QmAddSong (member_guild_id requester) info requester) None; mkEvent Time None; mkEvent (VmIsPlaying (member_guild_id requester)) None]) ++ new6
                               /\ added_songs new6 = []
                               /\ (playing = false ->
                                   is_Some (_playback_tasks (player s6)
                                              !! member_guild_id requester))).
  { destruct playing; cbn [negb] in E6.
    - injection E6 as <-. cbn. split.
      + unfold cancel_and_remove_timer.
        destruct (_inactivity_timers _ !! _); cbn;
          apply elem_of_union; left; now apply elem_of_singleton.
      + exists []. rewrite app_nil_r, <- !app_assoc. cbn.
        split; [reflexivity|]. split; [reflexivity|discriminate].
    - apply start_playback_Ret in E6 as (Hs & Hqm & new6 & Hl6 & Ha6).
      split.
      + rewrite Hqm. cbn. unfold cancel_and_remove_timer.
        destruct (_inactivity_timers _ !! _); cbn;
          apply elem_of_union; left; now apply elem_of_singleton.
      + exists new6. rewrite Hl6. cbn. rewrite <- !app_assoc. cbn. auto. }
  destruct Hq as (Hqm & new6 & Hl6 & Ha6 & Hplay).
  split; [exact Hqm|].
  exists info, position. eexists. split; [exact Hinfo|]. split; [reflexivity|]. split.
  { rewrite Hl6, Hl1, <- !app_assoc. reflexivity. }
  split.
  { rewrite !added_songs_app, (client_calls_add_nothing url new1 Hf1), Ha6. reflexivity. }
  split; [eauto|].
  destruct playing; [right; eauto|left; auto].
Qed.

End AddFacts.

(** ** The playback loop ends with the timer armed *)

Section LoopFacts.
Context `{Environment}.
Import MusicPlayer.
Local Arguments _cleanup_current_audio : simpl never.

Lemma start_inactivity_timer_arms g p : timer_armed g (_start_inactivity_timer g p).
Proof.
  destruct (start_inactivity_timer_effect g p) as (Hi & Ht & _).
  exists (length (tasks p)). split; [exact Hi|]. rewrite Ht. f_equal. f_equal. f_equal.
  unfold _get_auto_disconnect_timeout, _start_inactivity_timer, create_task.
  destruct (_inactivity_timers p !! g); reflexivity.
Qed.

Lemma playback_pass_of_song_continues g song :
  returns
    (bind (song_audio_file song) (fun audio_file_path =>
       match audio_file_path with
       | None => ret Continue
       | Some audio_file_path =>
           if PyStr.is_empty audio_file_path then ret Continue
           else
             bind (modify_player (set_current_audio_files (<[g := audio_file_path]>)))
               (fun _ =>
             bind (do (FFmpegPCMAudio audio_file_path None)) (fun audio_source =>
             bind (do (VmPlayAudio g audio_source)) (fun ok =>
             if negb ok then bind (_cleanup_current_audio g) (fun _ => ret Continue)
             else
               bind (do Time) (fun now =>
               bind (modify_player (_start_playback_timing g now)) (fun _ =>
               bind (do (PlaybackFinishedWait g)) (fun _ =>
               bind (modify_player (_stop_playback_timing g)) (fun _ =>
               bind (_cleanup_current_audio g) (fun _ => ret Continue))))))))
       end))
    (fun step => step = Continue).
Proof. repeat returns_step; reflexivity. Qed.

Lemma playback_pass_break g s s' :
  playback_loop_pass g s = (Ret Break, s') ->
  exists w,
    oracle (QmGetNextSong g) (world s) = (Ret None, w)
    /\ s' = mkState w (_start_inactivity_timer g (player s))
              (log s ++ [mkEvent (QmGetNextSong g) None]).
Proof.
  unfold playback_loop_pass. intros E.
  apply bind_Ret_inv in E as (song & s1 & E1 & E).
  do_inv E1 w Ho. destruct song as [song|].
  - apply (playback_pass_of_song_continues g song) in E. discriminate E.
  - rewrite bind_modify_player in E. injection E as <-. eauto.
Qed.

Lemma playback_loop_while_break fuel g : forall s s1,
  playback_loop_while fuel g s = (Ret true, s1) ->
  timer_armed g (player s1)
  /\ exists l, log s1 = l ++ [mkEvent (QmGetNextSong g) None].
Proof.
  induction fuel as [|fuel IH]; intros s s1 E; [discriminate E|].
  cbn [playback_loop_while] in E.
  apply bind_Ret_inv in E as (step & s2 & E1 & E).
  destruct step; [exact (IH _ _ E)|].
  injection E as <-.
  apply playback_pass_break in E1 as (w & _ & ->). cbn.
  split; [apply start_inactivity_timer_arms|eauto].
Qed.

Lemma playback_loop_while_break_answer fuel g : forall s s1,
  playback_loop_while fuel g s = (Ret true, s1) ->
  exists s0 w,
    loop_reaches g s s0
    /\ oracle (QmGetNextSong g) (world s0) = (Ret None, w)
    /\ s1 = mkState w (_start_inactivity_timer g (player s0))
              (log s0 ++ [mkEvent (QmGetNextSong g) None]).
Proof.
  induction fuel as [|fuel IH]; intros s s1 E; [discriminate E|].
  cbn [playback_loop_while] in E.
  apply bind_Ret_inv in E as (step & s2 & E1 & E).
  destruct step.
  - destruct (IH _ _ E) as (s0 & w & Hr & Ho & Hs).
    exists s0, w. split; [exact (loop_reaches_pass g s s2 s0 E1 Hr)|]. auto.
  - injection E as <-.
    apply playback_pass_break in E1 as (w & Ho & ->).
    exists s, w. split; [apply loop_reaches_start|]. auto.
Qed.

Lemma timer_armed_fields g p p' :
  _inactivity_timers p' = _inactivity_timers p -> tasks p' = tasks p ->
  config p' = config p -> timer_armed g p -> timer_armed g p'.
Proof.
  unfold timer_armed, _get_auto_disconnect_timeout. intros -> -> ->. auto.
Qed.

(** X27. When the [while] of the playback loop ends by its [break], the
    last thing it did was to ask the queue for the next song, in a state
    the loop had reached by passes that went on, and the queue answered
    that there is none; the [while] ends in the world that answer left,
    with the inactivity timer started from the player of that state. The
    loop then ends with the
    guild's inactivity timer armed, and its [finally] leaves the guild
    with neither a playback task nor an audio file entered. *)
Theorem playback_loop_ends_with_timer (fuel : nat) (guild_id : Z) (s s1 : state) :
  playback_loop_while fuel guild_id (get_queue_manager guild_id s).2 = (Ret true, s1) ->
  (exists s0 w,
     loop_reaches guild_id (get_queue_manager guild_id s).2 s0
     /\ oracle (QmGetNextSong guild_id) (world s0) = (Ret None, w)
     /\ s1 = mkState w (_start_inactivity_timer guild_id (player s0))
               (log s0 ++ [mkEvent (QmGetNextSong guild_id) None]))
  /\ exists s',
       _playback_loop fuel guild_id s = (Ret true, s')
       /\ timer_armed guild_id (player s')
       /\ _playback_tasks (player s') !! guild_id = None
       /\ _current_audio_files (player s') !! guild_id = None.
Proof.
  intros E. destruct (playback_loop_while_break _ _ _ _ E) as (Ha & _).
  split; [exact (playback_loop_while_break_answer _ _ _ _ E)|].
  unfold _playback_loop. unfold bind at 1. rewrite get_queue_manager_run in *.
  cbn [snd] in E. unfold try_finally, try_except. rewrite E.
  rewrite bind_modify_player.
  match goal with |- context [_cleanup_current_audio ?g ?s0] =>
    destruct (cleanup_current_audio_run g s0) as (s2 & new & Ecl & Hp & _)
  end.
  rewrite Ecl. exists s2. split; [reflexivity|]. rewrite Hp. cbn.
  split; [|split; [apply lookup_delete_eq|apply lookup_delete_eq]].
  eapply timer_armed_fields; [| | |exact Ha]; reflexivity.
Qed.

End LoopFacts.

Lemma playback_loop_ends_with_timer_witness :
  timer_armed guild
    (player (@MusicPlayer._playback_loop online 3 guild
               (start_state online 0%nat fresh_player)).2).
Proof.
  destruct (@playback_loop_ends_with_timer online 3 guild
              (start_state online 0%nat fresh_player)
              (@MusicPlayer.playback_loop_while online 3 guild
                 (@MusicPlayer.get_queue_manager online guild
                    (start_state online 0%nat fresh_player)).2).2)
    as (_ & s' & E & Ha & _); [vm_compute; reflexivity|].
  rewrite E. exact Ha.
Defined.

(** ** The calls of an operation are about its guild *)

Section GuildCalls.
Context `{Environment}.
Import MusicPlayer.

Lemma no_guild_about g c : no_guild c -> about_guild g c.
Proof. unfold no_guild, about_guild. intros -> g' [=]. Qed.


Lemma download_audio_no_guild url : only_calls no_guild (YouTubeClient.download_audio url).
Proof.
  unfold YouTubeClient.download_audio, YouTubeClient.download_audio_body.
  repeat first [ apply create_youtube_object_calls; intros; reflexivity
               | only_calls_step; try reflexivity ].
Qed.

Lemma cleanup_file_no_guild fp : only_calls no_guild (YouTubeClient.cleanup_file fp).
Proof.
  unfold YouTubeClient.cleanup_file. repeat (only_calls_step; try reflexivity).
Qed.

Lemma probe_no_guild url c : is_probe_call url c -> no_guild c.
Proof. destruct c; cbn; try contradiction; reflexivity. Qed.

Lemma metadata_no_guild url c : is_metadata_call url c -> no_guild c.
Proof. destruct c; cbn; try contradiction; reflexivity. Qed.

Variable guild_id : Z.
Let P := about_guild guild_id.

Ltac own := first [ intros ? [=]; congruence | intros ? [=] ].

Ltac clients :=
  first
    [ apply (only_calls_weaken no_guild); [apply no_guild_about|apply download_audio_no_guild]
    | apply (only_calls_weaken no_guild); [apply no_guild_about|apply cleanup_file_no_guild]
    | match goal with
      | |- only_calls _ (CatboxClient.extract_audio_info ?url) =>
          apply (only_calls_weaken (is_probe_call url));
          [intros c Hc; apply no_guild_about, (probe_no_guild url), Hc
          |apply catbox_extract_calls]
      | |- only_calls _ (CatboxClient.validate_audio_file ?url) =>
          apply (only_calls_weaken (is_probe_call url));
          [intros c Hc; apply no_guild_about, (probe_no_guild url), Hc
          |apply validate_audio_file_calls]
      | |- only_calls _ (YouTubeClient.extract_audio_info ?url) =>
          apply (only_calls_weaken (is_metadata_call url));
          [intros c Hc; apply no_guild_about, (metadata_no_guild url), Hc
          |apply youtube_extract_calls]
      end ].

Ltac guild_calls := repeat first [ clients | only_calls_step; try own ].

Lemma own_get_queue_manager : only_calls P (get_queue_manager guild_id).
Proof. unfold get_queue_manager. guild_calls. Qed.

Lemma own_cleanup_current_audio : only_calls P (_cleanup_current_audio guild_id).
Proof. unfold _cleanup_current_audio. guild_calls. Qed.

Lemma own_reset_inactivity_timer : only_calls P (reset_inactivity_timer guild_id).
Proof. unfold reset_inactivity_timer. guild_calls. Qed.

Lemma own_cleanup_guild_state : only_calls P (_cleanup_guild_state guild_id).
Proof.
  unfold _cleanup_guild_state.
  repeat first [ apply own_cleanup_current_audio | guild_calls ].
Qed.

Lemma own_start_playback : only_calls P (start_playback guild_id).
Proof.
  unfold start_playback. repeat first [ apply own_reset_inactivity_timer | guild_calls ].
Qed.

Ltac own_ops :=
  repeat first
    [ apply own_get_queue_manager | apply own_cleanup_current_audio
    | apply own_reset_inactivity_timer | apply own_cleanup_guild_state
    | apply own_start_playback | guild_calls ].

Lemma own_add_song_to_queue url requester :
  member_guild_id requester = guild_id -> only_calls P (add_song_to_queue url requester).
Proof.
  intros Hg. unfold add_song_to_queue, add_song_to_queue_body, add_song_of_source.
  rewrite Hg. own_ops.
Qed.

Lemma own_skip_current_song : only_calls P (skip_current_song guild_id).
Proof. unfold skip_current_song, skip_current_song_body. own_ops. Qed.

Lemma own_stop_playback : only_calls P (stop_playback guild_id).
Proof. unfold stop_playback, stop_playback_body. own_ops. Qed.

Lemma own_jump_to_position position : only_calls P (jump_to_position guild_id position).
Proof. unfold jump_to_position, jump_to_position_body. own_ops. Qed.

Lemma own_seek_to_position time_str : only_calls P (seek_to_position guild_id time_str).
Proof.
  unfold seek_to_position, seek_to_position_body, _perform_seek, current_playback_position.
  own_ops.
Qed.

Lemma own_inactivity_timer_task timeout timer :
  only_calls P (_inactivity_timer_task guild_id timeout timer).
Proof. unfold _inactivity_timer_task. own_ops. Qed.

Lemma own_song_audio_file song : only_calls P (song_audio_file song).
Proof. unfold song_audio_file. own_ops. Qed.

Lemma own_playback_loop_pass : only_calls P (playback_loop_pass guild_id).
Proof. unfold playback_loop_pass. repeat first [ apply own_song_audio_file | own_ops ]. Qed.

Lemma own_playback_loop_while fuel : only_calls P (playback_loop_while fuel guild_id).
Proof.
  induction fuel as [|fuel IH]; cbn [playback_loop_while]; [apply only_calls_ret|].
  apply only_calls_bind; [apply own_playback_loop_pass|].
  intros [|]; [exact IH|apply only_calls_ret].
Qed.

Lemma own_playback_loop fuel : only_calls P (_playback_loop fuel guild_id).
Proof.
  unfold _playback_loop. repeat first [ apply own_playback_loop_while | own_ops ].
Qed.

Lemma seek_to_position_calls time_str :
  only_calls (is_seek_call guild_id) (seek_to_position guild_id time_str).
Proof.
  unfold seek_to_position, seek_to_position_body, _perform_seek, current_playback_position,
    get_queue_manager.
  repeat (only_calls_step; try first [reflexivity | exact Logic.I]).
Qed.

End GuildCalls.

(** ** The tasks of other guilds *)

Section TaskFrame.
Context `{Environment}.
Import MusicPlayer.
Local Arguments register_playback : simpl never.
Local Arguments cancel_and_remove_timer : simpl never.
Local Arguments cancel_and_remove_playback : simpl never.

Variable guild_id : Z.
Variable p0 : PlayerState.

Let J (p : PlayerState) : Prop := one_task_per_guild p /\ other_tasks_kept guild_id p0 p.

Lemma J_fields p p' :
  _playback_tasks p' = _playback_tasks p ->
  _inactivity_timers p' = _inactivity_timers p ->
  tasks p' = tasks p -> J p -> J p'.
Proof.
  intros Hp Ht Hts [Hinv Hk]. split.
  - exact (one_task_per_guild_fields p p' Hp Ht Hts Hinv).
  - unfold other_tasks_kept. rewrite Hts. exact Hk.
Qed.

Lemma kept_cancel p j tj :
  other_tasks_kept guild_id p0 p -> tasks p !! j = Some tj -> t_guild tj = guild_id ->
  other_tasks_kept guild_id p0 (set_tasks (cancel j) p).
Proof.
  intros Hk Hj Hg i t Hi Hne. cbn. unfold cancel.
  specialize (Hk i t Hi Hne).
  rewrite list_lookup_alter_ne; [exact Hk|]. intros ->. congruence.
Qed.

Lemma J_cancel_timer p : J p -> J (cancel_and_remove_timer guild_id p).
Proof.
  intros [Hinv Hk]. split; [now apply cancel_and_remove_timer_ok|].
  unfold cancel_and_remove_timer.
  destruct (_inactivity_timers p !! guild_id) as [j|] eqn:Hj; [|exact Hk].
  destruct Hinv as [_ [Ht _]]. destruct (Ht _ _ Hj) as (tj & Etj & Hg & _).
  intros i t Hi Hne. exact (kept_cancel p j tj Hk Etj Hg i t Hi Hne).
Qed.

Lemma J_cancel_playback p : J p -> J (cancel_and_remove_playback guild_id p).
Proof.
  intros [Hinv Hk]. split; [now apply cancel_and_remove_playback_ok|].
  unfold cancel_and_remove_playback.
  destruct (_playback_tasks p !! guild_id) as [j|] eqn:Hj; [|exact Hk].
  destruct Hinv as [[Hp _] _]. destruct (Hp _ _ Hj) as (tj & Etj & Hg & _).
  intros i t Hi Hne. exact (kept_cancel p j tj Hk Etj Hg i t Hi Hne).
Qed.

Lemma J_register_playback p :
  J p -> _playback_tasks p !! guild_id = None -> J (register_playback guild_id p).
Proof.
  intros [Hinv Hk] Hn. split; [now apply register_playback_ok|].
  intros i t Hi Hne. unfold register_playback, create_task. cbn.
  apply lookup_app_l_Some. exact (Hk i t Hi Hne).
Qed.

Ltac other_fields :=
  let p := fresh "p" in let Hp := fresh "Hp" in
  intros p Hp; apply (J_fields p); [reflexivity | reflexivity | reflexivity | exact Hp].

Ltac keeps_player :=
  repeat first
    [ keeps_step
    | apply keeps_catbox_extract | apply keeps_youtube_extract
    | apply keeps_download_audio | apply keeps_validate_audio_file
    | apply keeps_cleanup_file
    | apply keeps_modify_player; other_fields ].

Lemma J_get_queue_manager : keeps J (get_queue_manager guild_id).
Proof. unfold get_queue_manager. keeps_player. Qed.

Lemma J_cleanup_current_audio : keeps J (_cleanup_current_audio guild_id).
Proof. unfold _cleanup_current_audio. keeps_player. Qed.

Lemma J_reset_inactivity_timer : keeps J (reset_inactivity_timer guild_id).
Proof.
  unfold reset_inactivity_timer. keeps_player.
  apply keeps_modify_player. apply J_cancel_timer.
Qed.

Lemma J_cleanup_guild_state : keeps J (_cleanup_guild_state guild_id).
Proof.
  unfold _cleanup_guild_state.
  repeat first [ apply J_cleanup_current_audio
               | apply keeps_modify_player; first [ apply J_cancel_playback | apply J_cancel_timer ]
               | keeps_step | apply keeps_modify_player; other_fields ].
Qed.

Lemma J_start_playback : keeps J (start_playback guild_id).
Proof.
  intros s Hs. unfold start_playback, bind at 1, get_player.
  destruct (_playback_tasks (player s) !! guild_id) eqn:Hg; [exact Hs|].
  unfold reset_inactivity_timer. unfold_run. cbn.
  destruct (oracle Time (world s)) as [[now|e] w]; cbn.
  - apply J_register_playback.
    + eapply J_fields; [| | |apply J_cancel_timer, Hs]; reflexivity.
    + cbn. now rewrite cancel_and_remove_timer_playback.
  - now apply J_cancel_timer.
Qed.

Ltac keeps_ops :=
  repeat first
    [ apply J_get_queue_manager | apply J_cleanup_current_audio
    | apply J_reset_inactivity_timer | apply J_cleanup_guild_state
    | apply J_start_playback
    | keeps_step
    | apply keeps_catbox_extract | apply keeps_youtube_extract
    | apply keeps_download_audio | apply keeps_validate_audio_file
    | apply keeps_cleanup_file
    | apply keeps_modify_player; other_fields ].

Lemma J_add_song_to_queue url requester :
  member_guild_id requester = guild_id -> keeps J (add_song_to_queue url requester).
Proof.
  intros Hg. unfold add_song_to_queue, add_song_to_queue_body, add_song_of_source.
  rewrite Hg. keeps_ops.
Qed.

Lemma J_connect_to_user_channel member :
  member_guild_id member = guild_id -> keeps J (connect_to_user_channel member).
Proof. intros Hg. unfold connect_to_user_channel. rewrite Hg. keeps_ops. Qed.

Lemma J_skip_current_song : keeps J (skip_current_song guild_id).
Proof. unfold skip_current_song, skip_current_song_body. keeps_ops. Qed.

Lemma J_stop_playback : keeps J (stop_playback guild_id).
Proof. unfold stop_playback, stop_playback_body. keeps_ops. Qed.

Lemma J_jump_to_position position : keeps J (jump_to_position guild_id position).
Proof. unfold jump_to_position, jump_to_position_body. keeps_ops. Qed.

Lemma J_seek_to_position time_str : keeps J (seek_to_position guild_id time_str).
Proof.
  unfold seek_to_position, seek_to_position_body, _perform_seek,
    current_playback_position.
  keeps_ops.
Qed.

End TaskFrame.

Section TaskFrameFacts.
Context `{Environment}.
Import MusicPlayer.

Lemma other_tasks_kept_refl g p : other_tasks_kept g p p.
Proof. intros i t Hi _. exact Hi. Qed.

End TaskFrameFacts.

(** ** Catbox songs are streamed *)

Section StreamFacts.
Context `{Environment}.
Import MusicPlayer.

Lemma returns_bind_post {A B} (m : M A) (f : A -> M B) (P : A -> Prop) (Q : B -> Prop) :
  returns m P -> (forall a, P a -> returns (f a) Q) -> returns (bind m f) Q.
Proof.
  intros Hm Hf s b s' E. apply bind_Ret_inv in E as (a & s1 & E1 & E).
  exact (Hf a (Hm s a s1 E1) s1 b s' E).
Qed.

Lemma validate_audio_file_returns url :
  returns (CatboxClient.validate_audio_file url)
    (fun r => r.1.1 = true ->
       r.2 = None
       /\ exists info, r.1.2 = Some info
                       /\ CatboxClient.is_catbox_url url = true
                       /\ catbox_info_of url info).
Proof.
  unfold CatboxClient.validate_audio_file.
  destruct (negb (CatboxClient.is_catbox_url url)).
  { apply returns_ret. discriminate. }
  apply returns_try_except.
  2:{ intros e. repeat returns_step. discriminate. }
  unfold CatboxClient.validate_audio_file_body.
  do 2 (apply returns_bind; intros).
  eapply returns_bind_post; [apply catbox_extract_returns|].
  intros [info|] Hinfo; cbn beta iota.
  2:{ repeat returns_step. discriminate. }
  destruct (Hinfo info eq_refl) as (Hc & Hi).
  repeat returns_step; cbn; intros Hs; try discriminate Hs.
  split; [reflexivity|]. eauto.
Qed.

(** X12. A Catbox song is played from its URL: the path that the playback loop
    gets for it is the song's URL, obtained with HEAD requests to that
    URL and nothing else, and being an http URL it is not a file that
    [_cleanup_current_audio] would remove. *)
Theorem catbox_song_is_streamed (song : Song) (info : CatboxAudioInfo)
    (s : state) (path : string) (s' : state) :
  song_audio_info song = inl (from_catbox_info info) ->
  song_audio_file song s = (Ret (Some path), s') ->
  path = song_url song
  /\ CatboxClient.is_catbox_url (song_url song) = true
  /\ player s' = player s
  /\ (exists new, log s' = log s ++ new
                  /\ Forall (fun e => is_probe_call (song_url song) (ev_call e)) new)
  /\ (PyStr.startswith "http" (song_url song) = true -> is_local_file path = false).
Proof.
  intros Hinfo E. unfold song_audio_file in E. rewrite Hinfo in E. cbn in E.
  apply bind_Ret_inv in E as (r & s1 & E1 & E).
  pose proof (validate_audio_file_returns _ _ _ _ E1) as Hr.
  pose proof (unchanged_player _ (fun I => keeps_validate_audio_file I (song_url song)) s)
    as Hp.
  destruct (validate_audio_file_calls (song_url song) s) as (new & Hl & Hf).
  rewrite E1 in Hp, Hl. cbn in Hp, Hl.
  destruct r as [[ok oi] msg]. destruct ok; [|discriminate E].
  destruct (Hr eq_refl) as (_ & i & Hi & Hc & Hcb). cbn in Hi. subst oi.
  injection E as <- <-.
  destruct Hcb as (_ & Hpath & _). rewrite Hpath.
  split; [reflexivity|]. split; [exact Hc|]. split; [exact Hp|].
  split; [eauto|].
  intros Hh. unfold is_local_file. rewrite Hh. apply andb_false_r.
Qed.

End StreamFacts.


Lemma catbox_song_is_streamed_witness :
  (@MusicPlayer.song_audio_file online catbox_song
     (start_state online 0%nat fresh_player)).1
  = Ret (Some (song_url catbox_song)).
Proof.
  destruct (@MusicPlayer.song_audio_file online catbox_song
              (start_state online 0%nat fresh_player)) as [r s'] eqn:E.
  assert (Hr : r = Ret (Some "https://files.catbox.moe/a.ogg"))
    by (apply (f_equal fst) in E; vm_compute in E; congruence).
  subst r.
  destruct (@catbox_song_is_streamed online catbox_song _ _ _ _ eq_refl E) as (Hp & _).
  cbn [fst]. now rewrite Hp.
Defined.

(** ** The inactivity timer fires *)

Section IdleTimerFacts.
Context `{Environment}.
Import MusicPlayer.
Local Arguments _cleanup_guild_state : simpl never.

(** X30. The timer that wakes up uncancelled, with the bot connected and
    nothing playing, cleans up the guild and then asks the voice manager to
    disconnect from it, once; it ends done, whatever the voice manager
    answers. *)
Theorem idle_timer_disconnects (guild_id timeout_seconds : Z) (timer : nat)
    (s : state) (w1 w2 w3 : World) :
  cancel_requested timer (player s) = false ->
  oracle (Sleep timeout_seconds) (world s) = (Ret tt, w1) ->
  oracle (VmIsConnected guild_id) w1 = (Ret true, w2) ->
  oracle (VmIsPlaying guild_id) w2 = (Ret false, w3) ->
  exists s' new,
    _inactivity_timer_task guild_id timeout_seconds timer s = (Ret tt, s')
    /\ log s' = log s ++ new
    /\ disconnects new = [guild_id]
    /\ guild_view guild_id (player s')
       = cleared_view (bool_decide (guild_id ∈ _queue_managers (player s)))
    /\ task_done timer (player s').
Proof.
  intros Hc O1 O2 O3. unfold _inactivity_timer_task. unfold_run. cbn.
  rewrite O1. cbn. rewrite Hc. cbn. rewrite O2. cbn. rewrite O3. cbn.
  match goal with |- context [_cleanup_guild_state ?g ?s0] =>
    destruct (cleanup_guild_state_spec g s0) as (s1 & new & Ecl & Hp & Hl & Hf)
  end.
  rewrite Ecl. cbn in Hp, Hl. cbn.
  destruct (oracle (VmDisconnectFromGuild guild_id) (world s1)) as [r w4].
  assert (Hv : forall ts,
            guild_view guild_id
              (set_tasks ts (set_inactivity_timers (delete guild_id) (player s1)))
            = cleared_view (bool_decide (guild_id ∈ _queue_managers (player s)))).
  { intros ts. rewrite Hp.
    pose proof (cleaned_up_view guild_id (player s)) as Hcv.
    unfold guild_view, cleared_view, timing_of in *. cbn.
    injection Hcv as -> -> -> -> -> -> _ ->. now rewrite lookup_delete_eq. }
  assert (Hd : forall p, task_done timer (set_tasks (alter finish_task timer) p)).
  { intros p t Ht. cbn in Ht. rewrite list_lookup_alter in Ht.
    rewrite decide_True in Ht by reflexivity.
    destruct (tasks p !! timer); cbn in Ht; [|discriminate Ht].
    injection Ht as <-. reflexivity. }
  destruct r as [[]|e]; cbn.
  all: do 2 eexists; (split; [reflexivity|]); cbn.
  all: rewrite Hl, <- !app_assoc; cbn [app].
  all: split; [reflexivity|].
  all: split; [|split; [apply Hv|apply Hd]].
  all: match goal with |- disconnects (?a :: ?b :: ?c :: ?n ++ ?d) = _ =>
         change (a :: b :: c :: n ++ d) with ([a; b; c] ++ n ++ d);
         rewrite !disconnects_app, (file_calls_no_disconnect n Hf); reflexivity
       end.
Qed.

End IdleTimerFacts.

Lemma idle_timer_disconnects_witness :
  disconnects
    (log (@MusicPlayer._inactivity_timer_task online guild 300 0
            (start_state online 0%nat idle_player)).2) = [guild].
Proof.
  destruct (@idle_timer_disconnects online guild 300 0%nat
              (start_state online 0%nat idle_player) 1%nat 2%nat 3%nat)
    as (s' & new & E & Hl & Hd & _);
    [vm_compute; reflexivity | vm_compute; reflexivity | vm_compute; reflexivity
    | vm_compute; reflexivity |].
  rewrite E. cbn [snd]. rewrite Hl. exact Hd.
Defined.

(** ** Operations keep to their guild *)

Section IsolationFacts.
Context `{Environment}.
Import MusicPlayer.

Lemma leaves_guild_of_keeps {A} other (m : M A) :
  (forall v, keeps (fun p => guild_view other p = v) m) -> leaves_guild other m.
Proof. intros Hk s. exact (Hk (guild_view other (player s)) s eq_refl). Qed.

Lemma keeps_other_tasks_of_keeps {A} g (m : M A) :
  (forall p0, keeps (fun p => one_task_per_guild p /\ other_tasks_kept g p0 p) m) ->
  keeps_other_tasks g m.
Proof.
  intros Hk s Hinv.
  exact (proj2 (Hk (player s) s (conj Hinv (other_tasks_kept_refl g (player s))))).
Qed.

Lemma own_connect_to_user_channel member :
  only_calls (about_guild (member_guild_id member)) (connect_to_user_channel member).
Proof.
  unfold connect_to_user_channel.
  repeat first [ apply own_reset_inactivity_timer
               | only_calls_step; try (intros ? [=]) ].
Qed.

(** X28. Every operation of the player keeps to the guild it is run for. *)
Theorem operations_keep_to_their_guild (guild_id : Z) :
  (forall url requester, member_guild_id requester = guild_id ->
     keeps_to_guild guild_id (add_song_to_queue url requester))
  /\ (forall member, member_guild_id member = guild_id ->
        keeps_to_guild guild_id (connect_to_user_channel member))
  /\ keeps_to_guild guild_id (skip_current_song guild_id)
  /\ keeps_to_guild guild_id (stop_playback guild_id)
  /\ (forall position, keeps_to_guild guild_id (jump_to_position guild_id position))
  /\ (forall time_str, keeps_to_guild guild_id (seek_to_position guild_id time_str)).
Proof.
  split; [intros url requester Hg|].
  { split; [now apply own_add_song_to_queue|]. split.
    - intros other Hne. apply leaves_guild_of_keeps. intros v.
      exact (frame_add_song_to_queue guild_id other Hne v url requester Hg).
    - apply keeps_other_tasks_of_keeps. intros p0. exact (J_add_song_to_queue guild_id p0 url requester Hg). }
  split; [intros member Hg|].
  { split; [rewrite <- Hg; apply own_connect_to_user_channel|]. split.
    - intros other Hne. apply leaves_guild_of_keeps. intros v.
      exact (frame_connect_to_user_channel guild_id other Hne v member Hg).
    - apply keeps_other_tasks_of_keeps. intros p0. exact (J_connect_to_user_channel guild_id p0 member Hg). }
  split.
  { split; [apply own_skip_current_song|]. split.
    - intros other Hne. apply leaves_guild_of_keeps. intros v.
      exact (frame_skip_current_song guild_id other Hne v).
    - apply keeps_other_tasks_of_keeps. intros p0. exact (J_skip_current_song guild_id p0). }
  split.
  { split; [apply own_stop_playback|]. split.
    - intros other Hne. apply leaves_guild_of_keeps. intros v.
      exact (frame_stop_playback guild_id other Hne v).
    - apply keeps_other_tasks_of_keeps. intros p0. exact (J_stop_playback guild_id p0). }
  split; [intros position|intros time_str].
  { split; [apply own_jump_to_position|]. split.
    - intros other Hne. apply leaves_guild_of_keeps. intros v.
      exact (frame_jump_to_position guild_id other Hne v position).
    - apply keeps_other_tasks_of_keeps. intros p0. exact (J_jump_to_position guild_id p0 position). }
  { split; [apply own_seek_to_position|]. split.
    - intros other Hne. apply leaves_guild_of_keeps. intros v.
      exact (frame_seek_to_position guild_id other Hne v time_str).
    - apply keeps_other_tasks_of_keeps. intros p0. exact (J_seek_to_position guild_id p0 time_str). }
Qed.

(** X29. The two tasks of a guild, the inactivity timer and the playback loop,
    call the voice manager and the queue of that guild only, and leave
    what the player holds for any other guild as it is. *)
Theorem tasks_keep_to_their_guild (guild_id : Z) :
  (forall timeout_seconds timer,
     only_calls (about_guild guild_id)
       (_inactivity_timer_task guild_id timeout_seconds timer)
     /\ forall other, other <> guild_id ->
          leaves_guild other (_inactivity_timer_task guild_id timeout_seconds timer))
  /\ (forall fuel,
        only_calls (about_guild guild_id) (_playback_loop fuel guild_id)
        /\ forall other, other <> guild_id ->
             leaves_guild other (_playback_loop fuel guild_id)).
Proof.
  split.
  - intros timeout_seconds timer. split; [apply own_inactivity_timer_task|].
    intros other Hne. apply leaves_guild_of_keeps. intros v.
    exact (frame_inactivity_timer_task guild_id other Hne v timeout_seconds timer).
  - intros fuel. split; [apply own_playback_loop|].
    intros other Hne. apply leaves_guild_of_keeps. intros v.
    exact (frame_playback_loop guild_id other Hne v fuel).
Qed.

(** X25. A seek only asks the voice manager and the queue about its guild,
    reads the clock, stops the audio and restarts it at a position: it
    never changes a queue, removes a file or disconnects. *)
Theorem seek_leaves_queue_alone (guild_id : Z) (time_str : string) :
  only_calls (is_seek_call guild_id) (seek_to_position guild_id time_str).
Proof. apply seek_to_position_calls. Qed.

End IsolationFacts.


Lemma operations_keep_to_their_guild_witness :
  guild_view neighbour
    (player (@MusicPlayer.stop_playback online guild
               (start_state online 0%nat shared_player)).2)
  = guild_view neighbour shared_player.
Proof.
  destruct (@operations_keep_to_their_guild online guild)
    as (_ & _ & _ & (_ & Hl & _) & _).
  apply (Hl neighbour). discriminate.
Defined.

Lemma jump_to_invalid_position_stops_witness :
  _current_audio_files
    (player (@MusicPlayer.jump_to_position online guild 3
               (start_state online 0%nat loaded_player)).2) !! guild = None.
Proof.
  apply (@jump_to_invalid_position_stops online guild 3
           (start_state online 0%nat loaded_player)).
  vm_compute. reflexivity.
Defined.

Lemma seek_to_position_success_witness :
  exists target now,
    position_is guild now
      (player (@MusicPlayer.seek_to_position listening guild "1:30"
                 (start_state listening 0%nat loaded_player)).2) target
    /\ (0 <= target)%Q.
Proof.
  destruct (@seek_to_position_success listening guild "1:30"
              (start_state listening 0%nat loaded_player) None
              (@MusicPlayer.seek_to_position listening guild "1:30"
                 (start_state listening 0%nat loaded_player)).2)
    as (_ & song & path & parsed & current & target & now & src
        & w1 & w2 & w3 & w4 & w5 & w6 & before
        & _ & _ & _ & _ & _ & H0 & _ & _ & _ & _ & _ & _ & _ & _ & _ & Hpos);
    [vm_compute; reflexivity|].
  exists target, now. split; [exact Hpos|exact H0].
Defined.

Lemma add_song_to_queue_success_witness :
  exists info new,
    @info_of online "https://files.catbox.moe/a.ogg" info
    /\ log (@MusicPlayer.add_song_to_queue online "https://files.catbox.moe/a.ogg" listener
              (start_state online 0%nat fresh_player)).2 = new
    /\ added_songs new = [(guild, info, listener)].
Proof.
  destruct (@add_song_to_queue_success online "https://files.catbox.moe/a.ogg" listener
              (start_state online 0%nat fresh_player) (Some 1) None
              (@MusicPlayer.add_song_to_queue online "https://files.catbox.moe/a.ogg"
                 listener (start_state online 0%nat fresh_player)).2)
    as (_ & _ & info & position & new & Hi & _ & Hl & Ha & _);
    [vm_compute; reflexivity|].
  exists info, new. split; [exact Hi|]. split; [exact Hl|exact Ha].
Defined.

(** ** One active audio file per guild *)

Section AudioFileFacts.
Context `{Environment}.
Import MusicPlayer.
Local Arguments _cleanup_current_audio : simpl never.
Local Arguments song_audio_file : simpl never.

Lemma started_files_app l1 l2 :
  started_files (l1 ++ l2) = started_files l1 ++ started_files l2.
Proof. apply omap_app. Qed.

Lemma started_files_cons e l :
  started_files (e :: l)
  = match started_file (ev_call e) with
    | Some path => path :: started_files l
    | None => started_files l
    end.
Proof. unfold started_files. cbn. destruct (started_file (ev_call e)); reflexivity. Qed.

Lemma only_calls_not_started l :
  Forall (fun e => started_file (ev_call e) = None) l -> started_files l = [].
Proof.
  induction 1 as [|e l He _ IH]; [reflexivity|].
  unfold started_files in *. cbn. now rewrite He, IH.
Qed.

Lemma file_calls_not_started l :
  Forall (fun e => is_file_call (ev_call e) = true) l -> started_files l = [].
Proof.
  intros Hf. apply only_calls_not_started. eapply Forall_impl; [exact Hf|].
  intros e. cbn. destruct (ev_call e); try discriminate; reflexivity.
Qed.

Lemma song_audio_file_calls song :
  only_calls (fun c => started_file c = None) (song_audio_file song).
Proof.
  assert (Hd : forall url,
            only_calls (fun c => started_file c = None) (YouTubeClient.download_audio url)).
  { intros url. unfold YouTubeClient.download_audio, YouTubeClient.download_audio_body.
    repeat first [ apply create_youtube_object_calls; intros; reflexivity
                 | only_calls_step; try reflexivity ]. }
  assert (Hv : forall url,
            only_calls (fun c => started_file c = None) (CatboxClient.validate_audio_file url)).
  { intros url. apply (only_calls_weaken (is_probe_call url));
      [|apply validate_audio_file_calls].
    intros c. destruct c; cbn; try contradiction; reflexivity. }
  unfold song_audio_file.
  repeat first [ apply Hd | apply Hv | only_calls_step ].
Qed.

Lemma song_audio_file_never_raises song : never_raises (song_audio_file song).
Proof.
  assert (Hd : forall url, never_raises (YouTubeClient.download_audio url))
    by (intros url; apply download_audio_reports).
  assert (Hv : forall url, never_raises (CatboxClient.validate_audio_file url))
    by (intros url; apply validate_audio_file_reports).
  assert (Hb : forall A B (m : M A) (k : A -> M B),
            never_raises m -> (forall a, never_raises (k a)) -> never_raises (bind m k)).
  { intros A B m k Hm Hk s. destruct (Hm s) as (a & s1 & E). unfold bind. rewrite E.
    apply Hk. }
  unfold song_audio_file.
  destruct (song_audio_info song) as [unified|legacy].
  - destruct (is_youtube unified); [|destruct (is_catbox unified)].
    + apply Hb; [apply Hd|]. intros [[[] [i|]] m]; apply never_raises_ret.
    + apply Hb; [apply Hv|]. intros [[[] [i|]] m]; apply never_raises_ret.
    + apply never_raises_ret.
  - apply Hb; [apply Hd|]. intros [[[] [i|]] m]; apply never_raises_ret.
Qed.

Lemma keeps_song_audio_file (I : PlayerState -> Prop) song :
  keeps I (song_audio_file song).
Proof.
  unfold song_audio_file.
  repeat first [ apply keeps_download_audio | apply keeps_validate_audio_file
               | keeps_step ].
Qed.

Lemma song_audio_file_quiet song s :
  exists r s1 new,
    song_audio_file song s = (Ret r, s1)
    /\ player s1 = player s
    /\ log s1 = log s ++ new
    /\ started_files new = [].
Proof.
  destruct (song_audio_file_never_raises song s) as (r & s1 & E).
  destruct (song_audio_file_calls song s) as (new & Hl & Hf).
  pose proof (unchanged_player _ (fun I => keeps_song_audio_file I song) s) as Hp.
  rewrite E in Hl, Hp. exists r, s1, new.
  split; [exact E|]. split; [exact Hp|]. split; [exact Hl|].
  now apply only_calls_not_started.
Qed.

Lemma playback_pass_files g s :
  exists new,
    log (playback_loop_pass g s).2 = log s ++ new
    /\ match started_files new with
       | [] => _current_audio_files (player (playback_loop_pass g s).2)
               = _current_audio_files (player s)
       | [path] =>
           _current_audio_files (player (playback_loop_pass g s).2)
           = match (playback_loop_pass g s).1 with
             | Raise _ => <[g := path]> (_current_audio_files (player s))
             | Ret _ => delete g (_current_audio_files (player s))
             end
       | _ => False
       end.
Proof.
  unfold playback_loop_pass. unfold_run. cbn.
  destruct (oracle (QmGetNextSong g) (world s)) as [[[song|]|e] w1] eqn:O1; cbn.
  - match goal with |- context [song_audio_file song ?s0] =>
      destruct (song_audio_file_quiet song s0) as (r & s1 & new1 & E & Hp & Hl & Hs) end.
    rewrite E. cbn in Hp, Hl. cbn.
    destruct r as [path|].
    2:{ cbn. exists ([mkEvent (QmGetNextSong g) None] ++ new1).
        rewrite Hl, <- app_assoc. split; [reflexivity|].
        rewrite started_files_app, Hs. cbn. now rewrite Hp. }
    destruct (PyStr.is_empty path) eqn:Hne; cbn.
    { exists ([mkEvent (QmGetNextSong g) None] ++ new1).
      rewrite Hl, <- app_assoc. split; [reflexivity|].
      rewrite started_files_app, Hs. cbn. now rewrite Hp. }
    repeat first
      [ match goal with |- context [_cleanup_current_audio ?g0 ?s0] =>
          let s2 := fresh "s" in let newc := fresh "newc" in
          let Ec := fresh "Ec" in let Hpc := fresh "Hpc" in
          let Hlc := fresh "Hlc" in let Hfc := fresh "Hfc" in
          destruct (cleanup_current_audio_spec g0 s0) as (s2 & newc & Ec & Hpc & Hlc & Hfc & _);
          rewrite Ec; cbn in Hpc, Hlc; cbn
        end
      | next_call | next_test ].
    all: rewrite ?Hlc, ?Hpc, ?Hl, ?Hp, <- ?app_assoc; cbn [app].
    all: eexists; (split; [reflexivity|]).
    all: repeat (rewrite ?started_files_cons, ?started_files_app;
                 cbn [started_file ev_call app]).
    all: rewrite ?Hs, ?(file_calls_not_started _ Hfc); cbn.
    all: try reflexivity.
    all: apply delete_insert_eq.
  - exists [mkEvent (QmGetNextSong g) None]. split; [reflexivity|]. cbn.
    unfold _start_inactivity_timer.
    destruct (_inactivity_timers (player s) !! g); reflexivity.
  - exists [mkEvent (QmGetNextSong g) (Some e)]. split; reflexivity.
Qed.

Lemma playback_pass_starts_song g s song w path s1 :
  oracle (QmGetNextSong g) (world s) = (Ret (Some song), w) ->
  song_audio_file song (mkState w (player s) (log s ++ [mkEvent (QmGetNextSong g) None]))
  = (Ret (Some path), s1) ->
  PyStr.is_empty path = false ->
  exists new,
    log (playback_loop_pass g s).2 = log s ++ new /\ started_files new = [path].
Proof.
  intros O1 E Hne.
  destruct (song_audio_file_quiet song
              (mkState w (player s) (log s ++ [mkEvent (QmGetNextSong g) None])))
    as (r & s1' & new1 & E' & Hp & Hl & Hs).
  rewrite E in E'. injection E' as <- <-. cbn in Hp, Hl.
  unfold playback_loop_pass. unfold_run. rewrite O1. cbn. rewrite E. cbn. rewrite Hne. cbn.
  repeat first
    [ match goal with |- context [_cleanup_current_audio ?g0 ?s0] =>
        let s2 := fresh "s" in let newc := fresh "newc" in
        let Ec := fresh "Ec" in let Hpc := fresh "Hpc" in
        let Hlc := fresh "Hlc" in let Hfc := fresh "Hfc" in
        destruct (cleanup_current_audio_spec g0 s0) as (s2 & newc & Ec & Hpc & Hlc & Hfc & _);
        rewrite Ec; cbn in Hpc, Hlc; cbn
      end
    | next_call | next_test ].
  all: rewrite ?Hlc, ?Hl, <- ?app_assoc; cbn [app].
  all: eexists; (split; [reflexivity|]).
  all: repeat (rewrite ?started_files_cons, ?started_files_app;
               cbn [started_file ev_call app]).
  all: rewrite ?Hs, ?(file_calls_not_started _ Hfc); reflexivity.
Qed.

End AudioFileFacts.

Section AudioFileClaim.
Context `{Environment}.
Import MusicPlayer.

(** C5. A guild has at most one audio file entered, the map being one from
    guilds to paths. A pass of the playback loop starts at most one file,
    and only for its own guild: if it starts none it leaves every entry as
    it was; if it starts [file_path] then, where the pass is interrupted
    by an exception while the song is being started or played, that path
    is the guild's entry, whatever was entered before, and where the pass
    returns the guild has no entry; the entries of other guilds are left
    alone either way. A pass that gets a song from the queue, and a path
    that is not empty for it, does start that path. [_cleanup_current_audio]
    never raises, removes the guild's entry and nothing else, and removes
    from disk at most the entered file, and only when it is a local path;
    and the playback loop, however it ends, leaves no file entered for its
    guild. *)
Theorem one_active_audio_file :
  (forall (p : PlayerState) g,
     (length (entries_for g (_current_audio_files p)) <= 1)%nat)
  /\ (forall g s,
        exists new,
          log (playback_loop_pass g s).2 = log s ++ new
          /\ match started_files new with
             | [] => _current_audio_files (player (playback_loop_pass g s).2)
                     = _current_audio_files (player s)
             | [file_path] =>
                 _current_audio_files (player (playback_loop_pass g s).2)
                 = match (playback_loop_pass g s).1 with
                   | Raise _ => <[g := file_path]> (_current_audio_files (player s))
                   | Ret _ => delete g (_current_audio_files (player s))
                   end
             | _ => False
             end)
  /\ (forall g s song w file_path s1,
        oracle (QmGetNextSong g) (world s) = (Ret (Some song), w) ->
        song_audio_file song
          (mkState w (player s) (log s ++ [mkEvent (QmGetNextSong g) None]))
        = (Ret (Some file_path), s1) ->
        PyStr.is_empty file_path = false ->
        exists new,
          log (playback_loop_pass g s).2 = log s ++ new
          /\ started_files new = [file_path])
  /\ (forall g s,
        exists s' new,
          _cleanup_current_audio g s = (Ret tt, s')
          /\ player s' = set_current_audio_files (delete g) (player s)
          /\ _current_audio_files (player s') !! g = None
          /\ log s' = log s ++ new
          /\ removed_files new ⊆
               match _current_audio_files (player s) !! g with
               | Some file_path => if is_local_file file_path then [file_path] else []
               | None => []
               end)
  /\ (forall fuel g s,
        exists r s',
          _playback_loop fuel g s = (Ret r, s')
          /\ _current_audio_files (player s') !! g = None).
Proof.
  split; [intros p g; apply entries_for_at_most_one|].
  split; [exact playback_pass_files|].
  split; [exact playback_pass_starts_song|].
  split.
  { intros g s.
    destruct (cleanup_current_audio_spec g s) as (s' & new & E & Hp & Hl & _ & Hr).
    exists s', new. split; [exact E|]. split; [exact Hp|].
    split; [rewrite Hp; apply lookup_delete_eq|]. split; [exact Hl|exact Hr]. }
  intros fuel g s.
  destruct (playback_loop_cleans_up fuel g s) as (r & s' & E & Hf & _).
  exists r, s'. auto.
Qed.
End AudioFileClaim.

Lemma one_active_audio_file_witness :
  started_files
    (log (@MusicPlayer.playback_loop_pass queued guild
            (start_state queued 0%nat loaded_player)).2)
  = ["https://files.catbox.moe/a.ogg"]
  /\ _current_audio_files
       (player (@MusicPlayer.playback_loop_pass queued guild
                  (start_state queued 0%nat loaded_player)).2) !! guild = None.
Proof.
  destruct (@one_active_audio_file queued) as (_ & Hpass & Hstart & _).
  destruct (Hstart guild (start_state queued 0%nat loaded_player) catbox_song
              (1%nat : @World queued) "https://files.catbox.moe/a.ogg"
              (@MusicPlayer.song_audio_file queued catbox_song
                 (@mkState queued 1%nat loaded_player
                    [mkEvent (QmGetNextSong guild) None])).2)
    as (new & Hl & Hs); [reflexivity | vm_compute; reflexivity | reflexivity |].
  cbn [start_state log] in Hl. rewrite app_nil_l in Hl. rewrite Hl.
  split; [exact Hs|]. vm_compute. reflexivity.
Defined.
